(** * HyperCube-WebGPU: camera, layout, selection and picking

    A shallow embedding of the JavaScript classes [CameraSystem],
    [DataProcessor], [Controls] and [SelectionSystem] and the properties
    of them that the specification states.

    Numbers.  A JavaScript number is an IEEE-754 double.  The embedding keeps
    the special values of the standard ([Infinity], [-Infinity], [NaN]) and
    the rules that produce and propagate them (division by zero, [0/0],
    [Infinity - Infinity], square root of a negative number, comparisons
    with [NaN]), and takes the finite values to be exact real numbers:
    rounding, overflow of finite arithmetic and the sign of zero are outside
    the model (every zero divisor of the embedded code is a sum, a square
    root or a difference of equal numbers, hence [+0]).  Where the data of
    the records reach a [Float32Array], in [processData], the store
    narrows the number to a 32-bit float and a number too large for one
    becomes an infinity ([toFloat32]); the matrices of the camera are
    kept as they are computed.  [parseInt] yields the integer it reads as
    it is: the language rounds an integer beyond [2^53] to a double and
    yields [Infinity] from [2^1024] on, which is outside the model as
    rounding and overflow are; the theorems on the positions of the
    records take years far below ([plain_year]).

    GPU buffers are arrays of their elements.  The selection system with one
    bit per cube copies, maps and writes single bytes: for its buffers the
    checks the WebGPU API makes on sizes and offsets are part of the
    model.  The other buffers are written in whole floats or words, inside
    the buffer or not at all. *)

From Stdlib Require Import Reals Lra Lia Psatz ZArith List String Ascii Bool Arith.
Import ListNotations.

Open Scope R_scope.

(** ** JavaScript numbers *)

Inductive num : Type :=
| Fin (r : R)
| PInf
| NInf
| NaN.

Declare Scope js_scope.
Delimit Scope js_scope with js.
Bind Scope js_scope with num.

Definition Rltb (a b : R) : bool := if Rlt_dec a b then true else false.
Definition Reqb (a b : R) : bool := if Req_dec_T a b then true else false.

(** The infinity that has the sign of [r]; [NaN] when [r] is zero
    ([0 * Infinity], [0 / 0]). *)
Definition signed_inf (r : R) : num :=
  if Req_dec_T r 0 then NaN else if Rlt_dec 0 r then PInf else NInf.

Definition neg (x : num) : num :=
  match x with
  | Fin r => Fin (- r)
  | PInf => NInf
  | NInf => PInf
  | NaN => NaN
  end.

Definition add (x y : num) : num :=
  match x, y with
  | Fin a, Fin b => Fin (a + b)
  | NaN, _ => NaN
  | _, NaN => NaN
  | PInf, NInf => NaN
  | NInf, PInf => NaN
  | PInf, _ => PInf
  | _, PInf => PInf
  | NInf, _ => NInf
  | _, NInf => NInf
  end.

Definition sub (x y : num) : num := add x (neg y).

Definition mul (x y : num) : num :=
  match x, y with
  | Fin a, Fin b => Fin (a * b)
  | NaN, _ => NaN
  | _, NaN => NaN
  | Fin a, PInf => signed_inf a
  | PInf, Fin a => signed_inf a
  | Fin a, NInf => signed_inf (- a)
  | NInf, Fin a => signed_inf (- a)
  | PInf, PInf => PInf
  | NInf, NInf => PInf
  | PInf, NInf => NInf
  | NInf, PInf => NInf
  end.

Definition div (x y : num) : num :=
  match x, y with
  | Fin a, Fin b => if Req_dec_T b 0 then signed_inf a else Fin (a / b)
  | NaN, _ => NaN
  | _, NaN => NaN
  | Fin _, _ => Fin 0
  | PInf, Fin b => if Rle_dec 0 b then PInf else NInf
  | NInf, Fin b => if Rle_dec 0 b then NInf else PInf
  | _, _ => NaN
  end.

(** [x < y], [x <= y] and [x === y]: false as soon as one side is [NaN]. *)
Definition ltb (x y : num) : bool :=
  match x, y with
  | Fin a, Fin b => Rltb a b
  | NaN, _ => false
  | _, NaN => false
  | NInf, NInf => false
  | NInf, _ => true
  | _, NInf => false
  | PInf, _ => false
  | _, PInf => true
  end.

Definition eqb (x y : num) : bool :=
  match x, y with
  | Fin a, Fin b => Reqb a b
  | PInf, PInf => true
  | NInf, NInf => true
  | _, _ => false
  end.

Definition leb (x y : num) : bool := ltb x y || eqb x y.
Definition gtb (x y : num) : bool := ltb y x.
Definition geb (x y : num) : bool := leb y x.

Infix "+" := add : js_scope.
Infix "-" := sub : js_scope.
Infix "*" := mul : js_scope.
Infix "/" := div : js_scope.
Notation "- x" := (neg x) : js_scope.
Infix "<?" := ltb (at level 70, no associativity) : js_scope.
Infix "<=?" := leb (at level 70, no associativity) : js_scope.
Infix ">?" := gtb (at level 70, no associativity) : js_scope.
Infix ">=?" := geb (at level 70, no associativity) : js_scope.
Infix "===" := eqb (at level 70, no associativity) : js_scope.

(** A number in a boolean position: [NaN] and zero are falsy. *)
Definition truthy (x : num) : bool :=
  match x with
  | Fin r => negb (Reqb r 0)
  | NaN => false
  | _ => true
  end.

(** [x || y] on numbers. *)
Definition js_or (x y : num) : num := if truthy x then x else y.

Definition is_finite (x : num) : bool :=
  match x with Fin _ => true | _ => false end.

Definition is_nan (x : num) : bool :=
  match x with NaN => true | _ => false end.

(** [a[i] = x] on a [Float32Array] narrows [x] to a 32-bit float, rounding
    to the nearest: a finite number whose magnitude reaches
    [2^128 - 2^103], half way from the largest float to [2^128], becomes
    an infinity. *)
Definition float32_overflow : R := IZR (2 ^ 128 - 2 ^ 103).

Definition toFloat32 (x : num) : num :=
  match x with
  | Fin r =>
      if Rle_dec float32_overflow (Rabs r)
      then if Rlt_dec 0 r then PInf else NInf
      else Fin r
  | _ => x
  end.

Definition of_Z (z : Z) : num := Fin (IZR z).
Definition of_nat (n : nat) : num := of_Z (Z.of_nat n).

(** Largest integer below, smallest integer above, and the integer part. *)
Definition Rfloor (r : R) : Z := Int_part r.
Definition Rceil (r : R) : Z := (- Int_part (- r))%Z.
Definition Rtrunc (r : R) : Z := if Rle_dec 0 r then Rfloor r else Rceil r.

Module Math.

Definition PI : num := Fin Rtrigo1.PI.

Definition sqrt (x : num) : num :=
  match x with
  | Fin a => if Rlt_dec a 0 then NaN else Fin (R_sqrt.sqrt a)
  | PInf => PInf
  | _ => NaN
  end.

Definition floor (x : num) : num :=
  match x with Fin a => of_Z (Rfloor a) | _ => x end.

Definition ceil (x : num) : num :=
  match x with Fin a => of_Z (Rceil a) | _ => x end.

Definition abs (x : num) : num :=
  match x with
  | Fin a => Fin (Rabs a)
  | NaN => NaN
  | _ => PInf
  end.

Definition min (x y : num) : num :=
  match x, y with
  | NaN, _ => NaN
  | _, NaN => NaN
  | _, _ => if ltb y x then y else x
  end.

Definition max (x y : num) : num :=
  match x, y with
  | NaN, _ => NaN
  | _, NaN => NaN
  | _, _ => if ltb x y then y else x
  end.

Definition cos (x : num) : num :=
  match x with Fin a => Fin (Rtrigo_def.cos a) | _ => NaN end.

Definition sin (x : num) : num :=
  match x with Fin a => Fin (Rtrigo_def.sin a) | _ => NaN end.

Definition tan (x : num) : num :=
  match x with Fin a => Fin (Rtrigo1.tan a) | _ => NaN end.

Definition asin (x : num) : num :=
  match x with
  | Fin a => if Rle_dec (-1) a then if Rle_dec a 1 then Fin (Ratan.asin a) else NaN else NaN
  | _ => NaN
  end.

End Math.

(** [x % y]: the remainder that has the sign of the dividend. *)
Definition rem (x y : num) : num :=
  match x, y with
  | Fin a, Fin b => if Req_dec_T b 0 then NaN else Fin (a - b * IZR (Rtrunc (a / b)))
  | Fin a, PInf => Fin a
  | Fin a, NInf => Fin a
  | _, _ => NaN
  end.

Infix "mod" := rem (at level 40, no associativity) : js_scope.

(** ** Vectors: the three-element arrays of the source *)

Record vec3 : Type := Vec3 { c0 : num; c1 : num; c2 : num }.

Definition vec3_finite (v : vec3) : Prop :=
  is_finite (c0 v) = true /\ is_finite (c1 v) = true /\ is_finite (c2 v) = true.

Open Scope js_scope.

(** Reading an element of an array; an index outside yields [undefined],
    which is [NaN] in arithmetic. *)
Definition at_ (m : list num) (i : nat) : num := nth i m NaN.

(** ** webgpu/core/camera.js: [CameraSystem] *)

Module CameraSystem.

Record t : Type := Build {
  canvas_width : num;          (* this.renderer.canvas.width *)
  canvas_height : num;         (* this.renderer.canvas.height *)
  position : vec3;
  target : vec3;
  up : vec3;
  fov : num;
  aspect : num;
  near : num;
  far : num;
  viewMatrix : list num;
  projectionMatrix : list num;
  viewProjectionMatrix : list num;
  uniformBuffer : list num;    (* what the last writeBuffer stored *)
  time : num
}.

Definition set_position (c : t) (v : vec3) : t :=
  Build (canvas_width c) (canvas_height c) v (target c) (up c) (fov c) (aspect c)
        (near c) (far c) (viewMatrix c) (projectionMatrix c)
        (viewProjectionMatrix c) (uniformBuffer c) (time c).

Definition set_target (c : t) (v : vec3) : t :=
  Build (canvas_width c) (canvas_height c) (position c) v (up c) (fov c) (aspect c)
        (near c) (far c) (viewMatrix c) (projectionMatrix c)
        (viewProjectionMatrix c) (uniformBuffer c) (time c).

Definition set_aspect (c : t) (a : num) : t :=
  Build (canvas_width c) (canvas_height c) (position c) (target c) (up c) (fov c) a
        (near c) (far c) (viewMatrix c) (projectionMatrix c)
        (viewProjectionMatrix c) (uniformBuffer c) (time c).

Definition set_viewMatrix (c : t) (m : list num) : t :=
  Build (canvas_width c) (canvas_height c) (position c) (target c) (up c) (fov c)
        (aspect c) (near c) (far c) m (projectionMatrix c)
        (viewProjectionMatrix c) (uniformBuffer c) (time c).

Definition set_projectionMatrix (c : t) (m : list num) : t :=
  Build (canvas_width c) (canvas_height c) (position c) (target c) (up c) (fov c)
        (aspect c) (near c) (far c) (viewMatrix c) m
        (viewProjectionMatrix c) (uniformBuffer c) (time c).

Definition set_viewProjectionMatrix (c : t) (m : list num) : t :=
  Build (canvas_width c) (canvas_height c) (position c) (target c) (up c) (fov c)
        (aspect c) (near c) (far c) (viewMatrix c) (projectionMatrix c)
        m (uniformBuffer c) (time c).

Definition set_uniform (c : t) (tm : num) (buf : list num) : t :=
  Build (canvas_width c) (canvas_height c) (position c) (target c) (up c) (fov c)
        (aspect c) (near c) (far c) (viewMatrix c) (projectionMatrix c)
        (viewProjectionMatrix c) buf tm.

(** Math helper functions *)

Definition normalize (v : vec3) : vec3 :=
  let length := Math.sqrt (c0 v * c0 v + c1 v * c1 v + c2 v * c2 v) in
  Vec3 (c0 v / length) (c1 v / length) (c2 v / length).

Definition subtractVectors (a b : vec3) : vec3 :=
  Vec3 (c0 a - c0 b) (c1 a - c1 b) (c2 a - c2 b).

Definition cross (a b : vec3) : vec3 :=
  Vec3 (c1 a * c2 b - c2 a * c1 b)
       (c2 a * c0 b - c0 a * c2 b)
       (c0 a * c1 b - c1 a * c0 b).

Definition dot (a b : vec3) : num :=
  c0 a * c0 b + c1 a * c1 b + c2 a * c2 b.

Definition multiplyMatrices (a b : list num) : list num :=
  let a00 := at_ a 0 in let a01 := at_ a 1 in let a02 := at_ a 2 in let a03 := at_ a 3 in
  let a10 := at_ a 4 in let a11 := at_ a 5 in let a12 := at_ a 6 in let a13 := at_ a 7 in
  let a20 := at_ a 8 in let a21 := at_ a 9 in let a22 := at_ a 10 in let a23 := at_ a 11 in
  let a30 := at_ a 12 in let a31 := at_ a 13 in let a32 := at_ a 14 in let a33 := at_ a 15 in
  let b00 := at_ b 0 in let b01 := at_ b 1 in let b02 := at_ b 2 in let b03 := at_ b 3 in
  let b10 := at_ b 4 in let b11 := at_ b 5 in let b12 := at_ b 6 in let b13 := at_ b 7 in
  let b20 := at_ b 8 in let b21 := at_ b 9 in let b22 := at_ b 10 in let b23 := at_ b 11 in
  let b30 := at_ b 12 in let b31 := at_ b 13 in let b32 := at_ b 14 in let b33 := at_ b 15 in
  [ b00 * a00 + b01 * a10 + b02 * a20 + b03 * a30;
    b00 * a01 + b01 * a11 + b02 * a21 + b03 * a31;
    b00 * a02 + b01 * a12 + b02 * a22 + b03 * a32;
    b00 * a03 + b01 * a13 + b02 * a23 + b03 * a33;
    b10 * a00 + b11 * a10 + b12 * a20 + b13 * a30;
    b10 * a01 + b11 * a11 + b12 * a21 + b13 * a31;
    b10 * a02 + b11 * a12 + b12 * a22 + b13 * a32;
    b10 * a03 + b11 * a13 + b12 * a23 + b13 * a33;
    b20 * a00 + b21 * a10 + b22 * a20 + b23 * a30;
    b20 * a01 + b21 * a11 + b22 * a21 + b23 * a31;
    b20 * a02 + b21 * a12 + b22 * a22 + b23 * a32;
    b20 * a03 + b21 * a13 + b22 * a23 + b23 * a33;
    b30 * a00 + b31 * a10 + b32 * a20 + b33 * a30;
    b30 * a01 + b31 * a11 + b32 * a21 + b33 * a31;
    b30 * a02 + b31 * a12 + b32 * a22 + b33 * a32;
    b30 * a03 + b31 * a13 + b32 * a23 + b33 * a33 ].

Definition updateProjectionMatrix (c : t) : t :=
  let f := Fin 1 / Math.tan (fov c / Fin 2) in
  let rangeInv := Fin 1 / (near c - far c) in
  set_projectionMatrix c
    [ f / aspect c; Fin 0; Fin 0; Fin 0;
      Fin 0; f; Fin 0; Fin 0;
      Fin 0; Fin 0; (near c + far c) * rangeInv; Fin (-1);
      Fin 0; Fin 0; near c * far c * rangeInv * Fin 2; Fin 0 ].

(** The basis the view matrix is built from: [z], [x] and [y] of
    [updateViewMatrix]. *)
Definition viewBasis (c : t) : vec3 * vec3 * vec3 :=
  let z := normalize (subtractVectors (target c) (position c)) in
  let x := normalize (cross (up c) z) in
  let y := cross z x in
  (x, y, z).

Definition updateViewMatrix (c : t) : t :=
  let z := normalize (subtractVectors (target c) (position c)) in
  let x := normalize (cross (up c) z) in
  let y := cross z x in
  set_viewMatrix c
    [ c0 x; c0 y; c0 z; Fin 0;
      c1 x; c1 y; c1 z; Fin 0;
      c2 x; c2 y; c2 z; Fin 0;
      - dot x (position c); - dot y (position c); - dot z (position c); Fin 1 ].

Definition updateUniformBuffer (c : t) : t :=
  let time' := time c + Fin (1 / 100) in
  let uniformData :=
    firstn 16 (viewProjectionMatrix c)
    ++ [ c0 (position c); c1 (position c); c2 (position c) ]
    ++ [ time' ] in
  set_uniform c time' uniformData.

Definition updateMatrices (c : t) : t :=
  let c := set_aspect c (canvas_width c / canvas_height c) in
  let c := updateProjectionMatrix c in
  let c := updateViewMatrix c in
  let c := set_viewProjectionMatrix c
             (multiplyMatrices (projectionMatrix c) (viewMatrix c)) in
  updateUniformBuffer c.

Definition zeros16 : list num := repeat (Fin 0) 16.

(** [new CameraSystem(renderer)]: the constructor and [init]. *)
Definition create (width height : num) : t :=
  updateMatrices
    (Build width height
           (Vec3 (Fin 0) (Fin (8 / 5)) (Fin 5))
           (Vec3 (Fin 0) (Fin 0) (Fin 0))
           (Vec3 (Fin 0) (Fin 1) (Fin 0))
           (Fin 75 * Math.PI / Fin 180) (Fin 1) (Fin (1 / 10)) (Fin 1000)
           zeros16 zeros16 zeros16 [] (Fin 0)).

(** Camera movement methods *)

Definition moveForward (c : t) (distance : num) : t :=
  let direction := normalize (subtractVectors (target c) (position c)) in
  let c := set_position c
             (Vec3 (c0 (position c) + c0 direction * distance)
                   (c1 (position c) + c1 direction * distance)
                   (c2 (position c) + c2 direction * distance)) in
  let c := set_target c
             (Vec3 (c0 (target c) + c0 direction * distance)
                   (c1 (target c) + c1 direction * distance)
                   (c2 (target c) + c2 direction * distance)) in
  updateMatrices c.

Definition moveRight (c : t) (distance : num) : t :=
  let direction := normalize (subtractVectors (target c) (position c)) in
  let right := cross direction (up c) in
  let c := set_position c
             (Vec3 (c0 (position c) + c0 right * distance)
                   (c1 (position c) + c1 right * distance)
                   (c2 (position c) + c2 right * distance)) in
  let c := set_target c
             (Vec3 (c0 (target c) + c0 right * distance)
                   (c1 (target c) + c1 right * distance)
                   (c2 (target c) + c2 right * distance)) in
  updateMatrices c.

(** The body of [rotate] is the comment "Implement camera rotation if
    needed": it only refreshes the matrices. *)
Definition rotate (c : t) (yaw pitch : num) : t :=
  updateMatrices c.

End CameraSystem.

(** ** webgpu/ui/controls.js: the camera part of [Controls] *)

Module Controls.

Definition cross := CameraSystem.cross.

(** [Controls.prototype.normalize], which replaces the method of the
    class body. *)
Definition normalize (v : vec3) : vec3 :=
  let length := Math.sqrt (c0 v * c0 v + c1 v * c1 v + c2 v * c2 v) in
  if length >? Fin 0
  then Vec3 (c0 v / length) (c1 v / length) (c2 v / length)
  else Vec3 (Fin 0) (Fin 0) (Fin 0).

Definition getCameraDirection (cam : CameraSystem.t) : vec3 :=
  Vec3 (c0 (CameraSystem.target cam) - c0 (CameraSystem.position cam))
       (c1 (CameraSystem.target cam) - c1 (CameraSystem.position cam))
       (c2 (CameraSystem.target cam) - c2 (CameraSystem.position cam)).

Definition maxPitch : num := Fin 85 * Math.PI / Fin 180.

(** The steps of [rotateCamera].  Its two in-line normalizations divide
    the vector by its length, as [CameraSystem.normalize] does. *)

(** Apply yaw (horizontal rotation). *)
Definition applyYaw (direction right : vec3) (yaw : num) : vec3 :=
  let yawCos := Math.cos yaw in
  let yawSin := Math.sin yaw in
  Vec3 (c0 direction * yawCos + c0 right * yawSin)
       (c1 direction * yawCos + c1 right * yawSin)
       (c2 direction * yawCos + c2 right * yawSin).

(** Apply pitch (vertical rotation), limited to avoid flipping. *)
Definition applyPitch (right newDirYaw : vec3) (pitch : num) : vec3 :=
  let currentPitch := Math.asin (c1 newDirYaw) in
  let newPitch := currentPitch + pitch in
  if Math.abs newPitch <? maxPitch then
    let pitchCos := Math.cos pitch in
    let pitchSin := Math.sin pitch in
    let pitchUp := cross right newDirYaw in
    Vec3 (c0 newDirYaw * pitchCos + c0 pitchUp * pitchSin)
         (c1 newDirYaw * pitchCos + c1 pitchUp * pitchSin)
         (c2 newDirYaw * pitchCos + c2 pitchUp * pitchSin)
  else newDirYaw.

(** The direction [rotateCamera] reaches before it updates the target. *)
Definition rotatedDirection (cam : CameraSystem.t) (yaw pitch : num) : vec3 :=
  let direction := CameraSystem.normalize (getCameraDirection cam) in
  let right := cross direction (CameraSystem.up cam) in
  let newDirYaw := applyYaw direction right yaw in
  let direction := applyPitch right newDirYaw pitch in
  CameraSystem.normalize direction.

Definition rotateCamera (cam : CameraSystem.t) (yaw pitch : num) : CameraSystem.t :=
  let direction := rotatedDirection cam yaw pitch in
  let p := CameraSystem.position cam in
  let cam := CameraSystem.set_target cam
               (Vec3 (c0 p + c0 direction * Fin 5)
                     (c1 p + c1 direction * Fin 5)
                     (c2 p + c2 direction * Fin 5)) in
  CameraSystem.updateMatrices cam.

End Controls.


Close Scope js_scope.
Open Scope Z_scope.

(** ** Strings, [parseInt] and the array helpers of the language *)

(** The ASCII white space [parseInt] skips: TAB, LF, VT, FF, CR and SP.  The
    language also skips the white space beyond ASCII, which no character
    of the embedding stands for. *)
Definition is_white (c : ascii) : bool :=
  let n := Z.of_nat (nat_of_ascii c) in
  (n =? 32) || ((9 <=? n) && (n <=? 13)).

Fixpoint trimStart (s : string) : string :=
  match s with
  | String c s' => if is_white c then trimStart s' else s
  | EmptyString => s
  end.

(** The value of a character as a digit, for a radix up to 16. *)
Definition digit_value (c : ascii) : option Z :=
  let n := Z.of_nat (nat_of_ascii c) in
  if (48 <=? n) && (n <=? 57) then Some (n - 48)
  else if (97 <=? n) && (n <=? 102) then Some (n - 87)
  else if (65 <=? n) && (n <=? 70) then Some (n - 55)
  else None.

(** The longest prefix of digits of the radix, as an integer; [acc] is the
    value read so far, [None] before the first digit. *)
Fixpoint read_digits (radix : Z) (s : string) (acc : option Z) : option Z :=
  match s with
  | String c s' =>
      match digit_value c with
      | Some d =>
          if d <? radix
          then read_digits radix s' (Some (radix * match acc with Some a => a | None => 0 end + d))
          else acc
      | None => acc
      end
  | EmptyString => acc
  end.

(** The integer [parseInt(s)] reads when it is given no radix: white space,
    a sign, a [0x] prefix, then the digits; [None] when there is no digit. *)
Definition parseIntZ (s : string) : option Z :=
  let s := trimStart s in
  let '(sign, s) :=
    match s with
    | String "-"%char s' => (-1, s')
    | String "+"%char s' => (1, s')
    | _ => (1, s)
    end in
  let '(radix, s) :=
    match s with
    | String "0"%char (String "x"%char s') => (16, s')
    | String "0"%char (String "X"%char s') => (16, s')
    | _ => (10, s)
    end in
  match read_digits radix s None with
  | Some z => Some (sign * z)
  | None => None
  end.

(** [parseInt(s)]: the integer as a number, [NaN] when there is none.  The
    number is the integer itself, also beyond the integers a double
    holds exactly. *)
Definition parseInt (s : string) : num :=
  match parseIntZ s with
  | Some z => of_Z z
  | None => NaN
  end.

(** The year [parseInt(PubYear) || 2000] of a record, as an integer: a
    year that does not parse, and the year zero, give 2000. *)
Definition yearOf (pubYear : string) : Z :=
  match parseIntZ pubYear with
  | Some z => if z =? 0 then 2000 else z
  | None => 2000
  end.

(** [a.findIndex(p)] and [a.indexOf(x)]: the first index, or [-1]. *)
Fixpoint findIndex_from {A : Type} (p : A -> bool) (l : list A) (i : Z) : Z :=
  match l with
  | [] => -1
  | a :: l' => if p a then i else findIndex_from p l' (i + 1)
  end.

Definition findIndex {A : Type} (p : A -> bool) (l : list A) : Z :=
  findIndex_from p l 0.

Definition includes (l : list string) (s : string) : bool :=
  existsb (String.eqb s) l.

(** [[...new Set(l)]]: the distinct elements in the order they first occur. *)
Fixpoint distinct_from (seen l : list string) : list string :=
  match l with
  | [] => []
  | s :: l' =>
      if includes seen s then distinct_from seen l'
      else s :: distinct_from (seen ++ [s]) l'
  end.

Definition distinct (l : list string) : list string := distinct_from [] l.

(** [a[i] = v] on a typed array: a store outside the array is ignored. *)
Fixpoint store (a : list num) (i : nat) (v : num) : list num :=
  match a, i with
  | [], _ => []
  | _ :: a', O => v :: a'
  | x :: a', S i' => x :: store a' i' v
  end.

(** [a[i] = v] on a [Float32Array]. *)
Definition storeFloat32 (a : list num) (i : nat) (v : num) : list num :=
  store a i (toFloat32 v).

(** [queue.writeBuffer(buffer, 0, data)]: the data replace the start of the
    buffer; a write larger than the buffer is refused. *)
Definition writeBuffer (buffer data : list num) : list num :=
  if (List.length data <=? List.length buffer)%nat
  then data ++ skipn (List.length data) buffer
  else buffer.

(** ** [Math.random]: a state monad over the number of draws so far *)

Definition Rand (A : Type) : Type := nat -> A * nat.

Definition ret {A : Type} (a : A) : Rand A := fun k => (a, k).

Definition bind {A B : Type} (m : Rand A) (f : A -> Rand B) : Rand B :=
  fun k => let (a, k') := m k in f a k'.

Notation "x <- m ;; f" := (bind m (fun x => f))
  (at level 61, m at next level, right associativity).

(** ** webgpu/core/processor.js: [DataProcessor] *)

Record Article : Type := mkArticle {
  PMID : string;
  PubYear : string;
  Source : string
}.

Close Scope Z_scope.
Open Scope js_scope.

Module DataProcessor.

Record t : Type := Build {
  data : list Article;
  cubeData : option (list num);   (* the GPU buffer of cube instances, 8 floats each *)
  instanceCount : nat;
  layoutMode : string
}.

(** [new DataProcessor(renderer)] *)
Definition create : t := Build [] None 0 "grid".

Definition set_cubeData (dp : t) (b : option (list num)) : t :=
  Build (data dp) b (instanceCount dp) (layoutMode dp).

Section Environment.

(** The outcome of the [k]-th call of [Math.random()] and the year of
    [new Date().getFullYear()]. *)
Variable rand : nat -> num.
Variable fullYear : Z.

Definition random : Rand num := fun k => (rand k, S k).

Definition positionByGrid (dp : t) (article : Article) (index : nat) : vec3 :=
  let gridSize := Math.ceil (Math.sqrt (of_nat (instanceCount dp))) in
  let x := (of_nat index mod gridSize - gridSize / Fin 2) * Fin (5 / 2) in
  let z := (Math.floor (of_nat index / gridSize) - gridSize / Fin 2) * Fin (5 / 2) in
  Vec3 x (Fin 0) z.

Definition positionByYear (dp : t) (article : Article) (index : nat) : vec3 :=
  let year := js_or (parseInt (PubYear article)) (Fin 2000) in
  let yearOffset := (year - Fin 1990) * Fin 3 in
  let yearData := filter (fun a => String.eqb (PubYear a) (PubYear article)) (data dp) in
  let yearIndex := findIndex (fun a => String.eqb (PMID a) (PMID article)) yearData in
  Vec3 yearOffset (of_Z yearIndex * Fin (3 / 2)) (Fin 0).

Definition positionByJournal (dp : t) (article : Article) (index : nat) : Rand vec3 :=
  let journals := distinct (map Source (data dp)) in
  let journalIndex := findIndex (String.eqb (Source article)) journals in
  let angle := (of_Z journalIndex / of_nat (List.length journals)) * Math.PI * Fin 2 in
  let radius := Fin 15 in
  r <- random ;;
  ret (Vec3 (Math.cos angle * radius) (r * Fin 5) (Math.sin angle * radius)).

Definition positionByCluster (dp : t) (article : Article) (index : nat) : Rand vec3 :=
  let clusterSize := Math.ceil (Math.sqrt (of_nat (instanceCount dp) / Fin 4)) in
  let clusterX := Math.floor (of_nat index / clusterSize) in
  let clusterZ := of_nat index mod clusterSize in
  r1 <- random ;;
  r2 <- random ;;
  r3 <- random ;;
  ret (Vec3 (clusterX * Fin 6 + (r1 - Fin (1 / 2)) * Fin 2)
            ((r2 - Fin (1 / 2)) * Fin 3)
            (clusterZ * Fin 6 + (r3 - Fin (1 / 2)) * Fin 2)).

Definition calculatePosition (dp : t) (article : Article) (index : nat) : Rand vec3 :=
  if String.eqb (layoutMode dp) "year" then ret (positionByYear dp article index)
  else if String.eqb (layoutMode dp) "journal" then positionByJournal dp article index
  else if String.eqb (layoutMode dp) "cluster" then positionByCluster dp article index
  else ret (positionByGrid dp article index).

Definition calculateColor (article : Article) : vec3 :=
  let year := js_or (parseInt (PubYear article)) (Fin 2000) in
  let minYear := Fin 1950 in
  let maxYear := of_Z fullYear in
  let normalized :=
    Math.min (Fin 1) (Math.max (Fin 0) ((year - minYear) / (maxYear - minYear))) in
  let r := normalized in
  let g := Fin (1 / 5) in
  let b := Fin 1 - normalized in
  Vec3 r g b.

(** The body of the loop of [processData], for the article at index [i]. *)
Definition writeInstance (dp : t) (cubeInstances : list num) (article : Article) (i : nat)
  : Rand (list num) :=
  let baseIdx := (i * 8)%nat in
  position <- calculatePosition dp article i ;;
  let color := calculateColor article in
  let size := Fin (4 / 5) in
  let selected := Fin 0 in
  let a := storeFloat32 cubeInstances (baseIdx + 0) (c0 position) in
  let a := storeFloat32 a (baseIdx + 1) (c1 position) in
  let a := storeFloat32 a (baseIdx + 2) (c2 position) in
  let a := storeFloat32 a (baseIdx + 3) (c0 color) in
  let a := storeFloat32 a (baseIdx + 4) (c1 color) in
  let a := storeFloat32 a (baseIdx + 5) (c2 color) in
  let a := storeFloat32 a (baseIdx + 6) size in
  let a := storeFloat32 a (baseIdx + 7) selected in
  ret a.

(** [for (let i = 0; i < this.data.length; i++)], from index [i] on. *)
Fixpoint fillInstances (dp : t) (articles : list Article) (i : nat) (cubeInstances : list num)
  : Rand (list num) :=
  match articles with
  | [] => ret cubeInstances
  | article :: rest =>
      a <- writeInstance dp cubeInstances article i ;;
      fillInstances dp rest (S i) a
  end.

(** The [Float32Array] that [processData] uploads. *)
Definition cubeInstances (dp : t) : Rand (list num) :=
  fillInstances dp (data dp) 0 (repeat (Fin 0) (instanceCount dp * 8)).

(** [processData]: [None] when [cubeData] is still [null] and [writeBuffer]
    throws. *)
Definition processData (dp : t) : Rand (option t) :=
  instances <- cubeInstances dp ;;
  match cubeData dp with
  | Some buffer => ret (Some (set_cubeData dp (Some (writeBuffer buffer instances))))
  | None => ret None
  end.

(** [uploadData]; [createRenderBindGroup] holds no state of the model. *)
Definition uploadData (dp : t) (d : list Article) : Rand (option t) :=
  let n := List.length d in
  let cubeDataSize := (n * 32)%nat in
  processData (Build d (Some (repeat (Fin 0) (cubeDataSize / 4))) n (layoutMode dp)).

Definition setLayoutMode (dp : t) (mode : string) : t :=
  Build (data dp) (cubeData dp) (instanceCount dp) mode.

Definition recomputeLayout (dp : t) : Rand (option t) := processData dp.

Definition deleteArticles (dp : t) (pmids : list string) : Rand (option t) :=
  let d := filter (fun article => negb (includes pmids (PMID article))) (data dp) in
  processData (Build d (cubeData dp) (List.length d) (layoutMode dp)).

(** The instance at index [i] of a buffer of instances. *)
Definition instance_position (b : list num) (i : nat) : vec3 :=
  Vec3 (at_ b (i * 8)) (at_ b (i * 8 + 1)) (at_ b (i * 8 + 2)).

Definition instance_color (b : list num) (i : nat) : vec3 :=
  Vec3 (at_ b (i * 8 + 3)) (at_ b (i * 8 + 4)) (at_ b (i * 8 + 5)).

Definition instance_size (b : list num) (i : nat) : num := at_ b (i * 8 + 6).

Definition instance_selected (b : list num) (i : nat) : num := at_ b (i * 8 + 7).

(** The eight floats [processData] stores for one article. *)
Definition instanceFloats (position : vec3) (article : Article) : list num :=
  let color := calculateColor article in
  [ toFloat32 (c0 position); toFloat32 (c1 position); toFloat32 (c2 position);
    toFloat32 (c0 color); toFloat32 (c1 color); toFloat32 (c2 color);
    toFloat32 (Fin (4 / 5)); toFloat32 (Fin 0) ].

(** The positions the loop of [processData] (and of [rayCast]) computes for
    the articles, the first of them at index [i]. *)
Fixpoint positionsFrom (dp : t) (articles : list Article) (i : nat) : Rand (list vec3) :=
  match articles with
  | [] => ret []
  | article :: rest =>
      p <- calculatePosition dp article i ;;
      ps <- positionsFrom dp rest (S i) ;;
      ret (p :: ps)
  end.

(** The floats of the instances, row after row, for the positions and the
    articles. *)
Definition rows (ps : list vec3) (articles : list Article) : list num :=
  List.concat (map (fun pa => instanceFloats (fst pa) (snd pa)) (combine ps articles)).

(** The state is consistent when [instanceCount] is the number of records,
    as [uploadData] and [deleteArticles] leave it. *)
Definition consistent (dp : t) : Prop := instanceCount dp = List.length (data dp).

(** It is ready when moreover the GPU buffer exists and has room for eight
    floats per record, as [uploadData] creates it. *)
Definition ready (dp : t) : Prop :=
  consistent dp /\
  exists buffer, cubeData dp = Some buffer /\
                 (List.length (data dp) * 8 <= List.length buffer)%nat.

End Environment.

End DataProcessor.


(** ** A JavaScript [Set] of strings, in insertion order *)

Definition set_add (s : list string) (x : string) : list string :=
  if includes s x then s else (s ++ [x])%list.

Definition set_delete (s : list string) (x : string) : list string :=
  filter (fun y => negb (String.eqb y x)) s.

(** [a[i] = v] on a typed array of integers, and a write of [data] at
    [offset] into a GPU buffer of integers: outside the array it is dropped. *)
Fixpoint storeZ (a : list Z) (i : nat) (v : Z) : list Z :=
  match a, i with
  | [], _ => []
  | _ :: a', O => v :: a'
  | x :: a', S i' => x :: storeZ a' i' v
  end.

(** ** Promises

    An [async] method returns a promise, which is fulfilled with the value
    the body returns or rejected when the body throws or awaits a rejected
    promise.  The state the body has reached by then stays. *)

Inductive Settled (A : Type) : Type :=
| Fulfilled (value : A)
| Rejected.

Arguments Fulfilled {A} value.
Arguments Rejected {A}.

(** ** The buffer operations of the WebGPU API

    A buffer is the array of its bytes.  The API checks the sizes and the
    offsets of every operation: the size of a copy, of a mapped range and
    of the data of a write has to be a multiple of 4, the offsets of a
    copy and of a write multiples of 4, the offset of a mapped range a
    multiple of 8, and the range has to lie inside the buffer.  A copy or
    a write that fails the check on the device is not carried out and
    raises no exception; [mapAsync] rejects its promise; [getMappedRange]
    and a [writeBuffer] whose data have a wrong size throw. *)

Module GPU.

Definition multiple (k n : nat) : bool := (n mod k =? 0)%nat.

(** [encoder.copyBufferToBuffer(source, sourceOffset, destination,
    destinationOffset, size)], submitted: the destination afterwards. *)
Definition copyBufferToBuffer (source : list Z) (sourceOffset : nat)
  (destination : list Z) (destinationOffset size : nat) : list Z :=
  if multiple 4 size && multiple 4 sourceOffset && multiple 4 destinationOffset
     && (sourceOffset + size <=? List.length source)%nat
     && (destinationOffset + size <=? List.length destination)%nat
  then (firstn destinationOffset destination
        ++ firstn size (skipn sourceOffset source)
        ++ skipn (destinationOffset + size) destination)%list
  else destination.

(** [buffer.mapAsync(GPUMapMode.READ, offset, size)]: whether the promise is
    fulfilled. *)
Definition mapAsync (buffer : list Z) (offset size : nat) : bool :=
  multiple 8 offset && multiple 4 size && (offset + size <=? List.length buffer)%nat.

(** [buffer.getMappedRange(offset, size)]: the bytes of the range, [None]
    when it throws. *)
Definition getMappedRange (buffer : list Z) (offset size : nat) : option (list Z) :=
  if multiple 8 offset && multiple 4 size && (offset + size <=? List.length buffer)%nat
  then Some (firstn size (skipn offset buffer))
  else None.

(** [queue.writeBuffer(buffer, bufferOffset, data)]: the buffer afterwards,
    [None] when it throws. *)
Definition writeBuffer (buffer : list Z) (bufferOffset : nat) (data : list Z)
  : option (list Z) :=
  if multiple 4 (List.length data) then
    Some (if multiple 4 bufferOffset
             && (bufferOffset + List.length data <=? List.length buffer)%nat
          then (firstn bufferOffset buffer ++ data
                ++ skipn (bufferOffset + List.length data) buffer)%list
          else buffer)
  else None.

End GPU.

(** ** webgpu/ui/selection.js, the version with ray casting: one bit per cube *)

Module SelectionSystem.

Record Hit : Type := mkHit {
  hit_index : nat;
  hit_pmid : string;
  hit_article : Article;
  hit_distance : num
}.

Record t : Type := Build {
  selectedPMIDs : list string;
  highlightedPMID : option string;
  selectionBuffer : list Z;          (* bytes of the GPU selection buffer *)
  selectionStagingBuffer : list Z    (* bytes of the staging buffer *)
}.

(** [createSelectionBuffers()]: two new buffers of
    [Math.ceil(instanceCount / 8)] bytes, which the device creates filled
    with zeros; the write of zero bytes that follows changes nothing,
    also when it throws. *)
Definition createSelectionBuffers (s : t) (dp : DataProcessor.t) : t :=
  let bufferSize := ((DataProcessor.instanceCount dp + 7) / 8)%nat in
  Build (selectedPMIDs s) (highlightedPMID s) (repeat 0%Z bufferSize) (repeat 0%Z bufferSize).

(** The constructor and the part of [init] that holds state. *)
Definition create (dp : DataProcessor.t) : t :=
  createSelectionBuffers (Build [] None [] []) dp.

(** [readSelectionByte(byteIndex)]: one byte is copied from the selection
    buffer to the start of the staging buffer, which is then mapped and
    read.  The promise is rejected when [mapAsync] is, or when
    [getMappedRange] throws. *)
Definition readSelectionByte (s : t) (byteIndex : nat) : Settled Z * t :=
  let staging :=
    GPU.copyBufferToBuffer (selectionBuffer s) byteIndex (selectionStagingBuffer s) 0 1 in
  let s := Build (selectedPMIDs s) (highlightedPMID s) (selectionBuffer s) staging in
  if GPU.mapAsync (selectionStagingBuffer s) 0 1 then
    match GPU.getMappedRange (selectionStagingBuffer s) 0 1 with
    | Some arrayBuffer => (Fulfilled (nth 0 arrayBuffer 0%Z), s)
    | None => (Rejected, s)
    end
  else (Rejected, s).

(** [updateGPUSelection(cubeIndex, selected)]: the byte of the cube is read,
    its bit is set or cleared, and the byte is written back.  The promise
    is rejected when the read is, or when [writeBuffer] throws. *)
Definition updateGPUSelection (s : t) (cubeIndex : nat) (selected : bool)
  : Settled unit * t :=
  let byteIndex := (cubeIndex / 8)%nat in
  let bitIndex := (cubeIndex mod 8)%nat in
  let '(read, s) := readSelectionByte s byteIndex in
  match read with
  | Fulfilled currentByte =>
      let updatedByte :=
        if selected
        then Z.lor currentByte (Z.shiftl 1 (Z.of_nat bitIndex))
        else Z.land currentByte (Z.lnot (Z.shiftl 1 (Z.of_nat bitIndex))) in
      let byteArray := [(updatedByte mod 256)%Z] in
      match GPU.writeBuffer (selectionBuffer s) byteIndex byteArray with
      | Some buffer =>
          (Fulfilled tt,
           Build (selectedPMIDs s) (highlightedPMID s) buffer (selectionStagingBuffer s))
      | None => (Rejected, s)
      end
  | Rejected => (Rejected, s)
  end.

(** [selectByPMID(pmid, selected)]: the promise is fulfilled with [false]
    for an identifier that no record has; otherwise the set and the
    highlighted identifier are updated first, and the promise is
    fulfilled with [true] when [updateGPUSelection] is fulfilled and
    rejected when it is rejected.  [updateCubeHighlighting] only logs. *)
Definition selectByPMID (s : t) (dp : DataProcessor.t) (pmid : string) (selected : bool)
  : Settled bool * t :=
  let cubeIndex :=
    findIndex (fun article => String.eqb (PMID article) pmid) (DataProcessor.data dp) in
  if (cubeIndex =? -1)%Z then (Fulfilled false, s)
  else
    let s :=
      if selected
      then Build (set_add (selectedPMIDs s) pmid) (Some pmid)
                 (selectionBuffer s) (selectionStagingBuffer s)
      else Build (set_delete (selectedPMIDs s) pmid)
                 (match highlightedPMID s with
                  | Some h => if String.eqb h pmid then None else Some h
                  | None => None
                  end)
                 (selectionBuffer s) (selectionStagingBuffer s) in
    let '(updated, s) := updateGPUSelection s (Z.to_nat cubeIndex) selected in
    match updated with
    | Fulfilled _ => (Fulfilled true, s)
    | Rejected => (Rejected, s)
    end.

Definition getSelected (s : t) : list string := selectedPMIDs s.

(** [clearSelection()]: the set and the highlighted identifier are cleared
    first; the buffer is then overwritten with zero bytes, unless
    [writeBuffer] throws, which leaves it as it was. *)
Definition clearSelection (s : t) : t :=
  let bufferSize := List.length (selectionBuffer s) in
  let zeroData := repeat 0%Z bufferSize in
  Build [] None
        (match GPU.writeBuffer (selectionBuffer s) 0 zeroData with
         | Some buffer => buffer
         | None => selectionBuffer s
         end)
        (selectionStagingBuffer s).

(** [pmids.forEach(pmid => this.selectedPMIDs.delete(pmid))], then the
    buffers are created again for the current instance count. *)
Definition deleteArticles (s : t) (dp : DataProcessor.t) (pmids : list string) : t :=
  let s := Build (fold_left set_delete pmids (selectedPMIDs s)) (highlightedPMID s)
                 (selectionBuffer s) (selectionStagingBuffer s) in
  createSelectionBuffers s dp.

Section RayCast.

Variable rand : nat -> num.

(** The state of the loop of [rayCast]: [closestHit] and [closestDistance]. *)
Definition Closest : Type := (option Hit * num)%type.

(** The quadratic of the sphere test for a cube at [position]. *)
Definition sphereRadius : num := Fin (4 / 5) * Fin (3 / 2).

Definition quad_a (direction : vec3) : num :=
  c0 direction * c0 direction + c1 direction * c1 direction + c2 direction * c2 direction.

Definition quad_b (origin direction position : vec3) : num :=
  let oc := Vec3 (c0 origin - c0 position) (c1 origin - c1 position)
                 (c2 origin - c2 position) in
  Fin 2 * (c0 oc * c0 direction + c1 oc * c1 direction + c2 oc * c2 direction).

Definition quad_c (origin position : vec3) : num :=
  let oc := Vec3 (c0 origin - c0 position) (c1 origin - c1 position)
                 (c2 origin - c2 position) in
  (c0 oc * c0 oc + c1 oc * c1 oc + c2 oc * c2 oc) - (sphereRadius * sphereRadius).

(** The body of the loop once the position of the cube is known. *)
Definition testSphere (origin direction : vec3) (closest : Closest)
  (cube : Article) (i : nat) (position : vec3) : Closest :=
  let a := quad_a direction in
  let b := quad_b origin direction position in
  let c := quad_c origin position in
  let discriminant := b * b - Fin 4 * a * c in
  if discriminant >=? Fin 0 then
    let distance := (- b - Math.sqrt discriminant) / (Fin 2 * a) in
    if (distance >? Fin 0) && (distance <? snd closest)
    then (Some (mkHit i (PMID cube) cube distance), distance)
    else closest
  else closest.

Fixpoint castFrom (dp : DataProcessor.t) (origin direction : vec3)
  (cubes : list Article) (i : nat) (closest : Closest) : Rand Closest :=
  match cubes with
  | [] => ret closest
  | cube :: rest =>
      position <- DataProcessor.calculatePosition rand dp cube i ;;
      castFrom dp origin direction rest (S i)
               (testSphere origin direction closest cube i position)
  end.

Definition rayCast (dp : DataProcessor.t) (origin direction : vec3) : Rand (option Hit) :=
  closest <- castFrom dp origin direction (DataProcessor.data dp) 0 (None, PInf) ;;
  ret (fst closest).

End RayCast.

End SelectionSystem.

(** ** webgpu/ui/selection.js, the simplified version: one word per cube *)

Module SelectionSystemSimplified.

Record t : Type := Build {
  selectedPMIDs : list string;
  highlightedPMID : option string;
  selectionBuffer : option (list Z);   (* words of the GPU buffer, [null] at first *)
  selectionData : option (list Z)      (* the CPU-side [Uint32Array] *)
}.

Definition create : t := Build [] None None None.

Definition initializeSelectionBuffer (s : t) (dp : DataProcessor.t) : t :=
  if (DataProcessor.instanceCount dp =? 0)%nat then s
  else Build (selectedPMIDs s) (highlightedPMID s)
             (Some (repeat 0%Z (DataProcessor.instanceCount dp)))
             (Some (repeat 0%Z (DataProcessor.instanceCount dp))).

Definition selectByPMID (s : t) (dp : DataProcessor.t) (pmid : string) (selected : bool)
  : bool * t :=
  match DataProcessor.cubeData dp with
  | None => (false, s)
  | Some _ =>
      let cubeIndex :=
        findIndex (fun article => String.eqb (PMID article) pmid) (DataProcessor.data dp) in
      if (cubeIndex =? -1)%Z then (false, s)
      else
        let sel := if selected then set_add (selectedPMIDs s) pmid
                   else set_delete (selectedPMIDs s) pmid in
        let hl := if selected then Some pmid
                  else match highlightedPMID s with
                       | Some h => if String.eqb h pmid then None else Some h
                       | None => None
                       end in
        let word := if selected then 1%Z else 0%Z in
        match selectionData s with
        | Some d =>
            (true, Build sel hl
                     (match selectionBuffer s with
                      | Some b => Some (storeZ b (Z.to_nat cubeIndex) word)
                      | None => None
                      end)
                     (Some (storeZ d (Z.to_nat cubeIndex) word)))
        | None => (true, Build sel hl (selectionBuffer s) None)
        end
  end.

Definition getSelected (s : t) : list string := selectedPMIDs s.

Definition clearSelection (s : t) : t :=
  match selectionBuffer s, selectionData s with
  | Some b, Some d =>
      let d := repeat 0%Z (List.length d) in
      Build [] None
            (Some (if (List.length d <=? List.length b)%nat
                   then (d ++ skipn (List.length d) b)%list else b))
            (Some d)
  | _, _ => Build [] None (selectionBuffer s) (selectionData s)
  end.

End SelectionSystemSimplified.

(** ** Vocabulary of ray casting *)

(** The discriminant of the quadratic of a cube at [position], the root
    [(-b - sqrt(discriminant)) / (2a)] that [rayCast] computes, and the test
    it makes before it compares the root with the closest one so far. *)
Definition discriminant (origin direction position : vec3) : num :=
  let a := SelectionSystem.quad_a direction in
  let b := SelectionSystem.quad_b origin direction position in
  let c := SelectionSystem.quad_c origin position in
  b * b - Fin 4 * a * c.

Definition entryDistance (origin direction position : vec3) : num :=
  (- SelectionSystem.quad_b origin direction position
   - Math.sqrt (discriminant origin direction position))
  / (Fin 2 * SelectionSystem.quad_a direction).

Definition accepted (origin direction position : vec3) : bool :=
  (discriminant origin direction position >=? Fin 0)
  && (entryDistance origin direction position >? Fin 0).

(** The loop of [rayCast] over positions that are already computed. *)
Fixpoint scan (origin direction : vec3) (cubes : list Article) (ps : list vec3) (i : nat)
  (closest : SelectionSystem.Closest) : SelectionSystem.Closest :=
  match cubes, ps with
  | cube :: rest, p :: ps' =>
      scan origin direction rest ps' (S i)
           (SelectionSystem.testSphere origin direction closest cube i p)
  | _, _ => closest
  end.

(** What the loop knows after the cubes [cubes] at the positions [ps]: no
    cube was accepted, or [closestHit] is the first of the accepted cubes
    with the least root. *)
Definition nearest_of (origin direction : vec3) (cubes : list Article) (ps : list vec3)
  (closest : SelectionSystem.Closest) : Prop :=
  match fst closest with
  | None =>
      snd closest = PInf /\
      forall j q, nth_error ps j = Some q -> accepted origin direction q = false
  | Some h =>
      snd closest = SelectionSystem.hit_distance h /\
      exists p cube,
        nth_error ps (SelectionSystem.hit_index h) = Some p /\
        nth_error cubes (SelectionSystem.hit_index h) = Some cube /\
        SelectionSystem.hit_article h = cube /\
        SelectionSystem.hit_pmid h = PMID cube /\
        accepted origin direction p = true /\
        SelectionSystem.hit_distance h = entryDistance origin direction p /\
        forall j q,
          nth_error ps j = Some q -> accepted origin direction q = true ->
          (entryDistance origin direction p <=? entryDistance origin direction q) = true /\
          ((j < SelectionSystem.hit_index h)%nat ->
           (entryDistance origin direction p <? entryDistance origin direction q) = true)
  end.

(** The roots of the accepted cubes are positive real numbers. *)
Definition roots_finite (origin direction : vec3) (ps : list vec3) : Prop :=
  forall q, In q ps -> accepted origin direction q = true ->
            exists t : R, entryDistance origin direction q = Fin t /\ (0 < t)%R.

(** ** Vocabulary of the camera pose *)

(** The view direction [target - position]. *)
Definition viewDirection (c : CameraSystem.t) : vec3 :=
  CameraSystem.subtractVectors (CameraSystem.target c) (CameraSystem.position c).

(** A pose of finite numbers whose target is not the position. *)
Definition pose_finite (c : CameraSystem.t) : Prop :=
  vec3_finite (CameraSystem.position c) /\
  vec3_finite (CameraSystem.target c) /\
  vec3_finite (CameraSystem.up c).

Definition looks_somewhere (c : CameraSystem.t) : Prop :=
  CameraSystem.target c <> CameraSystem.position c.

(** Three vectors of length one, each at a right angle to the others. *)
Definition orthonormal (x y z : vec3) : Prop :=
  CameraSystem.dot x x = Fin 1 /\ CameraSystem.dot y y = Fin 1 /\
  CameraSystem.dot z z = Fin 1 /\ CameraSystem.dot x y = Fin 0 /\
  CameraSystem.dot x z = Fin 0 /\ CameraSystem.dot y z = Fin 0.

(** [up] is parallel to the view direction when their cross product is the
    zero vector. *)
Definition up_parallel_to_view (c : CameraSystem.t) : Prop :=
  CameraSystem.cross (CameraSystem.up c) (viewDirection c) = Vec3 (Fin 0) (Fin 0) (Fin 0).

(** The pitch of a direction above the horizontal plane, as [rotateCamera]
    measures it: the arc sine of the vertical component of the unit
    vector. *)
Definition pitch (v : vec3) : num := Math.asin (c1 (CameraSystem.normalize v)).

(** A point moved along [dir] by [distance], as the camera moves do it. *)
Definition translate (v dir : vec3) (distance : num) : vec3 :=
  Vec3 (c0 v + c0 dir * distance) (c1 v + c1 dir * distance) (c2 v + c2 dir * distance).

(** The squared length of a vector of real numbers. *)
Definition norm2 (a b c : R) : R := (a * a + b * b + c * c)%R.

(** What [Math.random] promises of every draw: a number of [[0, 1)]. *)
Definition random_source (rand : nat -> num) : Prop :=
  forall k : nat, exists r : R, rand k = Fin r /\ (0 <= r < 1)%R.

(** ** Vocabulary of the years of the records *)

(** Text made of ASCII characters. *)
Definition ascii_text (s : string) : bool :=
  forallb (fun c => (nat_of_ascii c <? 128)%nat) (list_ascii_of_string s).

(** A year field of ASCII text, on which [parseInt] skips what the language
    skips, whose year [parseInt(PubYear) || 2000] is below [10^38] in
    magnitude: three times its distance to 1990 is in the range of a
    32-bit float, and the year is far from the end of the doubles. *)
Definition plain_year (pubYear : string) : Prop :=
  ascii_text pubYear = true /\ (Z.abs (yearOf pubYear) < 10 ^ 38)%Z.

Definition plain_years (records : list Article) : Prop :=
  forall a : Article, In a records -> plain_year (PubYear a).

(** A position whose components are in the range of a 32-bit float. *)
Definition fits32 (v : vec3) : Prop :=
  exists x y z : R,
    v = Vec3 (Fin x) (Fin y) (Fin z) /\
    (Rabs x < float32_overflow)%R /\ (Rabs y < float32_overflow)%R /\
    (Rabs z < float32_overflow)%R.

(** ** Vocabulary of the grid layout *)

(** The side of the grid for [n] records: the least integer whose square
    is at least [n]. *)
Definition gridSide (n : nat) : Z := Z.sqrt_up (Z.of_nat n).

(** The point of the cell [(column, row)] on a grid of side [side]. *)
Definition gridPoint (side column row : Z) : vec3 :=
  Vec3 (Fin ((IZR column - IZR side / 2) * (5 / 2)))
       (Fin 0)
       (Fin ((IZR row - IZR side / 2) * (5 / 2))).

(** ** Vocabulary of the colour of a record *)

Definition clamp01 (t : R) : R := Rmin 1 (Rmax 0 t).

(** The normalized key of a year: [(year - minYear) / (maxYear - minYear)]
    clamped to the unit interval, with [minYear = 1950]. *)
Definition colorKey (fullYear : Z) (pubYear : string) : R :=
  clamp01 ((IZR (yearOf pubYear) - 1950) / (IZR fullYear - 1950))%R.

Definition lerp (a b t : R) : R := (a + (b - a) * t)%R.

(** The two fixed colours, and the colour between them at [t]. *)
Definition blue : R * R * R := (0, 1 / 5, 1)%R.
Definition red : R * R * R := (1, 1 / 5, 0)%R.

Definition mix (c d : R * R * R) (t : R) : vec3 :=
  let '(c_r, c_g, c_b) := c in
  let '(d_r, d_g, d_b) := d in
  Vec3 (Fin (lerp c_r d_r t)) (Fin (lerp c_g d_g t)) (Fin (lerp c_b d_b t)).

(** A component of a colour: a finite number of the unit interval. *)
Definition unit_component (x : num) : Prop :=
  exists r : R, x = Fin r /\ (0 <= r <= 1)%R.

(** ** Sample records and states *)

Definition rand_half : nat -> num := fun _ => Fin (1 / 2).

(** Draws of [Math.random] that begin with 0 and go on with 0.9. *)
Definition rand_jitter : nat -> num :=
  fun k => match k with O => Fin 0 | S _ => Fin (9 / 10) end.

Definition article_a : Article := mkArticle "a" "1990" "Nature".

(** A record whose year is [10^39], loaded under the year layout. *)
Definition article_far : Article :=
  mkArticle "far" "1000000000000000000000000000000000000000" "Nature".

Definition article_b : Article := mkArticle "b" "2010" "Science".

(** The camera as the constructor leaves it, on a canvas of 800 by 600. *)
Definition initial_camera : CameraSystem.t := CameraSystem.create (Fin 800) (Fin 600).

(** The initial camera with its target moved straight above its position, so
    that the view direction is parallel to [up]. *)
Definition camera_looking_up : CameraSystem.t :=
  CameraSystem.set_target initial_camera (Vec3 (Fin 0) (Fin 6) (Fin 5)).

(** A camera at the origin that looks down at about 74 degrees. *)
Definition camera_looking_down : CameraSystem.t :=
  CameraSystem.set_target
    (CameraSystem.set_position initial_camera (Vec3 (Fin 0) (Fin 0) (Fin 0)))
    (Vec3 (Fin 0) (Fin (- (24 / 5))) (Fin (7 / 5))).

(** One record loaded under the grid layout, as [uploadData] leaves the
    processor before it fills the buffer. *)
Definition loaded_a : DataProcessor.t :=
  DataProcessor.Build [article_a] (Some (repeat (Fin 0) 8)) 1 "grid".

Definition loaded_far : DataProcessor.t :=
  DataProcessor.Build [article_far] (Some (repeat (Fin 0) 8)) 1 "year".

(** One record under the journal layout, before [processData] fills the
    buffer. *)
Definition loaded_ring : DataProcessor.t :=
  DataProcessor.Build [article_a] (Some (repeat (Fin 0) 8)) 1 "journal".

Definition loaded_ab : DataProcessor.t :=
  DataProcessor.Build [article_a; article_b] (Some (repeat (Fin 0) 16)) 2 "grid".

(** Four records with the years 1990, 1990, 2000 and 2010, loaded under the
    grid layout. *)
Definition four_records : list Article :=
  [ mkArticle "r1" "1990" "Nature"; mkArticle "r2" "1990" "Science";
    mkArticle "r3" "2000" "Nature"; mkArticle "r4" "2010" "JAMA" ].

Definition loaded_4 : DataProcessor.t :=
  DataProcessor.Build four_records (Some (repeat (Fin 0) 32)) 4 "grid".

(** The selection system after the record ["a"] was selected. *)
Definition selected_a : SelectionSystem.t :=
  snd (SelectionSystem.selectByPMID (SelectionSystem.create loaded_a) loaded_a "a" true).

Definition selected_ab : SelectionSystem.t :=
  snd (SelectionSystem.selectByPMID (SelectionSystem.create loaded_ab) loaded_ab "a" true).

(** * The rest of the code: input handling, the application and the shader *)

(** ** Helpers of the language used by the handlers *)

(** [s.toLowerCase()] on the ASCII letters. *)
Definition lower_ascii (c : ascii) : ascii :=
  let n := nat_of_ascii c in
  if ((65 <=? n) && (n <=? 90))%nat then ascii_of_nat (n + 32) else c.

Fixpoint toLowerCase (s : string) : string :=
  match s with
  | EmptyString => EmptyString
  | String c s' => String (lower_ascii c) (toLowerCase s')
  end.

(** [o[k] = v] on an object used as a map: an own key keeps its place, a new
    one is added last. *)
Fixpoint obj_set {A : Type} (o : list (string * A)) (k : string) (v : A)
  : list (string * A) :=
  match o with
  | [] => [(k, v)]
  | (k', v') :: o' =>
      if String.eqb k' k then (k', v) :: o' else (k', v') :: obj_set o' k v
  end.

(** [o[k]]: [None] is [undefined]. *)
Fixpoint obj_get {A : Type} (o : list (string * A)) (k : string) : option A :=
  match o with
  | [] => None
  | (k', v') :: o' => if String.eqb k' k then Some v' else obj_get o' k
  end.

(** [a.splice(i, 1)] and [a[i] = v] on an array. *)
Fixpoint splice1 {A : Type} (a : list A) (i : nat) : list A :=
  match a, i with
  | [], _ => []
  | _ :: a', O => a'
  | x :: a', S i' => x :: splice1 a' i'
  end.

Fixpoint assign {A : Type} (a : list A) (i : nat) (v : A) : list A :=
  match a, i with
  | [], _ => []
  | _ :: a', O => v :: a'
  | x :: a', S i' => x :: assign a' i' v
  end.

(** [s.split(c)] for a separator [c] of one character. *)
Fixpoint split (sep : ascii) (s : string) : list string :=
  match s with
  | EmptyString => [EmptyString]
  | String c s' =>
      if Ascii.eqb c sep then EmptyString :: split sep s'
      else match split sep s' with
           | first :: rest => String c first :: rest
           | [] => [String c EmptyString]
           end
  end.

(** [s.trim()], for the white space of ASCII: the other white space of
    Unicode is outside the model, as it is for [parseInt]. *)
Fixpoint trimEnd (s : string) : string :=
  match s with
  | EmptyString => EmptyString
  | String c s' =>
      match trimEnd s' with
      | EmptyString => if is_white c then EmptyString else String c EmptyString
      | t => String c t
      end
  end.

Definition trim (s : string) : string := trimEnd (trimStart s).

(** [l.join(c)] for a separator of one character. *)
Fixpoint join (sep : ascii) (l : list string) : string :=
  match l with
  | [] => EmptyString
  | [s] => s
  | s :: l' => s ++ String sep (join sep l')
  end.

(** Whether the character occurs in the string. *)
Fixpoint occurs (c : ascii) (s : string) : bool :=
  match s with
  | EmptyString => false
  | String c' s' => Ascii.eqb c' c || occurs c s'
  end.

Definition comma : ascii := ","%char.
Definition newline : ascii := "010"%char.

(** [Math.pow(x, 2)] and [Math.round(x)]. *)
Definition square (x : num) : num := x * x.

Definition round (x : num) : num := Math.floor (x + Fin (1 / 2)).

(** ** webgpu/ui/controls.js: the state of [Controls] and its handlers *)

Module ControlsState.

Record Mouse : Type := mkMouse {
  x : num;
  y : num;
  prevX : num;
  prevY : num;
  deltaX : num;
  deltaY : num;
  isDragging : bool;
  sensitivity : num
}.

Record Projectile : Type := mkProjectile {
  position : vec3;
  velocity : vec3;
  lifetime : num;
  active : bool
}.

(** The detail of a ['projectile-fired'] event. *)
Record Fired : Type := mkFired {
  origin : vec3;
  direction : vec3
}.

(** The bounding rectangle of an element of the page. *)
Record Rect : Type := mkRect {
  left : num;
  right : num;
  top : num;
  bottom : num
}.

(** The camera is the object the application shares with [Controls]; the
    canvas is the canvas of the renderer, whose size the camera holds. *)
Record t : Type := Build {
  camera : CameraSystem.t;
  mouse : Mouse;
  keys : list string;                 (* a Set *)
  keyState : list (string * bool);
  movementSpeed : num;
  rotationSpeed : num;
  altitudeSpeed : num;
  isPointerLocked : bool;
  isEnabled : bool;
  projectiles : list Projectile;
  projectileSpeed : num;
  maxProjectiles : nat;
  touchStartDistance : num;           (* [undefined] before the first pinch *)
  isPinching : bool;
  dispatched : list Fired             (* the events dispatched so far *)
}.

Definition set_camera (c : t) (cam : CameraSystem.t) : t :=
  Build cam (mouse c) (keys c) (keyState c) (movementSpeed c) (rotationSpeed c)
        (altitudeSpeed c) (isPointerLocked c) (isEnabled c) (projectiles c)
        (projectileSpeed c) (maxProjectiles c) (touchStartDistance c) (isPinching c)
        (dispatched c).

Definition set_mouse (c : t) (m : Mouse) : t :=
  Build (camera c) m (keys c) (keyState c) (movementSpeed c) (rotationSpeed c)
        (altitudeSpeed c) (isPointerLocked c) (isEnabled c) (projectiles c)
        (projectileSpeed c) (maxProjectiles c) (touchStartDistance c) (isPinching c)
        (dispatched c).

Definition set_keys (c : t) (ks : list string) (st : list (string * bool)) : t :=
  Build (camera c) (mouse c) ks st (movementSpeed c) (rotationSpeed c)
        (altitudeSpeed c) (isPointerLocked c) (isEnabled c) (projectiles c)
        (projectileSpeed c) (maxProjectiles c) (touchStartDistance c) (isPinching c)
        (dispatched c).

Definition set_isPointerLocked (c : t) (b : bool) : t :=
  Build (camera c) (mouse c) (keys c) (keyState c) (movementSpeed c) (rotationSpeed c)
        (altitudeSpeed c) b (isEnabled c) (projectiles c)
        (projectileSpeed c) (maxProjectiles c) (touchStartDistance c) (isPinching c)
        (dispatched c).

Definition set_isEnabled (c : t) (b : bool) : t :=
  Build (camera c) (mouse c) (keys c) (keyState c) (movementSpeed c) (rotationSpeed c)
        (altitudeSpeed c) (isPointerLocked c) b (projectiles c)
        (projectileSpeed c) (maxProjectiles c) (touchStartDistance c) (isPinching c)
        (dispatched c).

Definition set_projectiles (c : t) (ps : list Projectile) : t :=
  Build (camera c) (mouse c) (keys c) (keyState c) (movementSpeed c) (rotationSpeed c)
        (altitudeSpeed c) (isPointerLocked c) (isEnabled c) ps
        (projectileSpeed c) (maxProjectiles c) (touchStartDistance c) (isPinching c)
        (dispatched c).

Definition set_pinch (c : t) (distance : num) (pinching : bool) : t :=
  Build (camera c) (mouse c) (keys c) (keyState c) (movementSpeed c) (rotationSpeed c)
        (altitudeSpeed c) (isPointerLocked c) (isEnabled c) (projectiles c)
        (projectileSpeed c) (maxProjectiles c) distance pinching
        (dispatched c).

Definition dispatchEvent (c : t) (e : Fired) : t :=
  Build (camera c) (mouse c) (keys c) (keyState c) (movementSpeed c) (rotationSpeed c)
        (altitudeSpeed c) (isPointerLocked c) (isEnabled c) (projectiles c)
        (projectileSpeed c) (maxProjectiles c) (touchStartDistance c) (isPinching c)
        (dispatched c ++ [e]).

Definition set_delta (m : Mouse) (x' y' : num) : Mouse :=
  mkMouse x' y' (prevX m) (prevY m) (deltaX m) (deltaY m) (isDragging m) (sensitivity m).

Definition set_prev (m : Mouse) (px py : num) : Mouse :=
  mkMouse (x m) (y m) px py (deltaX m) (deltaY m) (isDragging m) (sensitivity m).

Definition set_isDragging (m : Mouse) (b : bool) : Mouse :=
  mkMouse (x m) (y m) (prevX m) (prevY m) (deltaX m) (deltaY m) b (sensitivity m).

(** [new Controls(canvas, camera)] *)
Definition create (cam : CameraSystem.t) : t :=
  Build cam
        (mkMouse (Fin 0) (Fin 0) (Fin 0) (Fin 0) (Fin 0) (Fin 0) false (Fin (2 / 1000)))
        [] []
        (Fin 5) (Fin (1 / 2)) (Fin 3)
        false true
        [] (Fin 15) 100
        NaN false
        [].

Definition onPointerLockChange (c : t) (pointerLockElementIsCanvas : bool) : t :=
  let c := set_isPointerLocked c pointerLockElementIsCanvas in
  if isPointerLocked c then
    set_mouse c (set_prev (mouse c)
                          (CameraSystem.canvas_width (camera c) / Fin 2)
                          (CameraSystem.canvas_height (camera c) / Fin 2))
  else
    let c := set_mouse c (set_isDragging (mouse c) false) in
    set_keys c [] (keyState c).

Definition generateProjectile (c : t) : t :=
  let c :=
    if (maxProjectiles c <=? List.length (projectiles c))%nat
    then set_projectiles c (tl (projectiles c))      (* Remove oldest projectile *)
    else c in
  let direction := Controls.getCameraDirection (camera c) in
  let normalizedDirection := Controls.normalize direction in
  let projectile :=
    mkProjectile (CameraSystem.position (camera c))
                 (Vec3 (c0 normalizedDirection * projectileSpeed c)
                       (c1 normalizedDirection * projectileSpeed c)
                       (c2 normalizedDirection * projectileSpeed c))
                 (Fin 2) true in
  let c := set_projectiles c (projectiles c ++ [projectile]) in
  dispatchEvent c (mkFired (CameraSystem.position (camera c)) normalizedDirection).

Definition isClickOnUI (uiElements : list Rect) (clientX clientY : num) : bool :=
  existsb (fun rect =>
             (clientX >=? left rect) && (clientX <=? right rect)
             && (clientY >=? top rect) && (clientY <=? bottom rect))
          uiElements.

Definition onMouseDown (c : t) (button : Z) (clientX clientY : num)
  (uiElements : list Rect) : t :=
  if (button =? 0)%Z && isPointerLocked c then
    let m := set_prev (set_isDragging (mouse c) true) clientX clientY in
    let c := set_mouse c m in
    if negb (isClickOnUI uiElements clientX clientY) then generateProjectile c else c
  else c.

Definition handleRotation (c : t) : t :=
  if negb (isEnabled c) then c
  else
    let yaw := - x (mouse c) * sensitivity (mouse c) in
    let pitch := - y (mouse c) * sensitivity (mouse c) in
    let c := set_camera c (Controls.rotateCamera (camera c) yaw pitch) in
    set_mouse c (set_delta (mouse c) (Fin 0) (Fin 0)).

(** The three spellings of the movement of the pointer; one the browser
    does not define is [undefined], which is falsy as [NaN] is. *)
Definition onMouseMove (c : t) (movementX mozMovementX webkitMovementX
                                movementY mozMovementY webkitMovementY : num) : t :=
  if negb (isPointerLocked c) || negb (isEnabled c) then c
  else
    let mx := js_or (js_or (js_or movementX mozMovementX) webkitMovementX) (Fin 0) in
    let my := js_or (js_or (js_or movementY mozMovementY) webkitMovementY) (Fin 0) in
    let c := set_mouse c (set_delta (mouse c) mx my) in
    if isDragging (mouse c) then handleRotation c else c.

Definition onMouseUp (c : t) (button : Z) : t :=
  if (button =? 0)%Z then set_mouse c (set_isDragging (mouse c) false) else c.

Definition onKeyDown (c : t) (eventKey : string) : t :=
  if negb (isPointerLocked c) || negb (isEnabled c) then c
  else
    let key := toLowerCase eventKey in
    let c := set_keys c (set_add (keys c) key) (obj_set (keyState c) key true) in
    if String.eqb key "g" then generateProjectile c else c.

Definition onKeyUp (c : t) (eventKey : string) : t :=
  let key := toLowerCase eventKey in
  set_keys c (set_delete (keys c) key) (obj_set (keyState c) key false).

(** The camera moved along its direction by [direction * (zoom - 1) * 2]. *)
Definition zoomCamera (cam : CameraSystem.t) (zoom : num) : CameraSystem.t :=
  let direction := Controls.getCameraDirection cam in
  let p := CameraSystem.position cam in
  let cam := CameraSystem.set_position cam
               (Vec3 (c0 p + c0 direction * (zoom - Fin 1) * Fin 2)
                     (c1 p + c1 direction * (zoom - Fin 1) * Fin 2)
                     (c2 p + c2 direction * (zoom - Fin 1) * Fin 2)) in
  let tg := CameraSystem.target cam in
  let cam := CameraSystem.set_target cam
               (Vec3 (c0 tg + c0 direction * (zoom - Fin 1) * Fin 2)
                     (c1 tg + c1 direction * (zoom - Fin 1) * Fin 2)
                     (c2 tg + c2 direction * (zoom - Fin 1) * Fin 2)) in
  CameraSystem.updateMatrices cam.

Definition onWheel (c : t) (eventDeltaY : num) : t :=
  if negb (isEnabled c) then c
  else
    let zoomAmount := if eventDeltaY >? Fin 0 then Fin (11 / 10) else Fin (9 / 10) in
    set_camera c (zoomCamera (camera c) zoomAmount).

(** A touch is the pair of its [clientX] and [clientY]. *)
Definition getTouchDistance (touch0 touch1 : num * num) : num :=
  let dx := fst touch0 - fst touch1 in
  let dy := snd touch0 - snd touch1 in
  Math.sqrt (dx * dx + dy * dy).

Definition onTouchStart (c : t) (touches : list (num * num)) : t :=
  if negb (isEnabled c) then c
  else
    match touches with
    | [touch] =>
        set_mouse c (set_prev (set_isDragging (mouse c) true) (fst touch) (snd touch))
    | [touch0; touch1] => set_pinch c (getTouchDistance touch0 touch1) true
    | _ => c
    end.

Definition onTouchMove (c : t) (touches : list (num * num)) : t :=
  if negb (isEnabled c) then c
  else
    match touches with
    | [touch] =>
        if isDragging (mouse c) then
          let m := set_delta (mouse c) (fst touch - prevX (mouse c))
                             (snd touch - prevY (mouse c)) in
          let m := set_prev m (fst touch) (snd touch) in
          handleRotation (set_mouse c m)
        else c
    | [touch0; touch1] =>
        if isPinching c then
          let currentDistance := getTouchDistance touch0 touch1 in
          let zoomFactor := touchStartDistance c / currentDistance in
          let c := set_camera c (zoomCamera (camera c) zoomFactor) in
          set_pinch c currentDistance (isPinching c)
        else c
    | _ => c
    end.

Definition onTouchEnd (c : t) : t :=
  let c := set_mouse c (set_isDragging (mouse c) false) in
  set_pinch c (touchStartDistance c) false.

Definition has (c : t) (key : string) : bool := includes (keys c) key.

(** The steps of [handleMovement]: the three directions the keys ask for,
    the movement they give in the time [deltaTime], and the camera moved
    by it. *)
Definition moveInput (c : t) : num * num * num :=
  let moveForward := Fin 0 in
  let moveRight := Fin 0 in
  let moveUp := Fin 0 in
  let moveForward := if has c "w" || has c "arrowup" then Fin 1 else moveForward in
  let moveForward := if has c "s" || has c "arrowdown" then Fin (-1) else moveForward in
  let moveRight := if has c "d" || has c "arrowright" then Fin 1 else moveRight in
  let moveRight := if has c "a" || has c "arrowleft" then Fin (-1) else moveRight in
  let moveUp := if has c " " || has c "arrowup" then Fin 1 else moveUp in
  let moveUp := if has c "control" || has c "arrowdown" then Fin (-1) else moveUp in
  (moveForward, moveRight, moveUp).

Definition totalMovement (c : t) (moveForward moveRight moveUp deltaTime : num) : vec3 :=
  let cam := camera c in
  let direction := Controls.getCameraDirection cam in
  let normalizedDirection := Controls.normalize direction in
  let right := Controls.cross normalizedDirection (CameraSystem.up cam) in
  let forwardVec := Vec3 (c0 normalizedDirection * moveForward)
                         (c1 normalizedDirection * moveForward)
                         (c2 normalizedDirection * moveForward) in
  let rightVec := Vec3 (c0 right * moveRight) (c1 right * moveRight)
                       (c2 right * moveRight) in
  let upVec := Vec3 (c0 (CameraSystem.up cam) * moveUp)
                    (c1 (CameraSystem.up cam) * moveUp)
                    (c2 (CameraSystem.up cam) * moveUp) in
  Vec3 ((c0 forwardVec + c0 rightVec + c0 upVec) * movementSpeed c * deltaTime)
       ((c1 forwardVec + c1 rightVec + c1 upVec) * altitudeSpeed c * deltaTime)
       ((c2 forwardVec + c2 rightVec + c2 upVec) * movementSpeed c * deltaTime).

Definition moveCamera (cam : CameraSystem.t) (movement : vec3) : CameraSystem.t :=
  let p := CameraSystem.position cam in
  let cam := CameraSystem.set_position cam
               (Vec3 (c0 p + c0 movement) (c1 p + c1 movement) (c2 p + c2 movement)) in
  let tg := CameraSystem.target cam in
  CameraSystem.set_target cam
    (Vec3 (c0 tg + c0 movement) (c1 tg + c1 movement) (c2 tg + c2 movement)).

Definition handleMovement (c : t) (deltaTime : num) : t :=
  let '(moveForward, moveRight, moveUp) := moveInput c in
  if negb (moveForward === Fin 0) || negb (moveRight === Fin 0) || negb (moveUp === Fin 0)
  then
    set_camera c
      (moveCamera (camera c) (totalMovement c moveForward moveRight moveUp deltaTime))
  else c.

Definition checkProjectileCollision (cam : CameraSystem.t) (projectile : Projectile)
  : Projectile :=
  let p := CameraSystem.position cam in
  let distanceFromCamera :=
    Math.sqrt (square (c0 (position projectile) - c0 p)
               + square (c1 (position projectile) - c1 p)
               + square (c2 (position projectile) - c2 p)) in
  if distanceFromCamera >? Fin 50
  then mkProjectile (position projectile) (velocity projectile) (lifetime projectile) false
  else projectile.

(** The body of the loop of [updateProjectiles] for an active projectile. *)
Definition stepProjectile (cam : CameraSystem.t) (deltaTime : num) (projectile : Projectile)
  : Projectile :=
  let pos := Vec3 (c0 (position projectile) + c0 (velocity projectile) * deltaTime)
                  (c1 (position projectile) + c1 (velocity projectile) * deltaTime)
                  (c2 (position projectile) + c2 (velocity projectile) * deltaTime) in
  let life := lifetime projectile - deltaTime in
  let act := if life <=? Fin 0 then false else active projectile in
  checkProjectileCollision cam (mkProjectile pos (velocity projectile) life act).

(** [for (let i = n - 1; i >= 0; i--)]: the iterations [n - 1], ..., [0].  An
    inactive projectile is spliced out, an active one is updated in place;
    [i] is always an index of the array. *)
Fixpoint updateProjectiles_from (cam : CameraSystem.t) (deltaTime : num) (n : nat)
  (ps : list Projectile) : list Projectile :=
  match n with
  | O => ps
  | S i =>
      match nth_error ps i with
      | Some projectile =>
          if negb (active projectile)
          then updateProjectiles_from cam deltaTime i (splice1 ps i)
          else updateProjectiles_from cam deltaTime i
                 (assign ps i (stepProjectile cam deltaTime projectile))
      | None => updateProjectiles_from cam deltaTime i ps
      end
  end.

Definition updateProjectiles (c : t) (deltaTime : num) : t :=
  set_projectiles c
    (updateProjectiles_from (camera c) deltaTime (List.length (projectiles c))
                            (projectiles c)).

Definition update (c : t) (deltaTime : num) : t :=
  if negb (isEnabled c) || negb (isPointerLocked c) then c
  else
    let c := handleMovement c deltaTime in
    let c := updateProjectiles c deltaTime in
    set_camera c (CameraSystem.updateMatrices (camera c)).

Definition enable (c : t) : t := set_isEnabled c true.

Definition disable (c : t) : t :=
  let c := set_isEnabled c false in
  let c := set_keys c [] (keyState c) in
  set_mouse c (set_isDragging (mouse c) false).

(** The events the page delivers to the handlers. *)
Inductive Event : Type :=
| PointerLockChange (pointerLockElementIsCanvas : bool)
| MouseDown (button : Z) (clientX clientY : num) (uiElements : list Rect)
| MouseMove (movementX mozMovementX webkitMovementX
             movementY mozMovementY webkitMovementY : num)
| MouseUp (button : Z)
| KeyDown (key : string)
| KeyUp (key : string)
| Wheel (eventDeltaY : num)
| TouchStart (touches : list (num * num))
| TouchMove (touches : list (num * num))
| TouchEnd
| Update (deltaTime : num)
| Enable
| Disable.

Definition handle (c : t) (e : Event) : t :=
  match e with
  | PointerLockChange b => onPointerLockChange c b
  | MouseDown button cx cy ui => onMouseDown c button cx cy ui
  | MouseMove mx mozx wkx my mozy wky => onMouseMove c mx mozx wkx my mozy wky
  | MouseUp button => onMouseUp c button
  | KeyDown key => onKeyDown c key
  | KeyUp key => onKeyUp c key
  | Wheel dy => onWheel c dy
  | TouchStart ts => onTouchStart c ts
  | TouchMove ts => onTouchMove c ts
  | TouchEnd => onTouchEnd c
  | Update dt => update c dt
  | Enable => enable c
  | Disable => disable c
  end.

Definition handleAll (c : t) (events : list Event) : t := fold_left handle events c.

End ControlsState.

(** ** webgpu/ui/selection.js: the handlers of the selection system *)

Module SelectionSystemEvents.

(** The detail of a ['cube-selected'] event. *)
Record CubeSelected : Type := mkCubeSelected {
  pmid : string;
  article : Article
}.

Section Environment.

Variable rand : nat -> num.

(** [handleProjectile(event)]: how its promise is settled, the state after
    it, and the event it dispatches.  The event is made after the
    [await] of [selectByPMID]: when that promise is rejected, so is this
    one, and nothing is dispatched. *)
Definition handleProjectile (s : SelectionSystem.t) (dp : DataProcessor.t)
  (detail : ControlsState.Fired)
  : Rand (Settled unit * SelectionSystem.t * option CubeSelected) :=
  hitCube <- SelectionSystem.rayCast rand dp (ControlsState.origin detail)
                                     (ControlsState.direction detail) ;;
  match hitCube with
  | Some hit =>
      let '(selection, s) :=
        SelectionSystem.selectByPMID s dp (SelectionSystem.hit_pmid hit) true in
      match selection with
      | Fulfilled _ =>
          ret (Fulfilled tt, s,
               Some (mkCubeSelected (SelectionSystem.hit_pmid hit)
                                    (SelectionSystem.hit_article hit)))
      | Rejected => ret (Rejected, s, None)
      end
  | None => ret (Fulfilled tt, s, None)
  end.

End Environment.

(** [handleTableClick(event)] for a click in a row that has a PMID; the
    check box of the row, if it has one, tells whether it is checked.
    The promise of [selectByPMID] is not awaited. *)
Definition handleTableClick (s : SelectionSystem.t) (dp : DataProcessor.t)
  (rowPmid : string) (checkbox : option bool) : SelectionSystem.t :=
  let isSelected := match checkbox with Some checked => checked | None => true end in
  snd (SelectionSystem.selectByPMID s dp rowPmid isSelected).

(** The calls a user of the selection system makes, and the state each
    leaves, however its promise is settled. *)
Inductive Call : Type :=
| SelectByPMID (pmid : string) (selected : bool)
| ClearSelection.

Definition call (dp : DataProcessor.t) (s : SelectionSystem.t) (c : Call)
  : SelectionSystem.t :=
  match c with
  | SelectByPMID pmid selected => snd (SelectionSystem.selectByPMID s dp pmid selected)
  | ClearSelection => SelectionSystem.clearSelection s
  end.

Definition callAll (dp : DataProcessor.t) (s : SelectionSystem.t) (cs : list Call)
  : SelectionSystem.t :=
  fold_left (call dp) cs s.

(** The same calls on the simplified selection system. *)
Definition callSimplified (dp : DataProcessor.t) (s : SelectionSystemSimplified.t)
  (c : Call) : SelectionSystemSimplified.t :=
  match c with
  | SelectByPMID pmid selected =>
      snd (SelectionSystemSimplified.selectByPMID s dp pmid selected)
  | ClearSelection => SelectionSystemSimplified.clearSelection s
  end.

Definition callAllSimplified (dp : DataProcessor.t) (s : SelectionSystemSimplified.t)
  (cs : list Call) : SelectionSystemSimplified.t :=
  fold_left (callSimplified dp) cs s.

End SelectionSystemEvents.

(** The bit of the cube [i] in the selection buffer, and its word in the
    buffer of the simplified system. *)
Definition selectionBit (buffer : list Z) (i : nat) : bool :=
  Z.testbit (nth (i / 8) buffer 0%Z) (Z.of_nat (i mod 8)).

Definition selectionWord (buffer : option (list Z)) (i : nat) : option Z :=
  match buffer with
  | Some b => nth_error b i
  | None => None
  end.

(** ** main.js: the application [WebGPUHyperCube] *)

Module WebGPUHyperCube.

(** The state of the application that its methods compute with; the page
    and the renderer are outside.  [controls] holds the camera, which the
    application shares with it. *)
Record t : Type := Build {
  data : list Article;
  cubeCount : nat;
  lastTime : num;
  frameCount : num;
  fps : num;
  viewMode : string;
  dataProcessor : DataProcessor.t;
  controls : option ControlsState.t;
  selection : SelectionSystemSimplified.t
}.

Definition set_data (app : t) (d : list Article) (n : nat) : t :=
  Build d n (lastTime app) (frameCount app) (fps app) (viewMode app)
        (dataProcessor app) (controls app) (selection app).

Definition set_frames (app : t) (last count rate : num) : t :=
  Build (data app) (cubeCount app) last count rate (viewMode app)
        (dataProcessor app) (controls app) (selection app).

Definition set_viewMode (app : t) (mode : string) : t :=
  Build (data app) (cubeCount app) (lastTime app) (frameCount app) (fps app) mode
        (dataProcessor app) (controls app) (selection app).

Definition set_dataProcessor (app : t) (dp : DataProcessor.t) : t :=
  Build (data app) (cubeCount app) (lastTime app) (frameCount app) (fps app)
        (viewMode app) dp (controls app) (selection app).

Definition set_controls (app : t) (c : option ControlsState.t) : t :=
  Build (data app) (cubeCount app) (lastTime app) (frameCount app) (fps app)
        (viewMode app) (dataProcessor app) c (selection app).

Definition set_selection (app : t) (s : SelectionSystemSimplified.t) : t :=
  Build (data app) (cubeCount app) (lastTime app) (frameCount app) (fps app)
        (viewMode app) (dataProcessor app) (controls app) s.

(** The constructor and the systems [init] sets up, on a canvas of the
    given size. *)
Definition create (width height : num) : t :=
  Build [] 0 (Fin 0) (Fin 0) (Fin 0) "grid"
        DataProcessor.create
        (Some (ControlsState.create (CameraSystem.create width height)))
        SelectionSystemSimplified.create.

(** A record as [parseCSV] builds it: an object with one property for
    each header. *)
Definition Item : Type := list (string * string).

(** [item[key] = value] on a plain object: the key [__proto__] is the
    accessor of the prototype, which ignores a string, so that no
    property is made. *)
Definition setProperty (item : Item) (key value : string) : Item :=
  if String.eqb key "__proto__" then item else obj_set item key value.

(** The body of [headers.forEach((header, index) => ...)], from the index
    [index] on. *)
Fixpoint fillItem (item : Item) (values : list string) (headers : list string)
  (index : nat) : Item :=
  match headers with
  | [] => item
  | header :: rest =>
      let value :=
        match nth_error values index with
        | Some v => if String.eqb v EmptyString then EmptyString else trim v
        | None => EmptyString
        end in
      fillItem (setProperty item (trim header) value) values rest (S index)
  end.

(** The body of the loop over the lines after the first. *)
Definition parseLine (headers : list string) (line : string) : list Item :=
  if String.eqb (trim line) EmptyString then []
  else [fillItem [] (split comma line) headers 0].

Definition parseCSV (csvText : string) : list Item :=
  let lines := split newline csvText in
  let headers := split comma (hd EmptyString lines) in
  flat_map (parseLine headers) (tl lines).

(** The selector of the row of an identifier in the table: the template
    [tr[data-pmid="${pmid}"]]. *)
Definition quote : string := String (ascii_of_nat 34) EmptyString.

Definition rowSelector (pmid : string) : string :=
  ("tr[data-pmid=" ++ quote ++ pmid ++ quote ++ "]")%string.

Section Environment.

Variable rand : nat -> num.
Variable fullYear : Z.

(** [setViewMode(mode)].  [recomputeLayout()] is not awaited: when it
    throws, its promise is rejected and the state is as it was. *)
Definition setViewMode (app : t) (mode : string) : Rand t :=
  let app := set_viewMode app mode in
  let dp := DataProcessor.setLayoutMode (dataProcessor app) mode in
  r <- DataProcessor.recomputeLayout rand fullYear dp ;;
  match r with
  | Some dp' => ret (set_dataProcessor app dp')
  | None => ret (set_dataProcessor app dp)
  end.

(** [loadData] from the point where the records are fetched and parsed.
    [None]: the upload throws (the [catch] branch of the source, which
    falls back to sample data). *)
Definition loadData (app : t) (records : list Article) : Rand (option t) :=
  let app := set_data app records (List.length records) in
  r <- DataProcessor.uploadData rand fullYear (dataProcessor app) records ;;
  match r with
  | Some dp' =>
      app <- setViewMode (set_dataProcessor app dp') "grid" ;;
      ret (Some app)
  | None => ret None
  end.

(** The page.  [document.querySelector(selector)] throws a [SyntaxError]
    when the browser cannot parse the selector: [validSelector] tells
    which selectors it can.  The elements that the application looks up
    by their identifier are on the page. *)
Variable validSelector : string -> bool.

(** [selectArticle(pmid, selected)].  The selection is updated first; the
    row of the identifier is then looked up in the table, and the
    promise is rejected when its selector does not parse. *)
Definition selectArticle (app : t) (pmid : string) (selected : bool)
  : Settled unit * t :=
  let app :=
    set_selection app
      (snd (SelectionSystemSimplified.selectByPMID (selection app) (dataProcessor app)
                                                   pmid selected)) in
  if validSelector (rowSelector pmid) then (Fulfilled tt, app) else (Rejected, app).

(** [deleteSelected()], where [confirmed] is the answer of the user to
    [confirm(...)].  When [deleteArticles] of the processor throws, the
    promise is rejected and the processor has its records filtered and
    counted, as [deleteArticles] left them. *)
Definition deleteSelected (app : t) (confirmed : bool) : Rand (Settled unit * t) :=
  let selected := SelectionSystemSimplified.getSelected (selection app) in
  if (List.length selected =? 0)%nat then ret (Fulfilled tt, app)
  else if confirmed then
    r <- DataProcessor.deleteArticles rand fullYear (dataProcessor app) selected ;;
    match r with
    | Some dp' =>
        let app := set_dataProcessor app dp' in
        let d := filter (fun article => negb (includes selected (PMID article)))
                        (data app) in
        let app := set_data app d (List.length d) in
        let app := set_selection app
                     (SelectionSystemSimplified.clearSelection (selection app)) in
        ret (Fulfilled tt, app)
    | None =>
        let dp := dataProcessor app in
        let d := filter (fun article => negb (includes selected (PMID article)))
                        (DataProcessor.data dp) in
        ret (Rejected,
             set_dataProcessor app
               (DataProcessor.Build d (DataProcessor.cubeData dp) (List.length d)
                                    (DataProcessor.layoutMode dp)))
    end
  else ret (Fulfilled tt, app).

(** The calls the page makes once the data are loaded. *)
Inductive Call : Type :=
| SetViewMode (mode : string)
| SelectArticle (pmid : string) (selected : bool)
| DeleteSelected (confirmed : bool).

(** A call: how it ends, and the state it leaves. *)
Definition call (app : t) (c : Call) : Rand (Settled unit * t) :=
  match c with
  | SetViewMode mode => app <- setViewMode app mode ;; ret (Fulfilled tt, app)
  | SelectArticle pmid selected => ret (selectArticle app pmid selected)
  | DeleteSelected confirmed => deleteSelected app confirmed
  end.

(** The calls one after the other; a call that is rejected does not keep
    the page from making the next one. *)
Fixpoint callAll (app : t) (cs : list Call) : Rand (list (Settled unit) * t) :=
  match cs with
  | [] => ret ([], app)
  | c :: cs' =>
      r <- call app c ;;
      rest <- callAll (snd r) cs' ;;
      ret (fst r :: fst rest, snd rest)
  end.

End Environment.

(** [animate(currentTime)]: the frame counter and the controls.
    [this.controls.update()] is called with no argument, so that
    [deltaTime] is [undefined], which is [NaN] in arithmetic. *)
Definition animate (app : t) (currentTime : num) : t :=
  let app := set_frames app (lastTime app) (frameCount app + Fin 1) (fps app) in
  let app :=
    if currentTime - lastTime app >=? Fin 1000 then
      let rate := round ((frameCount app * Fin 1000) / (currentTime - lastTime app)) in
      set_frames app currentTime (Fin 0) rate
    else app in
  match controls app with
  | Some c => set_controls app (Some (ControlsState.update c NaN))
  | None => app
  end.

End WebGPUHyperCube.

(** ** webgpu/core/renderer.js: the vertex stage of the cube shader *)

Module Shader.

Record vec4 : Type := Vec4 { v0 : num; v1 : num; v2 : num; v3 : num }.

(** [m * v] for a [mat4x4<f32>] and a [vec4<f32>]: the matrix holds its
    columns one after the other, as the uniform buffer gives them. *)
Definition mul_mat4_vec4 (m : list num) (v : vec4) : vec4 :=
  Vec4 (at_ m 0 * v0 v + at_ m 4 * v1 v + at_ m 8 * v2 v + at_ m 12 * v3 v)
       (at_ m 1 * v0 v + at_ m 5 * v1 v + at_ m 9 * v2 v + at_ m 13 * v3 v)
       (at_ m 2 * v0 v + at_ m 6 * v1 v + at_ m 10 * v2 v + at_ m 14 * v3 v)
       (at_ m 3 * v0 v + at_ m 7 * v1 v + at_ m 11 * v2 v + at_ m 15 * v3 v).

Record CameraUniforms : Type := mkCameraUniforms {
  viewProjectionMatrix : list num;
  cameraPosition : vec3;
  time : num
}.

Record CubeData : Type := mkCubeData {
  position : vec3;
  color : vec3;
  size : num;
  selected : num
}.

Record VertexOutput : Type := mkVertexOutput {
  out_position : vec4;
  out_color : vec3;
  out_selected : num
}.

(** The uniforms as [updateUniformBuffer] lays them out: sixteen floats of
    the matrix, three of the position, one of the time. *)
Definition readUniforms (uniformBuffer : list num) : CameraUniforms :=
  mkCameraUniforms (firstn 16 uniformBuffer)
                   (Vec3 (at_ uniformBuffer 16) (at_ uniformBuffer 17) (at_ uniformBuffer 18))
                   (at_ uniformBuffer 19).

Definition worldPosition (vertex : vec3) (cube : CubeData) : vec3 :=
  Vec3 (c0 vertex * size cube + c0 (position cube))
       (c1 vertex * size cube + c1 (position cube))
       (c2 vertex * size cube + c2 (position cube)).

Definition vertex_main (camera : CameraUniforms) (vertex : vec3) (cube : CubeData)
  : VertexOutput :=
  let w := worldPosition vertex cube in
  mkVertexOutput
    (mul_mat4_vec4 (viewProjectionMatrix camera) (Vec4 (c0 w) (c1 w) (c2 w) (Fin 1)))
    (color cube)
    (selected cube).

End Shader.

(** ** Vocabulary of the selection buffers *)

(** In the simplified system the array of the processor side
    and the buffer hold one word per record, 1 when its identifier is
    selected and 0 otherwise. *)
Definition mirrorsSimplified (dp : DataProcessor.t) (s : SelectionSystemSimplified.t)
  : Prop :=
  exists words : list Z,
    SelectionSystemSimplified.selectionData s = Some words /\
    SelectionSystemSimplified.selectionBuffer s = Some words /\
    List.length words = DataProcessor.instanceCount dp /\
    forall (i : nat) (a : Article),
      nth_error (DataProcessor.data dp) i = Some a ->
      nth_error words i
      = Some (if includes (SelectionSystemSimplified.selectedPMIDs s) (PMID a)
              then 1%Z else 0%Z).

(** ** Vocabulary of the application *)

(** How a call of the page ends: [selectArticle] runs to its end when the
    selector of the row parses, and the other calls always do. *)
Definition outcome (validSelector : string -> bool) (c : WebGPUHyperCube.Call)
  : Settled unit :=
  match c with
  | WebGPUHyperCube.SelectArticle pmid _ =>
      if validSelector (WebGPUHyperCube.rowSelector pmid) then Fulfilled tt else Rejected
  | _ => Fulfilled tt
  end.


(** What the application keeps true once the data are loaded: its records
    are the records of the processor, the counts are their number, the
    buffer of instances has room for them, every selected identifier and
    the highlighted one are identifiers of current records, and the
    buffers of the selection system are still [null]. *)
Definition app_invariant (app : WebGPUHyperCube.t) : Prop :=
  let dp := WebGPUHyperCube.dataProcessor app in
  let s := WebGPUHyperCube.selection app in
  WebGPUHyperCube.data app = DataProcessor.data dp /\
  WebGPUHyperCube.cubeCount app = List.length (WebGPUHyperCube.data app) /\
  DataProcessor.ready dp /\
  (forall x : string,
      In x (SelectionSystemSimplified.getSelected s) ->
      In x (map PMID (WebGPUHyperCube.data app))) /\
  (forall h : string,
      SelectionSystemSimplified.highlightedPMID s = Some h ->
      In h (map PMID (WebGPUHyperCube.data app))) /\
  SelectionSystemSimplified.selectionBuffer s = None /\
  SelectionSystemSimplified.selectionData s = None.

(** ** Vocabulary of the controls *)

(** What the handlers keep true: a key is held only while the pointer is
    locked and the controls are enabled, and there are never more
    projectiles than [maxProjectiles], which stays 100. *)
Definition controls_invariant (c : ControlsState.t) : Prop :=
  (ControlsState.isPointerLocked c && ControlsState.isEnabled c = true
   \/ ControlsState.keys c = []) /\
  (List.length (ControlsState.projectiles c) <= ControlsState.maxProjectiles c)%nat /\
  ControlsState.maxProjectiles c = 100%nat.

(** The keys [handleMovement] looks at. *)
Definition movementKeys : list string :=
  [ "w"; "arrowup"; "s"; "arrowdown"; "d"; "arrowright"; "a"; "arrowleft"; " ";
    "control" ]%string.

(** The direction [rotateCamera] has after its yaw step, whose pitch the
    limit is tested on. *)
Definition yawedDirection (cam : CameraSystem.t) (yaw : num) : vec3 :=
  let direction := CameraSystem.normalize (Controls.getCameraDirection cam) in
  Controls.applyYaw direction (Controls.cross direction (CameraSystem.up cam)) yaw.


(** * Properties *)

(** ** Comparisons of real numbers as booleans *)

Lemma Rltb_true (a b : R) : Rltb a b = true <-> (a < b)%R.
Proof. unfold Rltb. destruct (Rlt_dec a b); split; intros; try easy; lra. Qed.

Lemma Rltb_false (a b : R) : Rltb a b = false <-> (b <= a)%R.
Proof. unfold Rltb. destruct (Rlt_dec a b); split; intros; try easy; lra. Qed.

Lemma Reqb_true (a b : R) : Reqb a b = true <-> a = b.
Proof. unfold Reqb. destruct (Req_dec_T a b); split; intros; easy. Qed.

Lemma Reqb_false (a b : R) : Reqb a b = false <-> a <> b.
Proof. unfold Reqb. destruct (Req_dec_T a b); split; intros; easy. Qed.

Lemma ltb_Fin (a b : R) : (Fin a <? Fin b) = true <-> (a < b)%R.
Proof. apply Rltb_true. Qed.

Lemma gtb_Fin (a b : R) : (Fin a >? Fin b) = true <-> (b < a)%R.
Proof. apply Rltb_true. Qed.

Lemma leb_Fin (a b : R) : (Fin a <=? Fin b) = true <-> (a <= b)%R.
Proof.
  unfold leb; simpl. rewrite orb_true_iff, Rltb_true, Reqb_true. lra.
Qed.

Lemma geb_Fin (a b : R) : (Fin a >=? Fin b) = true <-> (b <= a)%R.
Proof. apply leb_Fin. Qed.

Lemma div_Fin (a b : R) : b <> 0%R -> Fin a / Fin b = Fin (a / b).
Proof. intros Hb. simpl. destruct (Req_dec_T b 0); easy. Qed.

Lemma sqrt_Fin (a : R) : (0 <= a)%R -> Math.sqrt (Fin a) = Fin (R_sqrt.sqrt a).
Proof. intros Ha. simpl. destruct (Rlt_dec a 0); [lra | reflexivity]. Qed.

(** ** Narrowing to a 32-bit float *)

Lemma float32_overflow_eq :
  float32_overflow = 340282356779733661637539395458142568448%R.
Proof. reflexivity. Qed.

Lemma toFloat32_Fin (r : R) :
  (Rabs r < float32_overflow)%R -> toFloat32 (Fin r) = Fin r.
Proof.
  intros H. unfold toFloat32. destruct (Rle_dec float32_overflow (Rabs r)); [lra | reflexivity].
Qed.

Lemma toFloat32_small (r : R) : (Rabs r <= 4294967296)%R -> toFloat32 (Fin r) = Fin r.
Proof. intros H. apply toFloat32_Fin. rewrite float32_overflow_eq. lra. Qed.

Lemma toFloat32_unit (r : R) : (0 <= r <= 1)%R -> toFloat32 (Fin r) = Fin r.
Proof.
  intros H. apply toFloat32_small. rewrite Rabs_pos_eq by lra. lra.
Qed.

Lemma toFloat32_zero : toFloat32 (Fin 0) = Fin 0.
Proof. apply toFloat32_unit. lra. Qed.

Lemma toFloat32_overflows (r : R) :
  (float32_overflow <= r)%R -> toFloat32 (Fin r) = PInf.
Proof.
  intros H. assert (H0 : (0 < float32_overflow)%R) by (rewrite float32_overflow_eq; lra).
  unfold toFloat32. rewrite Rabs_pos_eq by lra.
  destruct (Rle_dec float32_overflow r); [|lra].
  destruct (Rlt_dec 0 r); [reflexivity | lra].
Qed.

(** ** The helpers of the language, run on samples *)

Example parseInt_samples :
  parseIntZ "1990" = Some 1990%Z /\ parseIntZ "  -42px" = Some (-42)%Z /\
  parseIntZ "0x1F" = Some 31%Z /\ parseIntZ "+7.5" = Some 7%Z /\
  parseIntZ "year" = None /\ parseIntZ "" = None /\ parseIntZ "0x" = None.
Proof. repeat split. Qed.

Example yearOf_samples :
  yearOf "2010" = 2010%Z /\ yearOf "n/a" = 2000%Z /\ yearOf "0" = 2000%Z.
Proof. repeat split. Qed.

Example array_samples :
  findIndex (String.eqb "b") ["a"; "b"; "b"]%string = 1%Z /\
  findIndex (String.eqb "z") ["a"; "b"]%string = (-1)%Z /\
  distinct ["Nature"; "Science"; "Nature"; "JAMA"; "Science"]%string
  = ["Nature"; "Science"; "JAMA"]%string /\
  set_add (set_add ["a"]%string "b") "a" = ["a"; "b"]%string /\
  set_delete ["a"; "b"]%string "a" = ["b"]%string.
Proof. repeat split. Qed.

(** The checks of the device: a copy, a mapping and a write of four bytes
    at an offset that is a multiple of 4 are carried out, those of one
    byte are not. *)
Example GPU_samples :
  GPU.copyBufferToBuffer [1; 2; 3; 4; 5; 6; 7; 8]%Z 4 [0; 0; 0; 0]%Z 0 4 = [5; 6; 7; 8]%Z /\
  GPU.copyBufferToBuffer [1; 2; 3; 4]%Z 1 [0; 0; 0; 0]%Z 0 1 = [0; 0; 0; 0]%Z /\
  GPU.mapAsync [0; 0; 0; 0]%Z 0 4 = true /\
  GPU.mapAsync [0; 0; 0; 0]%Z 0 1 = false /\
  GPU.getMappedRange [5; 6; 7; 8]%Z 0 1 = None /\
  GPU.writeBuffer [1; 2; 3; 4; 5; 6; 7; 8]%Z 4 [0; 0; 0; 0]%Z = Some [1; 2; 3; 4; 0; 0; 0; 0]%Z /\
  GPU.writeBuffer [1; 2; 3; 4]%Z 0 [9]%Z = None.
Proof. repeat split. Qed.

(** Selecting the cube of index 9 asks for the byte 1 of the buffer: the
    promise is rejected and the two buffers are as they were. *)
Example updateGPUSelection_sample :
  SelectionSystem.updateGPUSelection
    (SelectionSystem.Build [] None [0; 0]%Z [0; 0]%Z) 9 true
  = (Rejected, SelectionSystem.Build [] None [0; 0]%Z [0; 0]%Z).
Proof. reflexivity. Qed.

(** ** Looking up an identifier that no record has *)

Lemma findIndex_from_absent {A : Type} (p : A -> bool) (l : list A) (i : Z) :
  (forall a, In a l -> p a = false) -> findIndex_from p l i = (-1)%Z.
Proof.
  revert i. induction l as [|a l IH]; intros i H; simpl.
  - reflexivity.
  - rewrite (H a (or_introl eq_refl)). apply IH. intros b Hb. apply H. now right.
Qed.

Lemma findIndex_unknown (dp : DataProcessor.t) (pmid : string) :
  (forall a, In a (DataProcessor.data dp) -> PMID a <> pmid) ->
  findIndex (fun article => String.eqb (PMID article) pmid) (DataProcessor.data dp) = (-1)%Z.
Proof.
  intros H. apply findIndex_from_absent. intros a Ha.
  apply String.eqb_neq. now apply H.
Qed.

(** C5.  For an identifier that no current record has, the promise of
    [selectByPMID] is fulfilled with [false] (the simplified version
    returns [false]) and the selection system is left exactly as it was: the
    set of selected identifiers, the highlighted identifier and the
    selection encoding.  This holds for both versions of the selection
    system. *)
Theorem select_unknown_id_is_atomic :
  forall (dp : DataProcessor.t) (pmid : string) (selected : bool),
    (forall a, In a (DataProcessor.data dp) -> PMID a <> pmid) ->
    (forall s, SelectionSystem.selectByPMID s dp pmid selected = (Fulfilled false, s)) /\
    (forall s, SelectionSystemSimplified.selectByPMID s dp pmid selected = (false, s)).
Proof.
  intros dp pmid selected H. split; intros s.
  - unfold SelectionSystem.selectByPMID. now rewrite (findIndex_unknown dp pmid H).
  - unfold SelectionSystemSimplified.selectByPMID.
    destruct (DataProcessor.cubeData dp); [|reflexivity].
    now rewrite (findIndex_unknown dp pmid H).
Qed.

(** ** Stores into a typed array *)

Lemma store_length (a : list num) (i : nat) (v : num) :
  List.length (store a i v) = List.length a.
Proof.
  revert i. induction a as [|x a IH]; intros [|i]; simpl; auto.
Qed.

Lemma store_app_r (pre l : list num) (j : nat) (v : num) :
  store (pre ++ l) (List.length pre + j) v = pre ++ store l j v.
Proof.
  induction pre as [|x pre IH]; simpl.
  - reflexivity.
  - now rewrite IH.
Qed.

Lemma split_block8 (arr : list num) (n : nat) :
  (n + 8 <= List.length arr)%nat ->
  exists x0 x1 x2 x3 x4 x5 x6 x7,
    arr = firstn n arr ++ [x0; x1; x2; x3; x4; x5; x6; x7] ++ skipn (n + 8) arr.
Proof.
  intros H.
  assert (Hs : skipn n arr = firstn 8 (skipn n arr) ++ skipn 8 (skipn n arr))
    by (symmetry; apply firstn_skipn).
  assert (Hl : List.length (firstn 8 (skipn n arr)) = 8%nat).
  { rewrite length_firstn, length_skipn. lia. }
  destruct (firstn 8 (skipn n arr)) as [|x0 [|x1 [|x2 [|x3 [|x4 [|x5 [|x6 [|x7 [|? ?]]]]]]]]];
    try discriminate.
  exists x0, x1, x2, x3, x4, x5, x6, x7.
  rewrite skipn_skipn in Hs. rewrite (Nat.add_comm n 8), <- Hs.
  symmetry. apply firstn_skipn.
Qed.

(** ** The array that [processData] uploads *)

Section Layout.

Variable rand : nat -> num.
Variable fullYear : Z.

Lemma writeInstance_eq (dp : DataProcessor.t) (arr : list num) (article : Article)
  (i k : nat) :
  (i * 8 + 8 <= List.length arr)%nat ->
  DataProcessor.writeInstance rand fullYear dp arr article i k =
  (firstn (i * 8) arr
   ++ DataProcessor.instanceFloats fullYear
        (fst (DataProcessor.calculatePosition rand dp article i k)) article
   ++ skipn (i * 8 + 8) arr,
   snd (DataProcessor.calculatePosition rand dp article i k)).
Proof.
  intros H. unfold DataProcessor.writeInstance, bind.
  destruct (DataProcessor.calculatePosition rand dp article i k) as [p k'].
  unfold ret; simpl fst; simpl snd. f_equal.
  destruct (split_block8 arr (i * 8) H) as (x0 & x1 & x2 & x3 & x4 & x5 & x6 & x7 & E).
  assert (Hp : List.length (firstn (i * 8) arr) = (i * 8)%nat)
    by (rewrite length_firstn; lia).
  set (pre := firstn (i * 8) arr) in *. set (post := skipn (i * 8 + 8) arr) in *.
  rewrite E. rewrite <- Hp at 1 2 3 4 5 6 7 8.
  unfold storeFloat32. repeat rewrite store_app_r. reflexivity.
Qed.


Lemma instanceFloats_length (p : vec3) (a : Article) :
  List.length (DataProcessor.instanceFloats fullYear p a) = 8%nat.
Proof. reflexivity. Qed.

Lemma positionsFrom_length (dp : DataProcessor.t) (articles : list Article) (i k : nat) :
  List.length (fst (DataProcessor.positionsFrom rand dp articles i k)) = List.length articles.
Proof.
  revert i k. induction articles as [|a rest IH]; intros i k; simpl.
  - reflexivity.
  - unfold bind. destruct (DataProcessor.calculatePosition rand dp a i k) as [p k1].
    specialize (IH (S i) k1).
    destruct (DataProcessor.positionsFrom rand dp rest (S i) k1) as [ps k2].
    simpl in *. now rewrite IH.
Qed.

Lemma rows_length (ps : list vec3) (articles : list Article) :
  List.length ps = List.length articles ->
  List.length (DataProcessor.rows fullYear ps articles) = (List.length articles * 8)%nat.
Proof.
  revert articles. induction ps as [|p ps IH]; intros [|a articles] H;
    try discriminate; try reflexivity.
  unfold DataProcessor.rows in *. cbn [combine map List.concat fst snd].
  rewrite length_app, instanceFloats_length, IH by (simpl in H; lia).
  simpl. lia.
Qed.

Lemma fillInstances_eq (dp : DataProcessor.t) (articles : list Article) :
  forall (i : nat) (arr : list num) (k : nat),
    ((i + List.length articles) * 8 <= List.length arr)%nat ->
    DataProcessor.fillInstances rand fullYear dp articles i arr k =
    (firstn (i * 8) arr
     ++ DataProcessor.rows fullYear
          (fst (DataProcessor.positionsFrom rand dp articles i k)) articles
     ++ skipn ((i + List.length articles) * 8) arr,
     snd (DataProcessor.positionsFrom rand dp articles i k)).
Proof.
  induction articles as [|a rest IH]; intros i arr k H.
  - simpl. unfold ret, DataProcessor.rows. simpl. rewrite Nat.add_0_r. now rewrite firstn_skipn.
  - simpl DataProcessor.fillInstances. simpl DataProcessor.positionsFrom.
    unfold bind at 1. simpl List.length in H.
    rewrite writeInstance_eq by lia.
    unfold bind.
    destruct (DataProcessor.calculatePosition rand dp a i k) as [p k1]. simpl fst; simpl snd.
    rewrite IH.
    2:{ rewrite !length_app, length_firstn, length_skipn, instanceFloats_length. lia. }
    destruct (DataProcessor.positionsFrom rand dp rest (S i) k1) as [ps k2].
    unfold ret; simpl fst; simpl snd. f_equal.
    assert (Hp : List.length (firstn (i * 8) arr) = (i * 8)%nat)
      by (rewrite length_firstn; lia).
    replace (S i * 8)%nat with (List.length (firstn (i * 8) arr) + 8)%nat by lia.
    rewrite firstn_app_2. 
    change (firstn 8 (DataProcessor.instanceFloats fullYear p a ++ skipn (i * 8 + 8) arr))
      with (DataProcessor.instanceFloats fullYear p a).
    replace ((S i + List.length rest) * 8)%nat
      with (List.length (firstn (i * 8) arr) + (8 + (i + List.length rest - i) * 8))%nat by lia.
    rewrite skipn_app.
    rewrite skipn_all2 by lia.
    replace (List.length (firstn (i * 8) arr) + (8 + (i + List.length rest - i) * 8)
             - List.length (firstn (i * 8) arr))%nat
      with (List.length (DataProcessor.instanceFloats fullYear p a)
            + (List.length rest) * 8)%nat by (rewrite instanceFloats_length; lia).
    rewrite skipn_app, skipn_all2 by (rewrite instanceFloats_length; lia).
    replace (List.length (DataProcessor.instanceFloats fullYear p a) + List.length rest * 8
             - List.length (DataProcessor.instanceFloats fullYear p a))%nat
      with (List.length rest * 8)%nat by lia.
    rewrite skipn_skipn.
    replace (List.length rest * 8 + (i * 8 + 8))%nat
      with ((i + S (List.length rest)) * 8)%nat by lia.
    unfold DataProcessor.rows. cbn [combine map List.concat fst snd].
    rewrite <- !app_assoc. reflexivity.
Qed.
Lemma cubeInstances_eq (dp : DataProcessor.t) (k : nat) :
  DataProcessor.consistent dp ->
  DataProcessor.cubeInstances rand fullYear dp k =
  (DataProcessor.rows fullYear
     (fst (DataProcessor.positionsFrom rand dp (DataProcessor.data dp) 0 k))
     (DataProcessor.data dp),
   snd (DataProcessor.positionsFrom rand dp (DataProcessor.data dp) 0 k)).
Proof.
  intros Hc. unfold DataProcessor.cubeInstances.
  rewrite fillInstances_eq by (rewrite repeat_length, Hc; lia).
  f_equal. simpl firstn. simpl app.
  rewrite skipn_all2 by (rewrite repeat_length, Hc; lia).
  apply app_nil_r.
Qed.

Lemma processData_eq (dp : DataProcessor.t) (buffer : list num) (k : nat) :
  DataProcessor.consistent dp ->
  DataProcessor.cubeData dp = Some buffer ->
  (List.length (DataProcessor.data dp) * 8 <= List.length buffer)%nat ->
  DataProcessor.processData rand fullYear dp k =
  (Some (DataProcessor.set_cubeData dp
           (Some (DataProcessor.rows fullYear
                    (fst (DataProcessor.positionsFrom rand dp (DataProcessor.data dp) 0 k))
                    (DataProcessor.data dp)
                  ++ skipn (List.length (DataProcessor.data dp) * 8) buffer))),
   snd (DataProcessor.positionsFrom rand dp (DataProcessor.data dp) 0 k)).
Proof.
  intros Hc Hb Hl. unfold DataProcessor.processData, bind.
  rewrite (cubeInstances_eq dp k Hc), Hb. unfold ret. f_equal. f_equal. f_equal. f_equal.
  unfold writeBuffer.
  rewrite rows_length by apply positionsFrom_length.
  destruct (Nat.leb_spec (List.length (DataProcessor.data dp) * 8) (List.length buffer));
    [reflexivity | lia].
Qed.

Lemma at_rows (ps : list vec3) (articles : list Article) (tail : list num) :
  forall (i j : nat) (p : vec3) (a : Article),
    nth_error ps i = Some p -> nth_error articles i = Some a -> (j < 8)%nat ->
    at_ (DataProcessor.rows fullYear ps articles ++ tail) (i * 8 + j) =
    at_ (DataProcessor.instanceFloats fullYear p a) j.
Proof.
  revert articles. induction ps as [|p0 ps IH]; intros [|a0 articles] i j p a Hp Ha Hj;
    try (destruct i; discriminate).
  destruct i as [|i].
  - simpl in Hp, Ha. injection Hp as <-. injection Ha as <-.
    unfold DataProcessor.rows. cbn [combine map List.concat fst snd].
    unfold at_. rewrite <- app_assoc. simpl Nat.mul. simpl Nat.add.
    apply app_nth1. rewrite instanceFloats_length. exact Hj.
  - simpl in Hp, Ha.
    unfold DataProcessor.rows. cbn [combine map List.concat fst snd].
    unfold at_. rewrite <- app_assoc.
    rewrite app_nth2 by (rewrite instanceFloats_length; lia).
    rewrite instanceFloats_length.
    replace (S i * 8 + j - 8)%nat with (i * 8 + j)%nat by lia.
    apply (IH articles i j p a Hp Ha Hj).
Qed.

Lemma positionsFrom_nth (dp : DataProcessor.t) (articles : list Article) :
  forall (i0 k i : nat) (a : Article),
    nth_error articles i = Some a ->
    exists (p : vec3) (k' : nat),
      nth_error (fst (DataProcessor.positionsFrom rand dp articles i0 k)) i = Some p /\
      p = fst (DataProcessor.calculatePosition rand dp a (i0 + i) k').
Proof.
  induction articles as [|a0 rest IH]; intros i0 k i a Ha.
  - destruct i; discriminate.
  - simpl. unfold bind.
    destruct (DataProcessor.calculatePosition rand dp a0 i0 k) as [p0 k1] eqn:E0.
    destruct (DataProcessor.positionsFrom rand dp rest (S i0) k1) as [ps k2] eqn:E1.
    destruct i as [|i]; simpl in Ha |- *.
    + injection Ha as <-. exists p0, k. rewrite Nat.add_0_r, E0. auto.
    + destruct (IH (S i0) k1 i a Ha) as (p & k' & H1 & H2).
      rewrite E1 in H1. exists p, k'. split; [exact H1|].
      now replace (i0 + S i)%nat with (S i0 + i)%nat by lia.
Qed.

(** After [processData] every instance of the buffer has its selected flag
    at zero. *)
Lemma processData_selected_zero (dp : DataProcessor.t) (buffer : list num) (k : nat) :
  DataProcessor.consistent dp ->
  DataProcessor.cubeData dp = Some buffer ->
  (List.length (DataProcessor.data dp) * 8 <= List.length buffer)%nat ->
  exists buffer',
    fst (DataProcessor.processData rand fullYear dp k)
    = Some (DataProcessor.set_cubeData dp (Some buffer')) /\
    forall i, (i < List.length (DataProcessor.data dp))%nat ->
              DataProcessor.instance_selected buffer' i = Fin 0.
Proof.
  intros Hc Hb Hl. rewrite (processData_eq dp buffer k Hc Hb Hl). simpl fst.
  eexists. split; [reflexivity|]. intros i Hi.
  destruct (nth_error (DataProcessor.data dp) i) as [a|] eqn:Ha.
  2:{ apply nth_error_None in Ha. lia. }
  destruct (positionsFrom_nth dp _ 0 k i a Ha) as (p & k' & Hp & _).
  unfold DataProcessor.instance_selected.
  rewrite (at_rows _ _ _ i 7 p a Hp Ha) by lia. apply toFloat32_zero.
Qed.

End Layout.

(** ** The states the processor goes through are ready *)

Section Ready.

Variable rand : nat -> num.
Variable fullYear : Z.

Lemma processData_ready (dp : DataProcessor.t) (k : nat) :
  DataProcessor.ready dp ->
  exists dp',
    fst (DataProcessor.processData rand fullYear dp k) = Some dp' /\
    DataProcessor.ready dp' /\
    DataProcessor.data dp' = DataProcessor.data dp /\
    DataProcessor.layoutMode dp' = DataProcessor.layoutMode dp.
Proof.
  intros (Hc & buffer & Hb & Hl).
  rewrite (processData_eq rand fullYear dp buffer k Hc Hb Hl). cbn [fst].
  eexists. split; [reflexivity|]. split; [|split; reflexivity].
  split; [exact Hc|]. eexists. split; [reflexivity|].
  cbn [DataProcessor.data DataProcessor.set_cubeData].
  rewrite length_app, rows_length by apply positionsFrom_length.
  lia.
Qed.

Lemma uploadData_ready (dp : DataProcessor.t) (records : list Article) (k : nat) :
  exists dp',
    fst (DataProcessor.uploadData rand fullYear dp records k) = Some dp' /\
    DataProcessor.ready dp' /\
    DataProcessor.data dp' = records /\
    DataProcessor.layoutMode dp' = DataProcessor.layoutMode dp.
Proof.
  unfold DataProcessor.uploadData.
  apply (processData_ready
           (DataProcessor.Build records
              (Some (repeat (Fin 0) (List.length records * 32 / 4)))
              (List.length records) (DataProcessor.layoutMode dp)) k).
  split; [reflexivity|]. eexists. split; [reflexivity|].
  cbn [DataProcessor.data]. rewrite repeat_length.
  replace (List.length records * 32)%nat with ((List.length records * 8) * 4)%nat by lia.
  rewrite Nat.div_mul by lia. lia.
Qed.

Lemma deleteArticles_ready (dp : DataProcessor.t) (pmids : list string) (k : nat) :
  DataProcessor.ready dp ->
  exists dp',
    fst (DataProcessor.deleteArticles rand fullYear dp pmids k) = Some dp' /\
    DataProcessor.ready dp'.
Proof.
  intros (Hc & buffer & Hb & Hl). unfold DataProcessor.deleteArticles.
  set (d := filter (fun article => negb (includes pmids (PMID article)))
                   (DataProcessor.data dp)).
  destruct (processData_ready
              (DataProcessor.Build d (DataProcessor.cubeData dp) (List.length d)
                 (DataProcessor.layoutMode dp)) k) as (dp' & H1 & H2 & _).
  - split; [reflexivity|]. exists buffer. split; [exact Hb|].
    cbn [DataProcessor.data].
    assert (H : (List.length d <= List.length (DataProcessor.data dp))%nat)
      by apply filter_length_le.
    lia.
  - exists dp'. split; assumption.
Qed.

Lemma setLayoutMode_ready (dp : DataProcessor.t) (mode : string) :
  DataProcessor.ready dp -> DataProcessor.ready (DataProcessor.setLayoutMode dp mode).
Proof. intros H. exact H. Qed.

End Ready.

(** C1, as the code has it.  After [recomputeLayout] has completed on a
    loaded processor, under every layout mode, every instance of the
    rewritten buffer has its selected flag at zero, whether or not its
    record is in the selected set of the selection system: [processData]
    stores the constant [0] there and never reads the selection system,
    whose state it leaves as it was.  (The specification says that the flags of
    the selected records are applied again.) *)
Theorem recompute_resets_selected_flags :
  forall (rand : nat -> num) (fullYear : Z) (dp : DataProcessor.t) (buffer : list num)
         (k : nat),
    DataProcessor.consistent dp ->
    DataProcessor.cubeData dp = Some buffer ->
    (List.length (DataProcessor.data dp) * 8 <= List.length buffer)%nat ->
    exists buffer',
      fst (DataProcessor.recomputeLayout rand fullYear dp k)
      = Some (DataProcessor.set_cubeData dp (Some buffer')) /\
      forall i, (i < List.length (DataProcessor.data dp))%nat ->
                DataProcessor.instance_selected buffer' i = Fin 0.
Proof.
  intros rand fullYear dp buffer k Hc Hb Hl.
  unfold DataProcessor.recomputeLayout.
  exact (processData_selected_zero rand fullYear dp buffer k Hc Hb Hl).
Qed.

Lemma recompute_resets_selected_flags_witness :
  exists buffer',
    fst (DataProcessor.recomputeLayout rand_half 2025 loaded_ab 0%nat)
    = Some (DataProcessor.set_cubeData loaded_ab (Some buffer')) /\
    forall i, (i < List.length (DataProcessor.data loaded_ab))%nat ->
              DataProcessor.instance_selected buffer' i = Fin 0.
Proof.
  apply (recompute_resets_selected_flags rand_half 2025 loaded_ab (repeat (Fin 0) 16) 0%nat).
  - reflexivity.
  - reflexivity.
  - simpl. lia.
Defined.

Lemma Fin_0_not_1 : Fin 0 <> Fin 1.
Proof. intros H. injection H as H. lra. Qed.

Lemma recompute_drops_selected_flag :
  In "a"%string (SelectionSystem.getSelected selected_a) /\
  exists buffer',
    fst (DataProcessor.recomputeLayout rand_half 2025 loaded_a 0%nat)
    = Some (DataProcessor.set_cubeData loaded_a (Some buffer')) /\
    nth_error (DataProcessor.data loaded_a) 0 = Some article_a /\
    DataProcessor.instance_selected buffer' 0 <> Fin 1.
Proof.
  split.
  - vm_compute. auto.
  - assert (Hl : (List.length (DataProcessor.data loaded_a) * 8
                  <= List.length (repeat (Fin 0) 8))%nat) by (simpl; lia).
    destruct (processData_selected_zero rand_half 2025 loaded_a (repeat (Fin 0) 8) 0%nat
                eq_refl eq_refl Hl) as (b & Hb & H0).
    exists b. split; [exact Hb|]. split; [reflexivity|].
    rewrite (H0 0%nat) by (simpl; lia). apply Fin_0_not_1.
Qed.

Lemma select_unknown_id_witness :
  (forall s, SelectionSystem.selectByPMID s loaded_a "b" true = (Fulfilled false, s)) /\
  (forall s, SelectionSystemSimplified.selectByPMID s loaded_a "b" true = (false, s)).
Proof.
  apply (select_unknown_id_is_atomic loaded_a "b" true).
  intros a [<-|[]]. discriminate.
Defined.

(** ** Deleting records *)

Lemma In_set_delete (l : list string) (p x : string) :
  In x (set_delete l p) <-> In x l /\ x <> p.
Proof.
  unfold set_delete. rewrite filter_In, negb_true_iff, String.eqb_neq. reflexivity.
Qed.

Lemma In_fold_set_delete (pmids : list string) :
  forall (l : list string) (x : string),
    In x (fold_left set_delete pmids l) <-> In x l /\ ~ In x pmids.
Proof.
  induction pmids as [|p pmids IH]; intros l x; simpl.
  - tauto.
  - rewrite IH, In_set_delete. intuition congruence.
Qed.

Lemma includes_In (l : list string) (x : string) : includes l x = true <-> In x l.
Proof.
  unfold includes. rewrite existsb_exists. split.
  - intros (y & Hy & E). apply String.eqb_eq in E. now subst.
  - intros H. exists x. split; [exact H | apply String.eqb_refl].
Qed.

(** No deleted identifier stays in the selected set. *)
Lemma deleteArticles_not_selected (s : SelectionSystem.t) (dp : DataProcessor.t)
  (pmids : list string) (x : string) :
  In x pmids -> ~ In x (SelectionSystem.getSelected (SelectionSystem.deleteArticles s dp pmids)).
Proof.
  intros Hx H. unfold SelectionSystem.deleteArticles, SelectionSystem.getSelected in H.
  simpl in H. apply In_fold_set_delete in H. tauto.
Qed.

Lemma filter_negb_length {A : Type} (p : A -> bool) (l : list A) :
  (List.length (filter (fun a => negb (p a)) l) + List.length (filter p l)
   = List.length l)%nat.
Proof.
  induction l as [|a l IH]; simpl; [reflexivity|].
  destruct (p a); simpl; lia.
Qed.

(** The instance count after a delete is the record count less the
    records whose identifier is deleted, and the records that stay keep
    their order. *)
Lemma deleteArticles_count (rand : nat -> num) (fullYear : Z) (dp dp' : DataProcessor.t)
  (pmids : list string) (k : nat) :
  fst (DataProcessor.deleteArticles rand fullYear dp pmids k) = Some dp' ->
  DataProcessor.data dp'
  = filter (fun a => negb (includes pmids (PMID a))) (DataProcessor.data dp) /\
  (DataProcessor.instanceCount dp'
   + List.length (filter (fun a => includes pmids (PMID a)) (DataProcessor.data dp))
   = List.length (DataProcessor.data dp))%nat.
Proof.
  unfold DataProcessor.deleteArticles, DataProcessor.processData, bind.
  destruct (DataProcessor.cubeInstances rand fullYear _ k) as [inst k'].
  simpl DataProcessor.cubeData. destruct (DataProcessor.cubeData dp) as [b|]; simpl; intros H.
  - injection H as <-. simpl. split; [reflexivity|].
    apply (filter_negb_length (fun a => includes pmids (PMID a))).
  - discriminate.
Qed.

(** The selection system's [deleteArticles] never writes the highlighted
    identifier. *)
Lemma deleteArticles_highlight (s : SelectionSystem.t) (dp : DataProcessor.t)
  (pmids : list string) :
  SelectionSystem.highlightedPMID (SelectionSystem.deleteArticles s dp pmids)
  = SelectionSystem.highlightedPMID s.
Proof. reflexivity. Qed.

(** C2, at a failing input.  The records ["a"] and ["b"] are loaded and
    ["a"] is selected, so that it is also the highlighted record.  After
    [DataProcessor.deleteArticles] and [SelectionSystem.deleteArticles] of
    ["a"], one instance is left and no identifier is selected, as the
    specification says, but the highlighted identifier is still ["a"]: the
    specification says that it is cleared, and [selectByPMID] does clear it
    when it takes a record out of the selected set. *)
Theorem delete_leaves_highlight_on_deleted_record :
  SelectionSystem.getSelected selected_ab = ["a"%string] /\
  SelectionSystem.highlightedPMID selected_ab = Some "a"%string /\
  exists dp',
    fst (DataProcessor.deleteArticles rand_half 2025 loaded_ab ["a"%string] 0%nat) = Some dp' /\
    DataProcessor.data dp' = [article_b] /\
    DataProcessor.instanceCount dp' = 1%nat /\
    SelectionSystem.getSelected (SelectionSystem.deleteArticles selected_ab dp' ["a"%string])
    = [] /\
    SelectionSystem.highlightedPMID (SelectionSystem.deleteArticles selected_ab dp' ["a"%string])
    = Some "a"%string.
Proof.
  split; [reflexivity|]. split; [reflexivity|].
  destruct (DataProcessor.deleteArticles rand_half 2025 loaded_ab ["a"%string] 0%nat)
    as [[dp'|] k'] eqn:E.
  - exists dp'. split; [reflexivity|].
    destruct (deleteArticles_count rand_half 2025 loaded_ab dp' ["a"%string] 0%nat) as [Hd Hc].
    { now rewrite E. }
    split; [exact Hd|]. split; [simpl in Hc; lia|]. split; reflexivity.
  - exfalso. unfold DataProcessor.deleteArticles, DataProcessor.processData, bind in E.
    destruct (DataProcessor.cubeInstances rand_half 2025 _ 0%nat) as [inst k0].
    discriminate E.
Qed.

(** ** The colour of a record *)

Lemma year_or_2000 (pubYear : string) :
  js_or (parseInt pubYear) (Fin 2000) = Fin (IZR (yearOf pubYear)).
Proof.
  unfold parseInt, yearOf. destruct (parseIntZ pubYear) as [z|]; [|reflexivity].
  unfold js_or, of_Z, truthy. destruct (Z.eqb_spec z 0) as [->|Hz].
  - replace (Reqb (IZR 0) 0) with true; [reflexivity|].
    symmetry. now apply Reqb_true.
  - replace (Reqb (IZR z) 0) with false; [reflexivity|].
    symmetry. apply Reqb_false. intros E. apply Hz. now apply eq_IZR.
Qed.

Lemma clamp_Fin (t : R) :
  Math.min (Fin 1) (Math.max (Fin 0) (Fin t)) = Fin (clamp01 t).
Proof.
  unfold clamp01, Math.max, Math.min, ltb, Rltb, Rmin, Rmax.
  destruct (Rlt_dec 0 t); destruct (Rle_dec 0 t); try lra;
    repeat match goal with
      | |- context [Rlt_dec ?a ?b] => destruct (Rlt_dec a b)
      | |- context [Rle_dec ?a ?b] => destruct (Rle_dec a b)
      end; try reflexivity; try lra; f_equal; lra.
Qed.

Lemma clamp01_range (t : R) : (0 <= clamp01 t <= 1)%R.
Proof.
  unfold clamp01, Rmax.
  destruct (Rle_dec 0 t); unfold Rmin; destruct (Rle_dec 1 _); lra.
Qed.

Lemma calculateColor_eq (fullYear : Z) (a : Article) :
  (1950 < fullYear)%Z ->
  DataProcessor.calculateColor fullYear a
  = Vec3 (Fin (colorKey fullYear (PubYear a))) (Fin (1 / 5))
         (Fin (1 - colorKey fullYear (PubYear a))).
Proof.
  intros Hy. unfold DataProcessor.calculateColor. rewrite year_or_2000.
  assert (Hd : (IZR fullYear - 1950 <> 0)%R).
  { apply IZR_lt in Hy. lra. }
  unfold of_Z. cbn [sub neg add].
  replace (IZR fullYear + - (1950))%R with (IZR fullYear - 1950)%R by lra.
  rewrite div_Fin by exact Hd.
  rewrite clamp_Fin. unfold colorKey.
  replace (IZR (yearOf (PubYear a)) + - (1950))%R
    with (IZR (yearOf (PubYear a)) - 1950)%R by lra.
  reflexivity.
Qed.

Lemma mix_blue_red (t : R) :
  mix blue red t = Vec3 (Fin t) (Fin (1 / 5)) (Fin (1 - t)).
Proof. unfold mix, blue, red, lerp. f_equal; f_equal; lra. Qed.

Lemma parseInt_eq_yearOf (s1 s2 : string) :
  parseInt s1 = parseInt s2 -> yearOf s1 = yearOf s2.
Proof.
  unfold parseInt, yearOf.
  destruct (parseIntZ s1) as [z1|], (parseIntZ s2) as [z2|]; intros H;
    try discriminate; try reflexivity.
  injection H as H. apply eq_IZR in H. now subst.
Qed.

Lemma clamp01_id (t : R) : (0 <= t <= 1)%R -> clamp01 t = t.
Proof.
  intros H. unfold clamp01, Rmax.
  destruct (Rle_dec 0 t); unfold Rmin; destruct (Rle_dec 1 _); lra.
Qed.

Lemma key_in_range (fullYear y : Z) :
  (1950 <= y <= fullYear)%Z -> (1950 < fullYear)%Z ->
  (0 <= (IZR y - 1950) / (IZR fullYear - 1950) <= 1)%R.
Proof.
  intros [H1 H2] H3. apply IZR_le in H1, H2. apply IZR_lt in H3.
  assert (Hi : (0 < / (IZR fullYear - 1950))%R) by (apply Rinv_0_lt_compat; lra).
  assert (Hm : ((IZR fullYear - 1950) * / (IZR fullYear - 1950) = 1)%R)
    by (apply Rinv_r; lra).
  unfold Rdiv. split; nra.
Qed.

Lemma key_increasing (fullYear ya yb : Z) :
  (ya < yb)%Z -> (1950 < fullYear)%Z ->
  ((IZR ya - 1950) / (IZR fullYear - 1950) < (IZR yb - 1950) / (IZR fullYear - 1950))%R.
Proof.
  intros H1 H3. apply IZR_lt in H1, H3.
  assert (Hi : (0 < / (IZR fullYear - 1950))%R) by (apply Rinv_0_lt_compat; lra).
  unfold Rdiv. nra.
Qed.

Lemma yearOf_parsed (s : string) (y : Z) :
  parseIntZ s = Some y -> y <> 0%Z -> yearOf s = y.
Proof.
  intros H Hy. unfold yearOf. rewrite H. destruct (Z.eqb_spec y 0); congruence.
Qed.

(** The year of the clock has to differ from [minYear]: in 1950 a record
    of 1950 has the key [0 / 0]. *)
Lemma calculateColor_in_1950 :
  DataProcessor.calculateColor 1950 (mkArticle "x" "1950" "Nature")
  = Vec3 NaN (Fin (1 / 5)) NaN.
Proof.
  unfold DataProcessor.calculateColor. rewrite year_or_2000.
  change (yearOf (PubYear (mkArticle "x" "1950" "Nature"))) with 1950%Z.
  unfold of_Z. cbn [sub neg add].
  assert (E : Fin (1950 + - (1950)) / Fin (1950 + - (1950)) = NaN).
  { unfold div, signed_inf. destruct (Req_dec_T (1950 + - (1950)) 0); [reflexivity | lra]. }
  rewrite E. reflexivity.
Qed.

(** C9.  In a year after 1950, the colour of a record is the mix of the two
    fixed colours [blue] and [red] at the key of its year, which is
    [(year - 1950) / (fullYear - 1950)] clamped to the unit interval; two
    records whose years parse to the same number have the same colour; of
    two years between 1950 and the current year, the later one has the
    strictly greater red channel; and a record whose year does not parse
    has the colour of the year 2000. *)
Theorem color_is_a_function_of_the_year :
  forall fullYear : Z,
    (1950 < fullYear)%Z ->
    (forall a,
        DataProcessor.calculateColor fullYear a
        = mix blue red (colorKey fullYear (PubYear a)) /\
        (0 <= colorKey fullYear (PubYear a) <= 1)%R) /\
    (forall a b,
        parseInt (PubYear a) = parseInt (PubYear b) ->
        DataProcessor.calculateColor fullYear a = DataProcessor.calculateColor fullYear b) /\
    (forall a b ya yb,
        parseIntZ (PubYear a) = Some ya -> parseIntZ (PubYear b) = Some yb ->
        (1950 <= ya)%Z -> (ya < yb)%Z -> (yb <= fullYear)%Z ->
        exists ra rb,
          c0 (DataProcessor.calculateColor fullYear a) = Fin ra /\
          c0 (DataProcessor.calculateColor fullYear b) = Fin rb /\
          (ra < rb)%R) /\
    (forall a b,
        parseInt (PubYear a) = NaN -> parseIntZ (PubYear b) = Some 2000%Z ->
        DataProcessor.calculateColor fullYear a = DataProcessor.calculateColor fullYear b).
Proof.
  intros fullYear Hy. repeat split.
  - rewrite mix_blue_red. now apply calculateColor_eq.
  - apply clamp01_range.
  - apply clamp01_range.
  - intros a b H. rewrite !calculateColor_eq by exact Hy.
    unfold colorKey. now rewrite (parseInt_eq_yearOf _ _ H).
  - intros a b ya yb Ha Hb H1 H2 H3.
    rewrite !calculateColor_eq by exact Hy. simpl c0.
    exists (colorKey fullYear (PubYear a)), (colorKey fullYear (PubYear b)).
    split; [reflexivity|]. split; [reflexivity|].
    unfold colorKey.
    rewrite (yearOf_parsed _ ya Ha) by lia. rewrite (yearOf_parsed _ yb Hb) by lia.
    rewrite !clamp01_id by (apply key_in_range; lia).
    apply key_increasing; lia.
  - intros a b Ha Hb. rewrite !calculateColor_eq by exact Hy.
    unfold colorKey. replace (yearOf (PubYear a)) with (yearOf (PubYear b)); [reflexivity|].
    unfold yearOf. rewrite Hb. unfold parseInt in Ha.
    destruct (parseIntZ (PubYear a)); [discriminate Ha | reflexivity].
Qed.

Lemma color_of_later_year_witness :
  exists ra rb,
    c0 (DataProcessor.calculateColor 2025 article_a) = Fin ra /\
    c0 (DataProcessor.calculateColor 2025 article_b) = Fin rb /\
    (ra < rb)%R.
Proof.
  destruct (color_is_a_function_of_the_year 2025 ltac:(lia)) as (_ & _ & H & _).
  apply (H article_a article_b 1990%Z 2010%Z); try reflexivity; lia.
Defined.

(** ** Floors, ceilings and square roots of integers *)

Lemma Rfloor_spec (r : R) (z : Z) : (IZR z <= r < IZR z + 1)%R -> Rfloor r = z.
Proof.
  intros H. unfold Rfloor. symmetry. apply Int_part_spec. lra.
Qed.

Lemma Rceil_spec (r : R) (z : Z) : (IZR z - 1 < r <= IZR z)%R -> Rceil r = z.
Proof.
  intros H. unfold Rceil.
  assert (E : (- z)%Z = Int_part (- r)).
  { apply Int_part_spec. rewrite opp_IZR. lra. }
  rewrite <- E. lia.
Qed.

Lemma Rceil_pos (r : R) : (0 < r)%R -> (1 <= Rceil r)%Z.
Proof.
  intros H. unfold Rceil.
  destruct (base_Int_part (- r)) as [H1 H2].
  assert (H3 : (IZR (Int_part (- r)) < 0)%R) by lra.
  apply lt_IZR in H3. lia.
Qed.

Lemma Rfloor_div (a b : Z) :
  (0 < b)%Z -> Rfloor (IZR a / IZR b) = (a / b)%Z.
Proof.
  intros Hb. apply Rfloor_spec.
  assert (H1 := Z.mul_div_le a b Hb).
  assert (H2 := Z.mul_succ_div_gt a b Hb).
  apply IZR_le in H1. apply IZR_lt in H2.
  rewrite mult_IZR in H1. rewrite mult_IZR, succ_IZR in H2.
  assert (Hb' := IZR_lt _ _ Hb).
  assert (Hi : (0 < / IZR b)%R) by (apply Rinv_0_lt_compat; lra).
  set (q := IZR (a / b)) in *.
  assert (E1 : (IZR a / IZR b - q = (IZR a - IZR b * q) * / IZR b)%R) by (field; lra).
  assert (E2 : (q + 1 - IZR a / IZR b = (IZR b * (q + 1) - IZR a) * / IZR b)%R)
    by (field; lra).
  assert (P1 : (0 <= (IZR a - IZR b * q) * / IZR b)%R)
    by (apply Rmult_le_pos; lra).
  assert (P2 : (0 < (IZR b * (q + 1) - IZR a) * / IZR b)%R)
    by (apply Rmult_lt_0_compat; lra).
  lra.
Qed.

Lemma sqrt_between (n s : R) :
  (0 <= n)%R -> (1 <= s)%R -> ((s - 1) * (s - 1) < n)%R -> (n <= s * s)%R ->
  (s - 1 < sqrt n <= s)%R.
Proof.
  intros Hn Hs H1 H2.
  assert (Hr := sqrt_pos n). assert (Hq := sqrt_sqrt n Hn).
  split; nra.
Qed.

Lemma ceil_sqrt_nat (n : nat) :
  Math.ceil (Math.sqrt (of_nat n)) = of_Z (gridSide n).
Proof.
  unfold of_nat, of_Z at 1, gridSide.
  assert (Hn : (0 <= IZR (Z.of_nat n))%R) by (apply IZR_le; lia).
  rewrite sqrt_Fin by exact Hn. unfold Math.ceil. f_equal.
  destruct n as [|n].
  - change (Z.of_nat 0) with 0%Z. change (Z.sqrt_up 0) with 0%Z.
    rewrite sqrt_0. apply Rceil_spec. lra.
  - set (a := Z.of_nat (S n)) in *.
    assert (Ha : (0 < a)%Z) by (unfold a; lia).
    destruct (Z.sqrt_up_spec a Ha) as [H1 H2].
    assert (Hs : (1 <= Z.sqrt_up a)%Z) by (pose proof (Z.sqrt_up_pos a); lia).
    apply Rceil_spec. apply sqrt_between.
    + exact Hn.
    + now apply IZR_le in Hs.
    + apply IZR_lt in H1. rewrite mult_IZR in H1.
      replace (Z.pred (Z.sqrt_up a)) with (Z.sqrt_up a - 1)%Z in H1 by lia.
      rewrite minus_IZR in H1. exact H1.
    + apply IZR_le in H2. rewrite mult_IZR in H2. exact H2.
Qed.

Lemma div_nonneg (a b : R) : (0 <= a)%R -> (0 < b)%R -> (0 <= a / b)%R.
Proof.
  intros Ha Hb. unfold Rdiv. apply Rmult_le_pos; [exact Ha|].
  apply Rlt_le, Rinv_0_lt_compat, Hb.
Qed.

Lemma rem_integers (i : nat) (s : Z) :
  (0 < s)%Z -> of_nat i mod of_Z s = of_Z (Z.of_nat i mod s).
Proof.
  intros Hs. unfold of_nat, of_Z, rem.
  assert (Hs' := IZR_lt _ _ Hs).
  assert (Hi : (0 <= IZR (Z.of_nat i))%R) by (apply IZR_le; lia).
  destruct (Req_dec_T (IZR s) 0); [lra|]. f_equal.
  unfold Rtrunc. destruct (Rle_dec 0 (IZR (Z.of_nat i) / IZR s)) as [_|Hc].
  - rewrite (Rfloor_div _ _ Hs), (Z.mod_eq _ s) by lia.
    now rewrite minus_IZR, mult_IZR.
  - exfalso. apply Hc. now apply div_nonneg.
Qed.

Lemma floor_div_integers (i : nat) (s : Z) :
  (0 < s)%Z -> Math.floor (of_nat i / of_Z s) = of_Z (Z.of_nat i / s).
Proof.
  intros Hs. unfold of_nat, of_Z.
  assert (Hs' := IZR_lt _ _ Hs).
  rewrite div_Fin by lra. unfold Math.floor, of_Z. now rewrite (Rfloor_div _ _ Hs).
Qed.

Lemma gridSide_pos (n : nat) : (0 < n)%nat -> (0 < gridSide n)%Z.
Proof. intros H. unfold gridSide. apply Z.sqrt_up_pos. lia. Qed.

Lemma positionByGrid_eq (dp : DataProcessor.t) (article : Article) (i : nat) :
  (0 < DataProcessor.instanceCount dp)%nat ->
  DataProcessor.positionByGrid dp article i
  = gridPoint (gridSide (DataProcessor.instanceCount dp))
              (Z.of_nat i mod gridSide (DataProcessor.instanceCount dp))
              (Z.of_nat i / gridSide (DataProcessor.instanceCount dp)).
Proof.
  intros Hn. unfold DataProcessor.positionByGrid, gridPoint.
  rewrite ceil_sqrt_nat.
  assert (Hs := gridSide_pos _ Hn).
  rewrite (rem_integers _ _ Hs), (floor_div_integers _ _ Hs).
  unfold of_Z. rewrite div_Fin by lra. reflexivity.
Qed.

(** Evaluates the closed integers under [IZR]. *)
Ltac compute_IZR :=
  repeat match goal with
    | |- context [IZR ?z] =>
        lazymatch z with
        | Z0 => fail
        | Zpos _ => fail
        | Zneg _ => fail
        | _ => let z' := eval vm_compute in z in progress change z with z'
        end
    end.

Lemma gridPoint_of_four (i : nat) :
  (i < 4)%nat ->
  gridPoint (gridSide 4) (Z.of_nat i mod gridSide 4) (Z.of_nat i / gridSide 4)
  = nth i [ Vec3 (Fin (- (5 / 2))) (Fin 0) (Fin (- (5 / 2)));
            Vec3 (Fin 0) (Fin 0) (Fin (- (5 / 2)));
            Vec3 (Fin (- (5 / 2))) (Fin 0) (Fin 0);
            Vec3 (Fin 0) (Fin 0) (Fin 0) ] (Vec3 NaN NaN NaN).
Proof.
  intros Hi. change (gridSide 4) with 2%Z.
  destruct i as [|[|[|[|i]]]]; try lia; unfold gridPoint; cbn [nth];
    compute_IZR; f_equal; f_equal; lra.
Qed.

(** C3, as the code has it.  With [n] records the grid has the side
    [ceil(sqrt(n))] and record [i] is at the cell [(i mod side, i div side)],
    cells being 2.5 apart; the cell [(column, row)] is at
    [((column - side/2) * 2.5, 0, (row - side/2) * 2.5)], so that the grid
    starts at [-1.25 * side] on both axes.  For four records the positions are
    [(-2.5, 0, -2.5)], [(0, 0, -2.5)], [(-2.5, 0, 0)] and [(0, 0, 0)].  (The
    specification says that the grid is centred at the origin, with the positions
    [(-1.25, 0, -1.25)], ... for four records.) *)
Theorem grid_places_records_on_an_offset_lattice :
  forall (dp : DataProcessor.t) (article : Article) (i : nat),
    (i < DataProcessor.instanceCount dp)%nat ->
    let n := DataProcessor.instanceCount dp in
    let side := gridSide n in
    ((side - 1) * (side - 1) < Z.of_nat n <= side * side)%Z /\
    DataProcessor.positionByGrid dp article i
    = gridPoint side (Z.of_nat i mod side) (Z.of_nat i / side) /\
    (n = 4%nat ->
     DataProcessor.positionByGrid dp article i
     = nth i [ Vec3 (Fin (- (5 / 2))) (Fin 0) (Fin (- (5 / 2)));
               Vec3 (Fin 0) (Fin 0) (Fin (- (5 / 2)));
               Vec3 (Fin (- (5 / 2))) (Fin 0) (Fin 0);
               Vec3 (Fin 0) (Fin 0) (Fin 0) ] (Vec3 NaN NaN NaN)).
Proof.
  intros dp article i Hi n side.
  assert (Hn : (0 < n)%nat) by (unfold n; lia).
  split; [|split].
  - unfold side, gridSide.
    destruct (Z.sqrt_up_spec (Z.of_nat n)) as [H1 H2]; [lia|].
    replace (Z.sqrt_up (Z.of_nat n) - 1)%Z with (Z.pred (Z.sqrt_up (Z.of_nat n))) by lia.
    split; [exact H1 | exact H2].
  - apply positionByGrid_eq. exact Hn.
  - intros E. rewrite positionByGrid_eq by exact Hn. fold n. rewrite E.
    apply gridPoint_of_four. lia.
Qed.

Lemma grid_of_four_witness :
  DataProcessor.positionByGrid loaded_4 article_a 3
  = gridPoint (gridSide 4) (Z.of_nat 3 mod gridSide 4) (Z.of_nat 3 / gridSide 4).
Proof.
  assert (H : (3 < DataProcessor.instanceCount loaded_4)%nat) by (simpl; lia).
  exact (proj1 (proj2 (grid_places_records_on_an_offset_lattice loaded_4 article_a 3 H))).
Defined.

Lemma grid_of_four_is_off_centre :
  DataProcessor.positionByGrid loaded_4 (nth 0 four_records article_a) 0
  = Vec3 (Fin (- (5 / 2))) (Fin 0) (Fin (- (5 / 2))) /\
  Vec3 (Fin (- (5 / 2))) (Fin 0) (Fin (- (5 / 2)))
  <> Vec3 (Fin (- (5 / 4))) (Fin 0) (Fin (- (5 / 4))).
Proof.
  split.
  - rewrite positionByGrid_eq by (simpl; lia).
    apply (gridPoint_of_four 0). lia.
  - intros H. injection H as H _. lra.
Qed.

(** ** Every layout yields finite positions *)

Lemma vec3_finite_Fin (a b c : R) : vec3_finite (Vec3 (Fin a) (Fin b) (Fin c)).
Proof. repeat split. Qed.

Lemma positionByGrid_finite (dp : DataProcessor.t) (article : Article) (i : nat) :
  (0 < DataProcessor.instanceCount dp)%nat ->
  vec3_finite (DataProcessor.positionByGrid dp article i).
Proof.
  intros Hn. rewrite positionByGrid_eq by exact Hn. apply vec3_finite_Fin.
Qed.

Lemma positionByYear_finite (dp : DataProcessor.t) (article : Article) (i : nat) :
  vec3_finite (DataProcessor.positionByYear dp article i).
Proof.
  unfold DataProcessor.positionByYear. rewrite year_or_2000. apply vec3_finite_Fin.
Qed.

Lemma distinct_from_nonempty (l seen : list string) (x : string) :
  In x l -> ~ In x seen -> distinct_from seen l <> [].
Proof.
  revert seen. induction l as [|y l IH]; intros seen Hx Hs; [easy|].
  simpl. destruct (includes seen y) eqn:E; [|discriminate].
  apply IH.
  - destruct Hx as [->|Hx]; [|exact Hx].
    apply includes_In in E. contradiction.
  - exact Hs.
Qed.

Lemma positionByJournal_finite (rand : nat -> num) (dp : DataProcessor.t)
  (article : Article) (i k : nat) :
  random_source rand -> In article (DataProcessor.data dp) ->
  vec3_finite (fst (DataProcessor.positionByJournal rand dp article i k)).
Proof.
  intros Hr Ha. unfold DataProcessor.positionByJournal, bind, DataProcessor.random, ret.
  cbn [fst]. destruct (Hr k) as (r & -> & _).
  set (journals := distinct (map Source (DataProcessor.data dp))).
  assert (Hj : journals <> []).
  { apply (distinct_from_nonempty _ [] (Source article)); [|easy].
    now apply in_map. }
  assert (Hl : (IZR (Z.of_nat (List.length journals)) <> 0)%R).
  { intros E. apply eq_IZR in E. destruct journals; [easy | simpl in E; lia]. }
  unfold of_nat, of_Z. rewrite div_Fin by exact Hl. apply vec3_finite_Fin.
Qed.

Lemma clusterSize_pos (n : nat) :
  (0 < n)%nat ->
  exists c : Z, Math.ceil (Math.sqrt (of_nat n / Fin 4)) = of_Z c /\ (0 < c)%Z.
Proof.
  intros Hn. unfold of_nat, of_Z. rewrite div_Fin by lra.
  assert (H0 : (0 < IZR (Z.of_nat n) / 4)%R).
  { assert (H := IZR_lt 0 (Z.of_nat n) ltac:(lia)). lra. }
  rewrite sqrt_Fin by lra. unfold Math.ceil, of_Z.
  eexists. split; [reflexivity|].
  assert (H := Rceil_pos _ (sqrt_lt_R0 _ H0)). lia.
Qed.

Lemma positionByCluster_finite (rand : nat -> num) (dp : DataProcessor.t)
  (article : Article) (i k : nat) :
  random_source rand -> (0 < DataProcessor.instanceCount dp)%nat ->
  vec3_finite (fst (DataProcessor.positionByCluster rand dp article i k)).
Proof.
  intros Hr Hn. unfold DataProcessor.positionByCluster, bind, DataProcessor.random, ret.
  cbn [fst].
  destruct (clusterSize_pos _ Hn) as (c & -> & Hc).
  rewrite (rem_integers _ _ Hc), (floor_div_integers _ _ Hc).
  destruct (Hr k) as (r1 & -> & _). destruct (Hr (S k)) as (r2 & -> & _).
  destruct (Hr (S (S k))) as (r3 & -> & _).
  apply vec3_finite_Fin.
Qed.

Lemma calculatePosition_finite (rand : nat -> num) (dp : DataProcessor.t)
  (article : Article) (i k : nat) :
  random_source rand -> (0 < DataProcessor.instanceCount dp)%nat ->
  In article (DataProcessor.data dp) ->
  vec3_finite (fst (DataProcessor.calculatePosition rand dp article i k)).
Proof.
  intros Hr Hn Ha. unfold DataProcessor.calculatePosition.
  destruct (String.eqb _ "year"); [apply positionByYear_finite|].
  destruct (String.eqb _ "journal"); [now apply positionByJournal_finite|].
  destruct (String.eqb _ "cluster"); [now apply positionByCluster_finite|].
  now apply positionByGrid_finite.
Qed.

Lemma unit_component_key (fullYear : Z) (s : string) :
  unit_component (Fin (colorKey fullYear s))
  /\ unit_component (Fin (1 / 5)) /\ unit_component (Fin (1 - colorKey fullYear s)).
Proof.
  assert (H := clamp01_range ((IZR (yearOf s) - 1950) / (IZR fullYear - 1950))).
  fold (colorKey fullYear s) in H.
  repeat split; eexists; (split; [reflexivity | lra]).
Qed.

(** ** Every layout yields positions in the range of a 32-bit float *)

Lemma fits32_small (x y z : R) :
  (Rabs x <= 4294967296 * 8)%R -> (Rabs y <= 4294967296 * 8)%R ->
  (Rabs z <= 4294967296 * 8)%R ->
  fits32 (Vec3 (Fin x) (Fin y) (Fin z)).
Proof.
  intros Hx Hy Hz. exists x, y, z. rewrite float32_overflow_eq.
  split; [reflexivity|]. repeat split; lra.
Qed.

Lemma fits32_finite (v : vec3) :
  fits32 v -> vec3_finite (Vec3 (toFloat32 (c0 v)) (toFloat32 (c1 v)) (toFloat32 (c2 v))).
Proof.
  intros (x & y & z & -> & Hx & Hy & Hz). cbn [c0 c1 c2].
  rewrite !toFloat32_Fin by assumption. apply vec3_finite_Fin.
Qed.

Lemma IZR_count (n : nat) (i : Z) :
  (Z.of_nat n < 2 ^ 32)%Z -> (0 <= i <= Z.of_nat n)%Z -> (0 <= IZR i <= 4294967296)%R.
Proof.
  intros Hn [H0 H1]. split.
  - now apply (IZR_le 0).
  - apply (IZR_le i 4294967296). change (2 ^ 32)%Z with 4294967296%Z in Hn. lia.
Qed.

Lemma positionByGrid_fits (dp : DataProcessor.t) (article : Article) (i : nat) :
  (Z.of_nat (DataProcessor.instanceCount dp) < 2 ^ 32)%Z ->
  (i < DataProcessor.instanceCount dp)%nat ->
  fits32 (DataProcessor.positionByGrid dp article i).
Proof.
  intros Hn Hi. rewrite positionByGrid_eq by lia.
  set (n := DataProcessor.instanceCount dp) in *.
  assert (Hs := gridSide_pos n ltac:(lia)).
  assert (Hle : (gridSide n <= Z.of_nat n)%Z)
    by (unfold gridSide; apply Z.sqrt_up_le_lin; lia).
  assert (Hc := Z.mod_pos_bound (Z.of_nat i) (gridSide n) Hs).
  assert (Hr0 : (0 <= Z.of_nat i / gridSide n)%Z) by (apply Z.div_pos; lia).
  assert (Hr1 : (Z.of_nat i / gridSide n <= Z.of_nat i)%Z)
    by (apply Z.div_le_upper_bound; nia).
  assert (B1 := IZR_count n (gridSide n) Hn ltac:(lia)).
  assert (B2 := IZR_count n (Z.of_nat i mod gridSide n) Hn ltac:(lia)).
  assert (B3 := IZR_count n (Z.of_nat i / gridSide n) Hn ltac:(lia)).
  unfold gridPoint. apply fits32_small.
  - apply Rabs_le. lra.
  - rewrite Rabs_R0. lra.
  - apply Rabs_le. lra.
Qed.

Lemma findIndex_from_bounds {A : Type} (p : A -> bool) (l : list A) :
  forall k : Z,
    findIndex_from p l k = (-1)%Z
    \/ (k <= findIndex_from p l k < k + Z.of_nat (List.length l))%Z.
Proof.
  induction l as [|a l IH]; intros k; cbn [findIndex_from].
  - now left.
  - destruct (p a).
    + right. cbn [List.length]. lia.
    + destruct (IH (k + 1)%Z) as [H|H]; [now left|]. right. cbn [List.length]. lia.
Qed.

Lemma positionByYear_fits (dp : DataProcessor.t) (article : Article) (i : nat) :
  (Z.of_nat (List.length (DataProcessor.data dp)) < 2 ^ 32)%Z ->
  plain_year (PubYear article) ->
  fits32 (DataProcessor.positionByYear dp article i).
Proof.
  intros Hn [_ Hy]. unfold DataProcessor.positionByYear. rewrite year_or_2000.
  set (yearData := filter _ (DataProcessor.data dp)).
  set (yearIndex := findIndex _ yearData).
  assert (Hi : (-1 <= yearIndex <= Z.of_nat (List.length (DataProcessor.data dp)))%Z).
  { assert (Hl := filter_length_le
                    (fun a => String.eqb (PubYear a) (PubYear article))
                    (DataProcessor.data dp)).
    fold yearData in Hl. unfold yearIndex, findIndex.
    destruct (findIndex_from_bounds
                (fun a => String.eqb (PMID a) (PMID article)) yearData 0%Z) as [->|H]; lia. }
  change (2 ^ 32)%Z with 4294967296%Z in Hn.
  assert (B1 : (-1 <= IZR yearIndex <= 4294967296)%R).
  { split; [apply (IZR_le (-1)) | apply (IZR_le _ 4294967296)]; lia. }
  assert (B2 : (- 100000000000000000000000000000000000000
                <= IZR (yearOf (PubYear article))
                <= 100000000000000000000000000000000000000)%R).
  { change (10 ^ 38)%Z with 100000000000000000000000000000000000000%Z in Hy.
    split; [apply (IZR_le (- 100000000000000000000000000000000000000))
           | apply (IZR_le _ 100000000000000000000000000000000000000)]; lia. }
  unfold of_Z. cbn [sub neg add mul].
  eexists _, _, _. split; [reflexivity|]. rewrite float32_overflow_eq.
  split; [|split].
  - apply Rabs_def1; lra.
  - apply Rabs_def1; lra.
  - rewrite Rabs_R0. lra.
Qed.

Lemma positionByJournal_fits (rand : nat -> num) (dp : DataProcessor.t)
  (article : Article) (i k : nat) :
  random_source rand -> In article (DataProcessor.data dp) ->
  fits32 (fst (DataProcessor.positionByJournal rand dp article i k)).
Proof.
  intros Hr Ha. unfold DataProcessor.positionByJournal, bind, DataProcessor.random, ret.
  cbn [fst]. destruct (Hr k) as (r & -> & Hr0).
  set (journals := distinct (map Source (DataProcessor.data dp))).
  assert (Hj : journals <> []).
  { apply (distinct_from_nonempty _ [] (Source article)); [|easy].
    now apply in_map. }
  assert (Hl : (IZR (Z.of_nat (List.length journals)) <> 0)%R).
  { intros E. apply eq_IZR in E. destruct journals; [easy | simpl in E; lia]. }
  unfold of_nat, of_Z. rewrite div_Fin by exact Hl.
  cbn [Math.PI mul Math.cos Math.sin].
  match goal with
  | |- fits32 (Vec3 (Fin (cos ?t * 15)) _ (Fin (sin ?t * 15))) =>
      assert (Hc := COS_bound t); assert (Hs := SIN_bound t)
  end.
  apply fits32_small; apply Rabs_le; lra.
Qed.

Lemma positionByCluster_fits (rand : nat -> num) (dp : DataProcessor.t)
  (article : Article) (i k : nat) :
  random_source rand ->
  (Z.of_nat (DataProcessor.instanceCount dp) < 2 ^ 32)%Z ->
  (i < DataProcessor.instanceCount dp)%nat ->
  fits32 (fst (DataProcessor.positionByCluster rand dp article i k)).
Proof.
  intros Hr Hn Hi. unfold DataProcessor.positionByCluster, bind, DataProcessor.random, ret.
  cbn [fst].
  destruct (clusterSize_pos (DataProcessor.instanceCount dp) ltac:(lia)) as (c & -> & Hc).
  rewrite (rem_integers _ _ Hc), (floor_div_integers _ _ Hc).
  destruct (Hr k) as (r1 & -> & H1). destruct (Hr (S k)) as (r2 & -> & H2).
  destruct (Hr (S (S k))) as (r3 & -> & H3).
  assert (Hm := Z.mod_pos_bound (Z.of_nat i) c Hc).
  assert (Hm' : (Z.of_nat i mod c <= Z.of_nat i)%Z) by (apply Z.mod_le; lia).
  assert (Hd0 : (0 <= Z.of_nat i / c)%Z) by (apply Z.div_pos; lia).
  assert (Hd1 : (Z.of_nat i / c <= Z.of_nat i)%Z) by (apply Z.div_le_upper_bound; nia).
  assert (B1 := IZR_count _ (Z.of_nat i mod c) Hn ltac:(lia)).
  assert (B2 := IZR_count _ (Z.of_nat i / c) Hn ltac:(lia)).
  unfold of_Z. cbn [sub neg add mul].
  apply fits32_small; apply Rabs_le; lra.
Qed.

Lemma calculatePosition_fits (rand : nat -> num) (dp : DataProcessor.t)
  (article : Article) (i k : nat) :
  random_source rand -> DataProcessor.consistent dp ->
  (Z.of_nat (List.length (DataProcessor.data dp)) < 2 ^ 32)%Z ->
  (i < List.length (DataProcessor.data dp))%nat ->
  In article (DataProcessor.data dp) -> plain_year (PubYear article) ->
  fits32 (fst (DataProcessor.calculatePosition rand dp article i k)).
Proof.
  intros Hr Hc Hn Hi Ha Hy. unfold DataProcessor.calculatePosition.
  destruct (String.eqb _ "year"); [now apply positionByYear_fits|].
  destruct (String.eqb _ "journal"); [now apply positionByJournal_fits|].
  destruct (String.eqb _ "cluster").
  - apply positionByCluster_fits; [exact Hr | | ]; rewrite Hc; assumption.
  - apply positionByGrid_fits; rewrite Hc; assumption.
Qed.

(** C7, as the code has it.  [processData] on a loaded processor succeeds
    and uploads an array of exactly eight floats per record, under every
    layout mode and for the empty sequence of records too, which gives
    the empty array.  When the year fields are ASCII text and the years
    are below [10^38] in magnitude, the position of every instance is made
    of finite numbers and each component of its colour is a number of the
    unit interval.  The draws of [Math.random] are numbers of [[0, 1)], the
    current year is after 1950 and the records are fewer than [2^32], as
    the elements of an array are.  (The specification says that every position is
    finite; the year is read from the record and is not bounded.) *)
Theorem processData_gives_one_finite_tuple_per_record :
  forall (rand : nat -> num) (fullYear : Z) (dp : DataProcessor.t) (buffer : list num)
         (k : nat),
    random_source rand ->
    (1950 < fullYear)%Z ->
    DataProcessor.consistent dp ->
    DataProcessor.cubeData dp = Some buffer ->
    (List.length (DataProcessor.data dp) * 8 <= List.length buffer)%nat ->
    (Z.of_nat (List.length (DataProcessor.data dp)) < 2 ^ 32)%Z ->
    plain_years (DataProcessor.data dp) ->
    let instances := fst (DataProcessor.cubeInstances rand fullYear dp k) in
    fst (DataProcessor.processData rand fullYear dp k)
    = Some (DataProcessor.set_cubeData dp (Some (writeBuffer buffer instances))) /\
    List.length instances = (List.length (DataProcessor.data dp) * 8)%nat /\
    (forall i, (i < List.length (DataProcessor.data dp))%nat ->
       vec3_finite (DataProcessor.instance_position instances i) /\
       unit_component (c0 (DataProcessor.instance_color instances i)) /\
       unit_component (c1 (DataProcessor.instance_color instances i)) /\
       unit_component (c2 (DataProcessor.instance_color instances i))) /\
    (DataProcessor.data dp = [] -> instances = []).
Proof.
  intros rand fullYear dp buffer k Hr Hy Hc Hb Hl Hn Hyears instances.
  assert (Ei : instances
               = DataProcessor.rows fullYear
                   (fst (DataProcessor.positionsFrom rand dp (DataProcessor.data dp) 0 k))
                   (DataProcessor.data dp)).
  { unfold instances. now rewrite cubeInstances_eq. }
  split; [|split; [|split]].
  - unfold DataProcessor.processData, bind. fold instances.
    destruct (DataProcessor.cubeInstances rand fullYear dp k) as [inst k'].
    rewrite Hb. reflexivity.
  - rewrite Ei. apply rows_length, positionsFrom_length.
  - intros i Hi.
    destruct (nth_error (DataProcessor.data dp) i) as [a|] eqn:Ha.
    2:{ apply nth_error_None in Ha. lia. }
    destruct (positionsFrom_nth rand dp _ 0 k i a Ha) as (p & k' & Hp & Ep).
    assert (Hin : In a (DataProcessor.data dp)) by (eapply nth_error_In, Ha).
    assert (Hfit : fits32 p).
    { rewrite Ep. apply calculatePosition_fits; try assumption. now apply Hyears. }
    assert (At : forall j, (j < 8)%nat ->
                 at_ instances (i * 8 + j)
                 = at_ (DataProcessor.instanceFloats fullYear p a) j).
    { intros j Hj. rewrite Ei, <- (app_nil_r (DataProcessor.rows _ _ _)).
      now apply at_rows. }
    unfold DataProcessor.instance_position, DataProcessor.instance_color.
    rewrite <- (Nat.add_0_r (i * 8)) at 1.
    rewrite !At by lia.
    unfold DataProcessor.instanceFloats, at_. cbn [nth].
    rewrite calculateColor_eq by exact Hy. cbn [c0 c1 c2].
    assert (Hk := clamp01_range ((IZR (yearOf (PubYear a)) - 1950) / (IZR fullYear - 1950))).
    fold (colorKey fullYear (PubYear a)) in Hk.
    rewrite !toFloat32_unit by lra.
    split; [now apply fits32_finite | apply unit_component_key].
  - intros E. rewrite Ei, E. reflexivity.
Qed.

Lemma plain_years_of_four : plain_years (DataProcessor.data loaded_4).
Proof.
  intros a Ha. simpl in Ha.
  repeat (destruct Ha as [<-|Ha]; [split; [reflexivity | vm_compute; reflexivity]|]).
  contradiction.
Qed.

Lemma processData_of_four_witness :
  List.length (fst (DataProcessor.cubeInstances rand_half 2025 loaded_4 0%nat))
  = (List.length (DataProcessor.data loaded_4) * 8)%nat.
Proof.
  assert (Hr : random_source rand_half).
  { intros k. exists (1 / 2)%R. split; [reflexivity | lra]. }
  assert (Hl : (List.length (DataProcessor.data loaded_4) * 8
                <= List.length (repeat (Fin 0) 32))%nat) by (simpl; lia).
  assert (Hn : (Z.of_nat (List.length (DataProcessor.data loaded_4)) < 2 ^ 32)%Z)
    by (simpl; lia).
  exact (proj1 (proj2 (processData_gives_one_finite_tuple_per_record
                         rand_half 2025 loaded_4 (repeat (Fin 0) 32) 0%nat
                         Hr ltac:(lia) eq_refl eq_refl Hl Hn plain_years_of_four))).
Defined.

(** The year of the record [article_far]. *)
Lemma yearOf_far : yearOf (PubYear article_far) = (10 ^ 39)%Z.
Proof. vm_compute. reflexivity. Qed.

(** One record whose year is [10^39], under the year layout: [processData]
    succeeds, and the first float of the instance, three times the
    distance of the year to 1990, is [Infinity] in the [Float32Array]. *)
Lemma processData_of_a_far_year_is_not_finite :
  exists instances : list num,
    fst (DataProcessor.processData rand_half 2025 loaded_far 0%nat)
    = Some (DataProcessor.set_cubeData loaded_far (Some instances)) /\
    List.length instances = 8%nat /\
    c0 (DataProcessor.instance_position instances 0) = PInf /\
    ~ vec3_finite (DataProcessor.instance_position instances 0).
Proof.
  assert (Hl : (List.length (DataProcessor.data loaded_far) * 8
                <= List.length (repeat (Fin 0) 8))%nat) by (simpl; lia).
  rewrite (processData_eq rand_half 2025 loaded_far (repeat (Fin 0) 8) 0%nat
             eq_refl eq_refl Hl).
  cbn [fst]. eexists. split; [reflexivity|].
  assert (Ex : c0 (DataProcessor.positionByYear loaded_far article_far 0)
               = Fin ((IZR (10 ^ 39) - 1990) * 3)).
  { unfold DataProcessor.positionByYear. rewrite year_or_2000, yearOf_far.
    cbn [c0 sub neg add mul]. reflexivity. }
  assert (E0 : c0 (DataProcessor.instance_position
                     (DataProcessor.rows 2025
                        (fst (DataProcessor.positionsFrom rand_half loaded_far
                                (DataProcessor.data loaded_far) 0 0%nat))
                        (DataProcessor.data loaded_far)
                      ++ skipn (List.length (DataProcessor.data loaded_far) * 8)
                           (repeat (Fin 0) 8)) 0) = PInf).
  { assert (Hps : fst (DataProcessor.positionsFrom rand_half loaded_far
                             (DataProcessor.data loaded_far) 0 0%nat)
                    = [DataProcessor.positionByYear loaded_far article_far 0])
      by reflexivity.
    rewrite Hps. change (DataProcessor.data loaded_far) with [article_far].
    unfold DataProcessor.instance_position. cbn [c0].
    change (0 * 8)%nat with (0 * 8 + 0)%nat.
    rewrite (at_rows 2025 [DataProcessor.positionByYear loaded_far article_far 0]
               [article_far] _ 0 0 (DataProcessor.positionByYear loaded_far article_far 0)
               article_far eq_refl eq_refl) by lia.
    unfold DataProcessor.instanceFloats, at_. cbn [nth]. rewrite Ex.
    apply toFloat32_overflows. rewrite float32_overflow_eq.
    change (10 ^ 39)%Z with 1000000000000000000000000000000000000000%Z. lra. }
  split; [|split].
  - rewrite length_app, rows_length by reflexivity. reflexivity.
  - exact E0.
  - intros (H & _). rewrite E0 in H. discriminate H.
Qed.

(** Loading no record at all is not an error: the buffer is empty. *)
Lemma uploadData_empty (rand : nat -> num) (fullYear : Z) (dp : DataProcessor.t) (k : nat) :
  DataProcessor.uploadData rand fullYear dp [] k
  = (Some (DataProcessor.Build [] (Some []) 0 (DataProcessor.layoutMode dp)), k).
Proof. reflexivity. Qed.

(** ** Vectors of finite numbers *)

Lemma vec3_finite_inv (v : vec3) :
  vec3_finite v -> exists a b c, v = Vec3 (Fin a) (Fin b) (Fin c).
Proof.
  destruct v as [[a| | |] [b| | |] [c| | |]]; intros (H0 & H1 & H2); try discriminate.
  now exists a, b, c.
Qed.

Lemma norm2_nonneg (a b c : R) : (0 <= norm2 a b c)%R.
Proof. unfold norm2. nra. Qed.

Lemma norm2_pos (a b c : R) : (a, b, c) <> (0, 0, 0)%R -> (0 < norm2 a b c)%R.
Proof.
  intros H. unfold norm2.
  destruct (Req_dec_T a 0) as [->|Ha]; [|nra].
  destruct (Req_dec_T b 0) as [->|Hb]; [|nra].
  destruct (Req_dec_T c 0) as [->|Hc]; [|nra].
  now destruct H.
Qed.

Lemma normalize_Fin (a b c : R) :
  (0 < norm2 a b c)%R ->
  CameraSystem.normalize (Vec3 (Fin a) (Fin b) (Fin c))
  = Vec3 (Fin (a / sqrt (norm2 a b c))) (Fin (b / sqrt (norm2 a b c)))
         (Fin (c / sqrt (norm2 a b c))).
Proof.
  intros H. unfold CameraSystem.normalize. cbn [c0 c1 c2 mul add].
  fold (norm2 a b c). rewrite sqrt_Fin by lra.
  assert (Hs := sqrt_lt_R0 _ H).
  rewrite !div_Fin by lra. reflexivity.
Qed.

Lemma updateMatrices_pose (c : CameraSystem.t) :
  CameraSystem.position (CameraSystem.updateMatrices c) = CameraSystem.position c /\
  CameraSystem.target (CameraSystem.updateMatrices c) = CameraSystem.target c /\
  CameraSystem.up (CameraSystem.updateMatrices c) = CameraSystem.up c.
Proof. repeat split. Qed.

Lemma viewBasis_depends_on_direction (c c' : CameraSystem.t) :
  viewDirection c' = viewDirection c -> CameraSystem.up c' = CameraSystem.up c ->
  CameraSystem.viewBasis c' = CameraSystem.viewBasis c.
Proof.
  unfold viewDirection, CameraSystem.viewBasis. intros -> ->. reflexivity.
Qed.

Lemma direction_nonzero (c : CameraSystem.t) (px py pz tx ty tz : R) :
  CameraSystem.position c = Vec3 (Fin px) (Fin py) (Fin pz) ->
  CameraSystem.target c = Vec3 (Fin tx) (Fin ty) (Fin tz) ->
  looks_somewhere c ->
  (0 < norm2 (tx + - px) (ty + - py) (tz + - pz))%R.
Proof.
  intros Hp Ht Hl. apply norm2_pos. intros E. injection E as E0 E1 E2.
  apply Hl. rewrite Hp, Ht. f_equal; f_equal; lra.
Qed.

Lemma moveForward_pose (c : CameraSystem.t) (distance : num) :
  let direction := CameraSystem.normalize (viewDirection c) in
  CameraSystem.position (CameraSystem.moveForward c distance)
  = translate (CameraSystem.position c) direction distance /\
  CameraSystem.target (CameraSystem.moveForward c distance)
  = translate (CameraSystem.target c) direction distance.
Proof. split; reflexivity. Qed.

Lemma moveRight_pose (c : CameraSystem.t) (distance : num) :
  let right := CameraSystem.cross (CameraSystem.normalize (viewDirection c))
                 (CameraSystem.up c) in
  CameraSystem.position (CameraSystem.moveRight c distance)
  = translate (CameraSystem.position c) right distance /\
  CameraSystem.target (CameraSystem.moveRight c distance)
  = translate (CameraSystem.target c) right distance.
Proof. split; reflexivity. Qed.

Lemma translate_keeps_difference (p t dir : vec3) (d : R) :
  vec3_finite p -> vec3_finite t -> vec3_finite dir ->
  CameraSystem.subtractVectors (translate t dir (Fin d)) (translate p dir (Fin d))
  = CameraSystem.subtractVectors t p.
Proof.
  intros Hp Ht Hd.
  destruct (vec3_finite_inv _ Hp) as (px & py & pz & ->).
  destruct (vec3_finite_inv _ Ht) as (tx & ty & tz & ->).
  destruct (vec3_finite_inv _ Hd) as (dx & dy & dz & ->).
  unfold CameraSystem.subtractVectors, translate. cbn [c0 c1 c2 sub neg add mul].
  f_equal; f_equal; ring.
Qed.

Lemma normalized_direction_finite (c : CameraSystem.t) :
  pose_finite c -> looks_somewhere c ->
  vec3_finite (CameraSystem.normalize (viewDirection c)).
Proof.
  intros (Hp & Ht & Hu) Hl.
  destruct (vec3_finite_inv _ Hp) as (px & py & pz & Ep).
  destruct (vec3_finite_inv _ Ht) as (tx & ty & tz & Et).
  assert (Hn := direction_nonzero c _ _ _ _ _ _ Ep Et Hl).
  unfold viewDirection. rewrite Ep, Et.
  unfold CameraSystem.subtractVectors. cbn [c0 c1 c2 sub neg add].
  rewrite (normalize_Fin _ _ _ Hn). apply vec3_finite_Fin.
Qed.

Lemma cross_finite (a b : vec3) :
  vec3_finite a -> vec3_finite b -> vec3_finite (CameraSystem.cross a b).
Proof.
  intros Ha Hb.
  destruct (vec3_finite_inv _ Ha) as (a0 & a1 & a2 & ->).
  destruct (vec3_finite_inv _ Hb) as (b0 & b1 & b2 & ->).
  apply vec3_finite_Fin.
Qed.

(** C10.  For every pose of finite numbers whose target is not its position,
    and every finite distance, [moveForward] and [moveRight] add one and the
    same vector to the position and to the target: the view direction
    [target - position] is the same after the move, [up] is the same, and
    so is the basis of the view matrix. *)
Theorem moves_keep_the_view_direction :
  forall (c : CameraSystem.t) (distance : num),
    pose_finite c -> looks_somewhere c -> is_finite distance = true ->
    (viewDirection (CameraSystem.moveForward c distance) = viewDirection c /\
     CameraSystem.up (CameraSystem.moveForward c distance) = CameraSystem.up c /\
     CameraSystem.viewBasis (CameraSystem.moveForward c distance) = CameraSystem.viewBasis c) /\
    (viewDirection (CameraSystem.moveRight c distance) = viewDirection c /\
     CameraSystem.up (CameraSystem.moveRight c distance) = CameraSystem.up c /\
     CameraSystem.viewBasis (CameraSystem.moveRight c distance) = CameraSystem.viewBasis c).
Proof.
  intros c distance Hpose Hl Hd.
  assert (Hdir := normalized_direction_finite c Hpose Hl).
  destruct Hpose as (Hp & Ht & Hu).
  destruct distance as [d| | |]; try discriminate.
  assert (Fwd : viewDirection (CameraSystem.moveForward c (Fin d)) = viewDirection c).
  { unfold viewDirection at 1.
    destruct (moveForward_pose c (Fin d)) as [-> ->].
    now apply translate_keeps_difference. }
  assert (Rgt : viewDirection (CameraSystem.moveRight c (Fin d)) = viewDirection c).
  { unfold viewDirection at 1.
    destruct (moveRight_pose c (Fin d)) as [-> ->].
    apply translate_keeps_difference; try assumption.
    now apply cross_finite. }
  split; (split; [assumption|]); (split; [reflexivity|]);
    apply viewBasis_depends_on_direction; try assumption; reflexivity.
Qed.

Lemma initial_camera_pose :
  CameraSystem.position initial_camera = Vec3 (Fin 0) (Fin (8 / 5)) (Fin 5) /\
  CameraSystem.target initial_camera = Vec3 (Fin 0) (Fin 0) (Fin 0) /\
  CameraSystem.up initial_camera = Vec3 (Fin 0) (Fin 1) (Fin 0).
Proof. repeat split. Qed.

Lemma initial_camera_valid : pose_finite initial_camera /\ looks_somewhere initial_camera.
Proof.
  destruct initial_camera_pose as (Ep & Et & Eu).
  split.
  - unfold pose_finite. rewrite Ep, Et, Eu. repeat split.
  - unfold looks_somewhere. rewrite Ep, Et. intros H. injection H as H1 H2. lra.
Qed.

Lemma moves_keep_the_view_direction_witness :
  viewDirection (CameraSystem.moveForward initial_camera (Fin 2)) = viewDirection initial_camera
  /\ viewDirection (CameraSystem.moveRight initial_camera (Fin 2)) = viewDirection initial_camera.
Proof.
  destruct (moves_keep_the_view_direction initial_camera (Fin 2)
              (proj1 initial_camera_valid) (proj2 initial_camera_valid) eq_refl)
    as [(H1 & _) (H2 & _)].
  split; [exact H1 | exact H2].
Defined.

(** ** The basis of the view matrix *)

Lemma norm2_normalized (a b c : R) :
  (0 < norm2 a b c)%R ->
  norm2 (a / sqrt (norm2 a b c)) (b / sqrt (norm2 a b c)) (c / sqrt (norm2 a b c)) = 1%R.
Proof.
  intros H. assert (Hs := sqrt_lt_R0 _ H).
  assert (Hq := sqrt_sqrt (norm2 a b c) (Rlt_le _ _ H)).
  set (L := sqrt (norm2 a b c)) in *.
  unfold norm2 at 1.
  replace (a / L * (a / L) + b / L * (b / L) + c / L * (c / L))%R
    with ((a * a + b * b + c * c) * (/ L * / L))%R by (unfold Rdiv; ring).
  fold (norm2 a b c). rewrite <- Hq. field. lra.
Qed.

Lemma cross_scaled_nonzero (ux uy uz dx dy dz L : R) :
  (0 < L)%R ->
  (0 < norm2 (uy * dz + - (uz * dy)) (uz * dx + - (ux * dz)) (ux * dy + - (uy * dx)))%R ->
  (0 < norm2 (uy * (dz / L) + - (uz * (dy / L))) (uz * (dx / L) + - (ux * (dz / L)))
             (ux * (dy / L) + - (uy * (dx / L))))%R.
Proof.
  intros HL H. assert (Hi : (0 < / L)%R) by now apply Rinv_0_lt_compat.
  match goal with |- (0 < ?n)%R =>
    replace n with (norm2 (uy * dz + - (uz * dy)) (uz * dx + - (ux * dz))
                      (ux * dy + - (uy * dx)) * (/ L * / L))%R
      by (unfold norm2, Rdiv; ring)
  end.
  apply Rmult_lt_0_compat; [exact H|]. now apply Rmult_lt_0_compat.
Qed.

Lemma orthonormal_completed (x0 x1 x2 z0 z1 z2 : R) :
  norm2 x0 x1 x2 = 1%R -> norm2 z0 z1 z2 = 1%R ->
  (x0 * z0 + x1 * z1 + x2 * z2 = 0)%R ->
  orthonormal (Vec3 (Fin x0) (Fin x1) (Fin x2))
              (CameraSystem.cross (Vec3 (Fin z0) (Fin z1) (Fin z2))
                                  (Vec3 (Fin x0) (Fin x1) (Fin x2)))
              (Vec3 (Fin z0) (Fin z1) (Fin z2)).
Proof.
  unfold norm2. intros Hx Hz Hxz.
  unfold orthonormal, CameraSystem.cross, CameraSystem.dot.
  cbn [c0 c1 c2 mul add sub neg].
  repeat split; f_equal; try assumption; try ring.
  - replace ((z1 * x2 + - (z2 * x1)) * (z1 * x2 + - (z2 * x1))
             + (z2 * x0 + - (z0 * x2)) * (z2 * x0 + - (z0 * x2))
             + (z0 * x1 + - (z1 * x0)) * (z0 * x1 + - (z1 * x0)))%R
      with ((z0 * z0 + z1 * z1 + z2 * z2) * (x0 * x0 + x1 * x1 + x2 * x2)
            - (x0 * z0 + x1 * z1 + x2 * z2) * (x0 * z0 + x1 * z1 + x2 * z2))%R by ring.
    rewrite Hx, Hz, Hxz. ring.
Qed.

Lemma not_parallel_norms (c : CameraSystem.t) (px py pz tx ty tz ux uy uz : R) :
  CameraSystem.position c = Vec3 (Fin px) (Fin py) (Fin pz) ->
  CameraSystem.target c = Vec3 (Fin tx) (Fin ty) (Fin tz) ->
  CameraSystem.up c = Vec3 (Fin ux) (Fin uy) (Fin uz) ->
  ~ up_parallel_to_view c ->
  (0 < norm2 (tx + - px) (ty + - py) (tz + - pz))%R /\
  (0 < norm2 (uy * (tz + - pz) + - (uz * (ty + - py)))
             (uz * (tx + - px) + - (ux * (tz + - pz)))
             (ux * (ty + - py) + - (uy * (tx + - px))))%R.
Proof.
  intros Ep Et Eu Hn.
  unfold up_parallel_to_view, viewDirection in Hn. rewrite Ep, Et, Eu in Hn.
  unfold CameraSystem.subtractVectors, CameraSystem.cross in Hn.
  cbn [c0 c1 c2 mul add sub neg] in Hn.
  assert (Hc : (0 < norm2 (uy * (tz + - pz) + - (uz * (ty + - py)))
                          (uz * (tx + - px) + - (ux * (tz + - pz)))
                          (ux * (ty + - py) + - (uy * (tx + - px))))%R).
  { apply norm2_pos. intros E. injection E as E0 E1 E2. apply Hn.
    now rewrite E0, E1, E2. }
  split; [|exact Hc].
  apply norm2_pos. intros E. injection E as E0 E1 E2.
  rewrite E0, E1, E2 in Hc. unfold norm2 in Hc. lra.
Qed.

Lemma cross_Fin (a0 a1 a2 b0 b1 b2 : R) :
  CameraSystem.cross (Vec3 (Fin a0) (Fin a1) (Fin a2)) (Vec3 (Fin b0) (Fin b1) (Fin b2))
  = Vec3 (Fin (a1 * b2 + - (a2 * b1))) (Fin (a2 * b0 + - (a0 * b2)))
         (Fin (a0 * b1 + - (a1 * b0))).
Proof. reflexivity. Qed.


Lemma initial_camera_regular : ~ up_parallel_to_view initial_camera.
Proof.
  unfold up_parallel_to_view, viewDirection.
  destruct initial_camera_pose as (-> & -> & ->).
  unfold CameraSystem.subtractVectors. cbn [c0 c1 c2 sub neg add].
  rewrite cross_Fin. intros H. injection H as H _. lra.
Qed.


Lemma normalize_zero (a b c : R) :
  a = 0%R -> b = 0%R -> c = 0%R ->
  CameraSystem.normalize (Vec3 (Fin a) (Fin b) (Fin c)) = Vec3 NaN NaN NaN.
Proof.
  intros -> -> ->. unfold CameraSystem.normalize. cbn [c0 c1 c2 mul add].
  replace (0 * 0 + 0 * 0 + 0 * 0)%R with 0%R by ring.
  rewrite sqrt_Fin by lra. rewrite sqrt_0.
  unfold div, signed_inf. destruct (Req_dec_T 0 0); [reflexivity | lra].
Qed.

(** The target has to differ from the position: otherwise the direction is
    [0 / 0] and the move leaves no number in the pose. *)
Lemma moveForward_from_nowhere (c : CameraSystem.t) (d : R) :
  vec3_finite (CameraSystem.position c) ->
  CameraSystem.target c = CameraSystem.position c ->
  CameraSystem.position (CameraSystem.moveForward c (Fin d)) = Vec3 NaN NaN NaN /\
  CameraSystem.target (CameraSystem.moveForward c (Fin d)) = Vec3 NaN NaN NaN.
Proof.
  intros Hp Et. destruct (vec3_finite_inv _ Hp) as (px & py & pz & Ep).
  destruct (moveForward_pose c (Fin d)) as [-> ->].
  unfold viewDirection. rewrite Et, Ep.
  unfold CameraSystem.subtractVectors. cbn [c0 c1 c2 sub neg add].
  rewrite normalize_zero by lra. split; reflexivity.
Qed.

(** When [up] is parallel to the view direction the vector [x] of
    [updateViewMatrix] is [0/0] in each component. *)
Lemma parallel_up_gives_NaN (c : CameraSystem.t) :
  pose_finite c -> looks_somewhere c -> up_parallel_to_view c ->
  fst (fst (CameraSystem.viewBasis c)) = Vec3 NaN NaN NaN.
Proof.
  intros (Hp & Ht & Hu) Hl Hpar.
  destruct (vec3_finite_inv _ Hp) as (px & py & pz & Ep).
  destruct (vec3_finite_inv _ Ht) as (tx & ty & tz & Et).
  destruct (vec3_finite_inv _ Hu) as (ux & uy & uz & Eu).
  assert (Hd := direction_nonzero c _ _ _ _ _ _ Ep Et Hl).
  unfold up_parallel_to_view, viewDirection in Hpar.
  unfold CameraSystem.viewBasis. cbn [fst]. rewrite Ep, Et, Eu in *.
  unfold CameraSystem.subtractVectors in *. cbn [c0 c1 c2 sub neg add] in *.
  rewrite cross_Fin in Hpar. injection Hpar as E0 E1 E2.
  rewrite (normalize_Fin _ _ _ Hd), cross_Fin.
  set (L := sqrt (norm2 (tx + - px) (ty + - py) (tz + - pz))).
  apply normalize_zero; unfold Rdiv.
  - replace (uy * ((tz + - pz) * / L) + - (uz * ((ty + - py) * / L)))%R
      with ((uy * (tz + - pz) + - (uz * (ty + - py))) * / L)%R by ring.
    rewrite E0. ring.
  - replace (uz * ((tx + - px) * / L) + - (ux * ((tz + - pz) * / L)))%R
      with ((uz * (tx + - px) + - (ux * (tz + - pz))) * / L)%R by ring.
    rewrite E1. ring.
  - replace (ux * ((ty + - py) * / L) + - (uy * ((tx + - px) * / L)))%R
      with ((ux * (ty + - py) + - (uy * (tx + - px))) * / L)%R by ring.
    rewrite E2. ring.
Qed.

Lemma camera_looking_up_pose :
  pose_finite camera_looking_up /\ looks_somewhere camera_looking_up /\
  up_parallel_to_view camera_looking_up.
Proof.
  assert (Ep : CameraSystem.position camera_looking_up = Vec3 (Fin 0) (Fin (8 / 5)) (Fin 5))
    by reflexivity.
  assert (Et : CameraSystem.target camera_looking_up = Vec3 (Fin 0) (Fin 6) (Fin 5))
    by reflexivity.
  assert (Eu : CameraSystem.up camera_looking_up = Vec3 (Fin 0) (Fin 1) (Fin 0))
    by reflexivity.
  split; [|split].
  - unfold pose_finite. rewrite Ep, Et, Eu. repeat split.
  - unfold looks_somewhere. rewrite Ep, Et. intros H. injection H as H. lra.
  - unfold up_parallel_to_view, viewDirection. rewrite Ep, Et, Eu.
    unfold CameraSystem.subtractVectors. cbn [c0 c1 c2 sub neg add].
    rewrite cross_Fin. f_equal; f_equal; ring.
Qed.

Lemma updateMatrices_viewMatrix (c : CameraSystem.t) :
  CameraSystem.viewMatrix (CameraSystem.updateMatrices c)
  = CameraSystem.viewMatrix (CameraSystem.updateViewMatrix c).
Proof. reflexivity. Qed.


(** ** Ray casting *)

Lemma testSphere_eq (origin direction : vec3) (closest : SelectionSystem.Closest)
  (cube : Article) (i : nat) (p : vec3) :
  SelectionSystem.testSphere origin direction closest cube i p
  = if (discriminant origin direction p >=? Fin 0)
       && ((entryDistance origin direction p >? Fin 0)
           && (entryDistance origin direction p <? snd closest))
    then (Some (SelectionSystem.mkHit i (PMID cube) cube (entryDistance origin direction p)),
          entryDistance origin direction p)
    else closest.
Proof.
  unfold SelectionSystem.testSphere. cbv zeta.
  fold (discriminant origin direction p). fold (entryDistance origin direction p).
  destruct (discriminant origin direction p >=? Fin 0); [|reflexivity].
  simpl andb. reflexivity.
Qed.

Lemma castFrom_scan (rand : nat -> num) (dp : DataProcessor.t) (origin direction : vec3)
  (cubes : list Article) :
  forall (i : nat) (closest : SelectionSystem.Closest) (k : nat),
    SelectionSystem.castFrom rand dp origin direction cubes i closest k
    = (scan origin direction cubes (fst (DataProcessor.positionsFrom rand dp cubes i k)) i closest,
       snd (DataProcessor.positionsFrom rand dp cubes i k)).
Proof.
  induction cubes as [|cube rest IH]; intros i closest k.
  - reflexivity.
  - simpl SelectionSystem.castFrom. simpl DataProcessor.positionsFrom. unfold bind.
    destruct (DataProcessor.calculatePosition rand dp cube i k) as [p k1].
    rewrite IH.
    destruct (DataProcessor.positionsFrom rand dp rest (S i) k1) as [ps k2].
    reflexivity.
Qed.

Lemma nth_error_snoc {A : Type} (l : list A) (x y : A) (j : nat) :
  nth_error (l ++ [x]) j = Some y ->
  nth_error l j = Some y \/ (j = List.length l /\ y = x).
Proof.
  intros H. destruct (Nat.lt_ge_cases j (List.length l)) as [Hj|Hj].
  - left. now rewrite nth_error_app1 in H.
  - right. rewrite nth_error_app2 in H by exact Hj.
    destruct (j - List.length l)%nat as [|m] eqn:E.
    + simpl in H. injection H as <-. split; [lia | reflexivity].
    + simpl in H. destruct m; discriminate.
Qed.

Lemma nth_error_snoc_old {A : Type} (l : list A) (x y : A) (j : nat) :
  nth_error l j = Some y -> nth_error (l ++ [x]) j = Some y.
Proof.
  intros H. rewrite nth_error_app1; [exact H|].
  apply nth_error_Some. congruence.
Qed.

Section Nearest.

Variables origin direction : vec3.

Lemma nearest_step (cubes : list Article) (ps : list vec3)
  (closest : SelectionSystem.Closest) (cube : Article) (p : vec3) :
  List.length ps = List.length cubes ->
  roots_finite origin direction (ps ++ [p]) ->
  nearest_of origin direction cubes ps closest ->
  nearest_of origin direction (cubes ++ [cube]) (ps ++ [p])
    (SelectionSystem.testSphere origin direction closest cube (List.length cubes) p).
Proof.
  intros Hlen Hfin Hinv. rewrite testSphere_eq.
  assert (Hp : In p (ps ++ [p])) by (apply in_or_app; right; now left).
  assert (Hold : forall q j, nth_error ps j = Some q -> In q (ps ++ [p])).
  { intros q j Hq. apply in_or_app. left. eapply nth_error_In, Hq. }
  destruct (accepted origin direction p) eqn:Hacc.
  - (* the cube is accepted *)
    destruct (Hfin p Hp Hacc) as (t & Et & Ht).
    unfold accepted in Hacc. apply andb_true_iff in Hacc as [Hd Hg].
    rewrite Hd, Hg. cbn [andb].
    destruct closest as [[h|] cd]; unfold nearest_of in Hinv |- *; cbn [fst snd] in *.
    + destruct Hinv as (Hcd & p0 & cube0 & Hp0 & Hc0 & Ha & Hi & Hacc0 & Hdist & Hmin).
      assert (Hin0 : (SelectionSystem.hit_index h < List.length ps)%nat)
        by (apply nth_error_Some; congruence).
      destruct (Hfin p0 (Hold _ _ Hp0) Hacc0) as (t0 & Et0 & Ht0).
      rewrite Hcd, Hdist, Et0, Et.
      destruct (Fin t <? Fin t0) eqn:Hlt; cbn [fst snd].
      * apply ltb_Fin in Hlt.
        split; [reflexivity|]. exists p, cube. cbn [SelectionSystem.hit_index
          SelectionSystem.hit_article SelectionSystem.hit_pmid SelectionSystem.hit_distance].
        rewrite <- Hlen at 1. rewrite nth_error_app2, Nat.sub_diag by lia.
        rewrite nth_error_app2, Nat.sub_diag by lia.
        repeat split; try reflexivity.
        -- unfold accepted. now rewrite Hd, Hg.
        -- exact (eq_sym Et).
        -- rewrite Et. destruct (nth_error_snoc _ _ _ _ H) as [Hq|[_ ->]].
           ++ destruct (Hfin q (Hold _ _ Hq) H0) as (tq & Eq & _).
              destruct (Hmin j q Hq H0) as [Hle _].
              rewrite Et0, Eq in Hle. apply leb_Fin in Hle.
              rewrite Eq. apply leb_Fin. lra.
           ++ rewrite Et. apply leb_Fin. lra.
        -- intros Hj. rewrite Et. destruct (nth_error_snoc _ _ _ _ H) as [Hq|[-> _]]; [|lia].
           destruct (Hfin q (Hold _ _ Hq) H0) as (tq & Eq & _).
           destruct (Hmin j q Hq H0) as [Hle _].
           rewrite Et0, Eq in Hle. apply leb_Fin in Hle.
           rewrite Eq. apply ltb_Fin. lra.
      * apply Rltb_false in Hlt.
        split; [congruence|]. exists p0, cube0.
        repeat split; try assumption.
        -- now apply nth_error_snoc_old.
        -- now apply nth_error_snoc_old.
        -- destruct (nth_error_snoc _ _ _ _ H) as [Hq|[_ ->]].
           ++ now apply (Hmin j q).
           ++ rewrite Et0, Et. apply leb_Fin. exact Hlt.
        -- intros Hj. destruct (nth_error_snoc _ _ _ _ H) as [Hq|[-> _]]; [|lia].
           now apply (Hmin j q).
    + destruct Hinv as (Hcd & Hnone). rewrite Hcd, Et. cbn [ltb fst snd].
      split; [reflexivity|]. exists p, cube. cbn [SelectionSystem.hit_index
        SelectionSystem.hit_article SelectionSystem.hit_pmid SelectionSystem.hit_distance].
      rewrite <- Hlen at 1. rewrite nth_error_app2, Nat.sub_diag by lia.
      rewrite nth_error_app2, Nat.sub_diag by lia.
      repeat split; try reflexivity.
      * unfold accepted. now rewrite Hd, Hg.
      * exact (eq_sym Et).
      * destruct (nth_error_snoc _ _ _ _ H) as [Hq|[_ ->]].
        -- rewrite (Hnone j q Hq) in H0. discriminate.
        -- rewrite Et. apply leb_Fin. lra.
      * intros Hj. destruct (nth_error_snoc _ _ _ _ H) as [Hq|[-> _]]; [|lia].
        rewrite (Hnone j q Hq) in H0. discriminate.
  - (* the cube is not accepted: the loop keeps what it had *)
    replace ((discriminant origin direction p >=? Fin 0)
             && ((entryDistance origin direction p >? Fin 0)
                 && (entryDistance origin direction p <? snd closest)))
      with false.
    2:{ unfold accepted in Hacc. symmetry.
        destruct (discriminant origin direction p >=? Fin 0); [|reflexivity].
        cbn [andb] in *. now rewrite Hacc. }
    destruct closest as [[h|] cd]; unfold nearest_of in Hinv |- *; cbn [fst snd] in *.
    + destruct Hinv as (Hcd & p0 & cube0 & Hp0 & Hc0 & Ha & Hi & Hacc0 & Hdist & Hmin).
      split; [exact Hcd|]. exists p0, cube0.
      repeat split; try assumption.
      * now apply nth_error_snoc_old.
      * now apply nth_error_snoc_old.
      * destruct (nth_error_snoc _ _ _ _ H) as [Hq|[_ ->]].
        -- now apply (Hmin j q).
        -- rewrite Hacc in H0. discriminate.
      * intros Hj. destruct (nth_error_snoc _ _ _ _ H) as [Hq|[_ ->]].
        -- now apply (Hmin j q).
        -- rewrite Hacc in H0. discriminate.
    + destruct Hinv as (Hcd & Hnone). split; [exact Hcd|].
      intros j q Hq. destruct (nth_error_snoc _ _ _ _ Hq) as [Hq'|[_ ->]].
      * now apply (Hnone j q).
      * exact Hacc.
Qed.
Lemma scan_nearest (rest_cubes : list Article) :
  forall (rest_ps : list vec3) (done_cubes : list Article) (done_ps : list vec3)
         (closest : SelectionSystem.Closest),
    List.length done_ps = List.length done_cubes ->
    List.length rest_ps = List.length rest_cubes ->
    roots_finite origin direction (done_ps ++ rest_ps) ->
    nearest_of origin direction done_cubes done_ps closest ->
    nearest_of origin direction (done_cubes ++ rest_cubes) (done_ps ++ rest_ps)
      (scan origin direction rest_cubes rest_ps (List.length done_cubes) closest).
Proof.
  induction rest_cubes as [|cube rc IH]; intros [|p rp] dc dps closest Hd Hr Hfin Hinv;
    try discriminate.
  - simpl. now rewrite !app_nil_r.
  - simpl scan.
    replace (dc ++ cube :: rc) with ((dc ++ [cube]) ++ rc) by now rewrite <- app_assoc.
    replace (dps ++ p :: rp) with ((dps ++ [p]) ++ rp) in * by now rewrite <- app_assoc.
    replace (S (List.length dc)) with (List.length (dc ++ [cube]))
      by (rewrite length_app; simpl; lia).
    apply IH.
    + rewrite !length_app. simpl. lia.
    + simpl in Hr. lia.
    + exact Hfin.
    + apply nearest_step; [exact Hd | | exact Hinv].
      intros q Hq. apply Hfin. apply in_or_app. now left.
Qed.

End Nearest.

(** ** The quadratic of the sphere test, over the real numbers *)

Lemma smaller_root (a b c : R) :
  (0 < a)%R -> (0 <= b * b + - (4 * a * c))%R ->
  let t := ((- b + - sqrt (b * b + - (4 * a * c))) / (2 * a))%R in
  (a * t * t + b * t + c = 0)%R /\
  forall t' : R, (a * t' * t' + b * t' + c = 0)%R -> (t <= t')%R.
Proof.
  intros Ha Hd t.
  set (s := sqrt (b * b + - (4 * a * c))) in *.
  assert (Hs : (0 <= s)%R) by apply sqrt_pos.
  assert (Hq : (s * s = b * b + - (4 * a * c))%R) by (apply sqrt_sqrt; exact Hd).
  assert (Et : (2 * a * t = - b + - s)%R) by (unfold t; field; lra).
  split.
  - assert (E : (4 * a * (a * t * t + b * t + c)
                 = (2 * a * t) * (2 * a * t) + 2 * b * (2 * a * t) + 4 * a * c)%R) by ring.
    rewrite Et in E.
    assert (E' : (4 * a * (a * t * t + b * t + c) = 0)%R) by (rewrite E; nra).
    apply Rmult_integral in E'. destruct E' as [E'|E']; [lra | exact E'].
  - intros t' H'.
    assert (E : ((2 * a * t' + b) * (2 * a * t' + b) = s * s)%R) by (rewrite Hq; nra).
    assert (H1 : (- s <= 2 * a * t' + b)%R) by nra.
    assert (H2 : (2 * a * t <= 2 * a * t')%R) by lra.
    nra.
Qed.

Section Quadratic.

Variables ox oy oz dx dy dz px py pz : R.

Let origin := Vec3 (Fin ox) (Fin oy) (Fin oz).
Let direction := Vec3 (Fin dx) (Fin dy) (Fin dz).
Let position := Vec3 (Fin px) (Fin py) (Fin pz).
Let a := norm2 dx dy dz.
Let b := (2 * ((ox + - px) * dx + (oy + - py) * dy + (oz + - pz) * dz))%R.
Let c := (norm2 (ox + - px) (oy + - py) (oz + - pz) + - (4 / 5 * (3 / 2) * (4 / 5 * (3 / 2))))%R.

Lemma quadratic_Fin :
  SelectionSystem.quad_a direction = Fin a /\
  SelectionSystem.quad_b origin direction position = Fin b /\
  SelectionSystem.quad_c origin position = Fin c /\
  discriminant origin direction position = Fin (b * b + - (4 * a * c)).
Proof. repeat split. Qed.

Lemma entryDistance_Fin :
  (0 < a)%R -> (0 <= b * b + - (4 * a * c))%R ->
  entryDistance origin direction position
  = Fin ((- b + - sqrt (b * b + - (4 * a * c))) / (2 * a)).
Proof.
  intros Ha Hd. unfold entryDistance.
  destruct quadratic_Fin as (-> & -> & _ & ->).
  rewrite sqrt_Fin by exact Hd. cbn [neg sub add mul].
  rewrite div_Fin by lra. reflexivity.
Qed.

Lemma accepted_Fin :
  (0 < a)%R -> accepted origin direction position = true ->
  (0 <= b * b + - (4 * a * c))%R /\
  (0 < (- b + - sqrt (b * b + - (4 * a * c))) / (2 * a))%R.
Proof.
  intros Ha Hacc. unfold accepted in Hacc. apply andb_true_iff in Hacc as [Hd Hg].
  destruct quadratic_Fin as (_ & _ & _ & Ed). rewrite Ed in Hd.
  apply geb_Fin in Hd. split; [exact Hd|].
  rewrite (entryDistance_Fin Ha Hd) in Hg. now apply gtb_Fin in Hg.
Qed.

(** A ray from the centre of the sphere reaches it at a negative root only. *)
Lemma centre_not_accepted :
  (0 < a)%R -> origin = position -> accepted origin direction position = false.
Proof.
  intros Ha E. destruct (accepted origin direction position) eqn:Hacc; [|reflexivity].
  exfalso. destruct (accepted_Fin Ha Hacc) as [Hd Ht].
  injection E as E0 E1 E2.
  assert (Hb : b = 0%R) by (unfold b; rewrite E0, E1, E2; ring).
  assert (Hs := sqrt_pos (b * b + - (4 * a * c))).
  assert (Hi : (0 < / (2 * a))%R) by (apply Rinv_0_lt_compat; lra).
  unfold Rdiv in Ht. rewrite Hb in *. nra.
Qed.

End Quadratic.

Lemma positions_finite (rand : nat -> num) (dp : DataProcessor.t) (k : nat) :
  random_source rand -> DataProcessor.consistent dp ->
  forall p, In p (fst (DataProcessor.positionsFrom rand dp (DataProcessor.data dp) 0 k)) ->
            vec3_finite p.
Proof.
  intros Hr Hc p Hp.
  apply In_nth_error in Hp. destruct Hp as [i Hi].
  assert (Hlen := positionsFrom_length rand dp (DataProcessor.data dp) 0 k).
  assert (Hlt : (i < List.length (DataProcessor.data dp))%nat).
  { rewrite <- Hlen. apply nth_error_Some. congruence. }
  destruct (nth_error (DataProcessor.data dp) i) as [a|] eqn:Ha.
  2:{ apply nth_error_None in Ha. lia. }
  destruct (positionsFrom_nth rand dp _ 0 k i a Ha) as (p' & k' & Hp' & Ep).
  rewrite Hi in Hp'. injection Hp' as <-. rewrite Ep.
  apply calculatePosition_finite.
  - exact Hr.
  - rewrite Hc. lia.
  - eapply nth_error_In, Ha.
Qed.

(** The quadratic of a cube is the equation of its sphere along the ray. *)
Lemma quadratic_is_the_sphere (ox oy oz dx dy dz px py pz radius t : R) :
  ((dx * dx + dy * dy + dz * dz) * t * t
   + 2 * ((ox - px) * dx + (oy - py) * dy + (oz - pz) * dz) * t
   + ((ox - px) * (ox - px) + (oy - py) * (oy - py) + (oz - pz) * (oz - pz)
      - radius * radius) = 0)%R
  <-> ((ox + t * dx - px) * (ox + t * dx - px)
       + (oy + t * dy - py) * (oy + t * dy - py)
       + (oz + t * dz - pz) * (oz + t * dz - pz) = radius * radius)%R.
Proof.
  assert (E : ((dx * dx + dy * dy + dz * dz) * t * t
               + 2 * ((ox - px) * dx + (oy - py) * dy + (oz - pz) * dz) * t
               + ((ox - px) * (ox - px) + (oy - py) * (oy - py) + (oz - pz) * (oz - pz)
                  - radius * radius)
               = (ox + t * dx - px) * (ox + t * dx - px)
                 + (oy + t * dy - py) * (oy + t * dy - py)
                 + (oz + t * dz - pz) * (oz + t * dz - pz) - radius * radius)%R) by ring.
  rewrite E. split; intros H; lra.
Qed.


Lemma rand_half_source : random_source rand_half.
Proof. intros k. exists (1 / 2)%R. split; [reflexivity | lra]. Qed.

Lemma positions_of_loaded_a :
  DataProcessor.positionsFrom rand_half loaded_a (DataProcessor.data loaded_a) 0 0%nat
  = ([Vec3 (Fin (- (5 / 4))) (Fin 0) (Fin (- (5 / 4)))], 0%nat).
Proof.
  assert (E : DataProcessor.positionByGrid loaded_a article_a 0
              = Vec3 (Fin (- (5 / 4))) (Fin 0) (Fin (- (5 / 4)))).
  { rewrite positionByGrid_eq by (simpl; lia).
    change (gridSide (DataProcessor.instanceCount loaded_a)) with 1%Z.
    unfold gridPoint. compute_IZR. f_equal; f_equal; lra. }
  change (DataProcessor.positionsFrom rand_half loaded_a (DataProcessor.data loaded_a) 0 0%nat)
    with ([DataProcessor.positionByGrid loaded_a article_a 0], 0%nat).
  now rewrite E.
Qed.

(** A ray that starts inside the sphere of a record, off its centre: the
    quadratic has the positive root 0.7, which is the larger one, and
    nothing is returned, as for a ray from the centre. *)
Lemma rayCast_misses_the_positive_root :
  let origin := Vec3 (Fin (- (3 / 4))) (Fin 0) (Fin (- (5 / 4))) in
  let direction := Vec3 (Fin 1) (Fin 0) (Fin 0) in
  let position := Vec3 (Fin (- (5 / 4))) (Fin 0) (Fin (- (5 / 4))) in
  fst (DataProcessor.positionsFrom rand_half loaded_a (DataProcessor.data loaded_a) 0 0%nat)
  = [position] /\
  SelectionSystem.quad_a direction * Fin (7 / 10) * Fin (7 / 10)
  + SelectionSystem.quad_b origin direction position * Fin (7 / 10)
  + SelectionSystem.quad_c origin position = Fin 0 /\
  (Fin (7 / 10) >? Fin 0) = true /\
  fst (SelectionSystem.rayCast rand_half loaded_a origin direction 0%nat) = None.
Proof.
  intros origin direction position.
  split; [now rewrite positions_of_loaded_a|].
  split; [|split].
  - unfold SelectionSystem.quad_a, SelectionSystem.quad_b, SelectionSystem.quad_c,
      SelectionSystem.sphereRadius, origin, direction, position.
    cbn [c0 c1 c2 mul add sub neg]. f_equal. lra.
  - apply gtb_Fin. lra.
  - unfold SelectionSystem.rayCast, bind. rewrite castFrom_scan.
    rewrite positions_of_loaded_a. cbn [fst snd ret].
    change (DataProcessor.data loaded_a) with [article_a]. cbn [scan].
    rewrite testSphere_eq. fold position.
    replace (entryDistance origin direction position >? Fin 0) with false;
      [cbn [andb]; now rewrite andb_false_r|].
    symmetry.
    assert (Ha : (0 < norm2 1 0 0)%R) by (unfold norm2; lra).
    assert (Hd : (0 <= 2 * ((- (3 / 4) + - - (5 / 4)) * 1 + (0 + - 0) * 0
                            + (- (5 / 4) + - - (5 / 4)) * 0)
                       * (2 * ((- (3 / 4) + - - (5 / 4)) * 1 + (0 + - 0) * 0
                               + (- (5 / 4) + - - (5 / 4)) * 0))
                  + - (4 * norm2 1 0 0
                       * (norm2 (- (3 / 4) + - - (5 / 4)) (0 + - 0) (- (5 / 4) + - - (5 / 4))
                          + - (4 / 5 * (3 / 2) * (4 / 5 * (3 / 2))))))%R)
      by (unfold norm2; lra).
    unfold origin, direction, position.
    rewrite (entryDistance_Fin _ _ _ _ _ _ _ _ _ Ha Hd).
    apply Rltb_false.
    match goal with |- ((- ?b + - sqrt ?d) / ?e <= 0)%R =>
      assert (Hs := sqrt_pos d);
      assert (He : (0 < / e)%R) by (apply Rinv_0_lt_compat; unfold norm2; lra);
      assert (Hb : (- b + - sqrt d <= 0)%R) by lra;
      unfold Rdiv; nra
    end.
Qed.

Lemma plain_years_of_ab : plain_years (DataProcessor.data loaded_ab).
Proof.
  intros a Ha. simpl in Ha.
  repeat (destruct Ha as [<-|Ha]; [split; [reflexivity | vm_compute; reflexivity]|]).
  contradiction.
Qed.


Lemma rand_jitter_source : random_source rand_jitter.
Proof. intros [|k]; eexists; (split; [reflexivity | lra]). Qed.

(** The place of the only record on the ring, for the draw [r]. *)
Lemma positionByJournal_of_one (r : R) (k : nat) :
  rand_jitter k = Fin r ->
  DataProcessor.positionByJournal rand_jitter loaded_ring article_a 0 k
  = (Vec3 (Fin 15) (Fin (r * 5)) (Fin 0), S k).
Proof.
  intros E. unfold DataProcessor.positionByJournal, bind, DataProcessor.random, ret.
  rewrite E.
  change (distinct (map Source (DataProcessor.data loaded_ring))) with ["Nature"%string].
  change (findIndex (String.eqb (Source article_a)) ["Nature"%string]) with 0%Z.
  change (of_nat (List.length ["Nature"%string])) with (Fin 1).
  change (of_Z 0) with (Fin 0).
  rewrite div_Fin by lra.
  cbn [Math.PI mul Math.cos Math.sin].
  replace (0 / 1 * PI * 2)%R with 0%R by (unfold Rdiv; ring).
  rewrite cos_0, sin_0. do 2 f_equal; f_equal; lra.
Qed.


(** The root of a cube whose discriminant is the square of [s]. *)
Lemma entryDistance_exact (ox oy oz dx dy dz px py pz s : R) :
  let a := norm2 dx dy dz in
  let b := (2 * ((ox + - px) * dx + (oy + - py) * dy + (oz + - pz) * dz))%R in
  let c := (norm2 (ox + - px) (oy + - py) (oz + - pz)
            + - (4 / 5 * (3 / 2) * (4 / 5 * (3 / 2))))%R in
  (0 < a)%R -> (0 <= s)%R -> (s * s = b * b + - (4 * a * c))%R ->
  (discriminant (Vec3 (Fin ox) (Fin oy) (Fin oz)) (Vec3 (Fin dx) (Fin dy) (Fin dz))
                (Vec3 (Fin px) (Fin py) (Fin pz)) >=? Fin 0) = true /\
  entryDistance (Vec3 (Fin ox) (Fin oy) (Fin oz)) (Vec3 (Fin dx) (Fin dy) (Fin dz))
                (Vec3 (Fin px) (Fin py) (Fin pz))
  = Fin ((- b + - s) / (2 * a)).
Proof.
  intros a b c Ha Hs Hq.
  assert (Hd : (0 <= b * b + - (4 * a * c))%R) by (rewrite <- Hq; nra).
  split.
  - destruct (quadratic_Fin ox oy oz dx dy dz px py pz) as (_ & _ & _ & ->).
    apply geb_Fin. exact Hd.
  - rewrite (entryDistance_Fin ox oy oz dx dy dz px py pz Ha Hd).
    fold a b c. rewrite <- Hq, sqrt_square by exact Hs. reflexivity.
Qed.

Lemma positions_of_loaded_ab :
  DataProcessor.positionsFrom rand_half loaded_ab (DataProcessor.data loaded_ab) 0 0%nat
  = ([ Vec3 (Fin (- (5 / 2))) (Fin 0) (Fin (- (5 / 2)));
       Vec3 (Fin 0) (Fin 0) (Fin (- (5 / 2))) ], 0%nat).
Proof.
  assert (E : forall i, (i < 2)%nat ->
              DataProcessor.positionByGrid loaded_ab (nth i [article_a; article_b] article_a) i
              = nth i [ Vec3 (Fin (- (5 / 2))) (Fin 0) (Fin (- (5 / 2)));
                        Vec3 (Fin 0) (Fin 0) (Fin (- (5 / 2))) ] (Vec3 NaN NaN NaN)).
  { intros i Hi. rewrite positionByGrid_eq by (simpl; lia).
    change (gridSide (DataProcessor.instanceCount loaded_ab)) with 2%Z.
    destruct i as [|[|i]]; try lia; unfold gridPoint; cbn [nth];
      compute_IZR; f_equal; f_equal; lra. }
  change (DataProcessor.positionsFrom rand_half loaded_ab (DataProcessor.data loaded_ab) 0 0%nat)
    with ([DataProcessor.positionByGrid loaded_ab article_a 0;
           DataProcessor.positionByGrid loaded_ab article_b 1], 0%nat).
  assert (E0 := E 0%nat ltac:(lia)). assert (E1 := E 1%nat ltac:(lia)).
  cbn [nth] in E0, E1. rewrite E0, E1. reflexivity.
Qed.

(** Two records on the line of the ray: the nearer one is returned, from
    whichever side the ray comes. *)
Lemma rayCast_of_two_colinear_records :
  (exists h,
      fst (SelectionSystem.rayCast rand_half loaded_ab
             (Vec3 (Fin (- 10)) (Fin 0) (Fin (- (5 / 2)))) (Vec3 (Fin 1) (Fin 0) (Fin 0))
             0%nat) = Some h /\
      SelectionSystem.hit_pmid h = "a"%string /\
      SelectionSystem.hit_distance h = Fin (63 / 10)) /\
  (exists h,
      fst (SelectionSystem.rayCast rand_half loaded_ab
             (Vec3 (Fin 10) (Fin 0) (Fin (- (5 / 2)))) (Vec3 (Fin (- 1)) (Fin 0) (Fin 0))
             0%nat) = Some h /\
      SelectionSystem.hit_pmid h = "b"%string /\
      SelectionSystem.hit_distance h = Fin (44 / 5)).
Proof.
  split.
  - unfold SelectionSystem.rayCast, bind. rewrite castFrom_scan.
    rewrite positions_of_loaded_ab. cbn [fst snd ret].
    change (DataProcessor.data loaded_ab) with [article_a; article_b]. cbn [scan].
    destruct (entryDistance_exact (- 10) 0 (- (5 / 2)) 1 0 0 (- (5 / 2)) 0 (- (5 / 2)) (12 / 5))
      as [D0 E0]; try (unfold norm2; lra).
    destruct (entryDistance_exact (- 10) 0 (- (5 / 2)) 1 0 0 0 0 (- (5 / 2)) (12 / 5))
      as [D1 E1]; try (unfold norm2; lra).
    rewrite (testSphere_eq _ _ (None, PInf)), D0, E0. cbn [snd andb].
    replace (Fin _ >? Fin 0) with true
      by (symmetry; apply gtb_Fin; unfold norm2; lra).
    cbn [ltb andb].
    rewrite testSphere_eq, D1, E1. cbn [snd andb].
    replace (Fin _ <? Fin _) with false
      by (symmetry; apply Rltb_false; unfold norm2; lra).
    rewrite andb_false_r.
    eexists. split; [reflexivity|]. split; [reflexivity|].
    cbn [SelectionSystem.hit_distance]. f_equal. unfold norm2. lra.
  - unfold SelectionSystem.rayCast, bind. rewrite castFrom_scan.
    rewrite positions_of_loaded_ab. cbn [fst snd ret].
    change (DataProcessor.data loaded_ab) with [article_a; article_b]. cbn [scan].
    destruct (entryDistance_exact 10 0 (- (5 / 2)) (- 1) 0 0 (- (5 / 2)) 0 (- (5 / 2)) (12 / 5))
      as [D0 E0]; try (unfold norm2; lra).
    destruct (entryDistance_exact 10 0 (- (5 / 2)) (- 1) 0 0 0 0 (- (5 / 2)) (12 / 5))
      as [D1 E1]; try (unfold norm2; lra).
    rewrite (testSphere_eq _ _ (None, PInf)), D0, E0. cbn [snd andb].
    replace (Fin _ >? Fin 0) with true
      by (symmetry; apply gtb_Fin; unfold norm2; lra).
    cbn [ltb andb].
    rewrite testSphere_eq, D1, E1. cbn [snd andb].
    replace (Fin _ >? Fin 0) with true
      by (symmetry; apply gtb_Fin; unfold norm2; lra).
    replace (Fin _ <? Fin _) with true
      by (symmetry; apply ltb_Fin; unfold norm2; lra).
    cbn [andb].
    eexists. split; [reflexivity|]. split; [reflexivity|].
    cbn [SelectionSystem.hit_distance]. f_equal. unfold norm2. lra.
Qed.

(** ** Bounds on the sine of 85 degrees *)

Lemma asin_Fin (a : R) : (-1 <= a <= 1)%R -> Math.asin (Fin a) = Fin (asin a).
Proof.
  intros [H1 H2]. unfold Math.asin.
  destruct (Rle_dec (-1) a); [|lra]. destruct (Rle_dec a 1); [reflexivity | lra].
Qed.

Lemma asin_above (x theta : R) :
  (-1 <= x <= 1)%R -> (- (PI / 2) <= theta <= PI / 2)%R -> (sin theta < x)%R ->
  (theta < asin x)%R.
Proof.
  intros Hx Ht Hs. destruct (Rlt_le_dec theta (asin x)) as [H|H]; [exact H|].
  exfalso. assert (Hb := asin_bound x).
  assert (Hi : (sin (asin x) <= sin theta)%R) by (apply sin_incr_1; lra).
  rewrite sin_asin in Hi by exact Hx. lra.
Qed.

Lemma asin_below (x theta : R) :
  (-1 <= x <= 1)%R -> (- (PI / 2) <= theta <= PI / 2)%R -> (x < sin theta)%R ->
  (asin x < theta)%R.
Proof.
  intros Hx Ht Hs. destruct (Rlt_le_dec (asin x) theta) as [H|H]; [exact H|].
  exfalso. assert (Hb := asin_bound x).
  assert (Hi : (sin theta <= sin (asin x))%R) by (apply sin_incr_1; lra).
  rewrite sin_asin in Hi by exact Hx. lra.
Qed.

Lemma PI_bounds : (3 < PI <= 4)%R.
Proof. split; [assert (H := PI2_3_2); lra | apply PI_4]. Qed.

Lemma sin_PI36_bounds : (1 / 12 <= sin (PI / 36) < 1 / 9)%R.
Proof.
  assert (Hpi := PI_bounds). split.
  - set (x := (PI / 36)%R).
    assert (H1 : (0 <= sin x)%R) by (apply sin_ge_0; unfold x; lra).
    assert (H2 : (0 <= sin (2 * x))%R) by (apply sin_ge_0; unfold x; lra).
    assert (H3 : (0 <= sin (2 * x + x))%R) by (apply sin_ge_0; unfold x; lra).
    assert (C1 := COS_bound x). assert (C2 := COS_bound (2 * x)).
    assert (C3 := COS_bound (2 * x + x)).
    assert (E2 : sin (2 * x) = (2 * sin x * cos x)%R) by apply sin_2a.
    assert (E3 : sin (2 * x + x) = (sin (2 * x) * cos x + cos (2 * x) * sin x)%R)
      by apply sin_plus.
    assert (E6 : sin (2 * (2 * x + x)) = (2 * sin (2 * x + x) * cos (2 * x + x))%R)
      by apply sin_2a.
    assert (E : sin (2 * (2 * x + x)) = (1 / 2)%R).
    { replace (2 * (2 * x + x))%R with (PI / 6)%R by (unfold x; lra). apply sin_PI6. }
    assert (B2 : (sin (2 * x) <= 2 * sin x)%R) by nra.
    assert (B3 : (sin (2 * x + x) <= 3 * sin x)%R) by nra.
    assert (B6 : (sin (2 * (2 * x + x)) <= 2 * sin (2 * x + x))%R) by nra.
    lra.
  - assert (H := sin_lt_x (PI / 36) ltac:(lra)). lra.
Qed.

(** The sine of the limit of 85 degrees lies between 24/25 and 299/300. *)
Lemma sin_maxPitch_bounds : (24 / 25 < sin (85 * PI / 180) < 299 / 300)%R.
Proof.
  assert (Hpi := PI_bounds). assert (Hu := sin_PI36_bounds).
  replace (85 * PI / 180)%R with (PI / 2 - PI / 36)%R by lra.
  rewrite sin_shift.
  assert (Hc : (0 <= cos (PI / 36))%R) by (apply cos_ge_0; lra).
  assert (H := sin2_cos2 (PI / 36)). unfold Rsqr in H.
  split; nra.
Qed.

Lemma asin_24_25 : (5 * PI / 18 < asin (24 / 25) < 85 * PI / 180)%R.
Proof.
  assert (Hpi := PI_bounds). assert (Hs := sin_maxPitch_bounds). split.
  - apply asin_above; try lra.
    assert (H3 : (sin (5 * PI / 18) < sin (PI / 3))%R) by (apply sin_increasing_1; lra).
    rewrite sin_PI3 in H3.
    assert (Hq : (sqrt 3 * sqrt 3 = 3)%R) by (apply sqrt_sqrt; lra).
    assert (Hp := sqrt_pos 3). nra.
  - apply asin_below; lra.
Qed.

Lemma camera_looking_down_pose :
  CameraSystem.position camera_looking_down = Vec3 (Fin 0) (Fin 0) (Fin 0) /\
  CameraSystem.target camera_looking_down = Vec3 (Fin 0) (Fin (- (24 / 5))) (Fin (7 / 5)) /\
  CameraSystem.up camera_looking_down = Vec3 (Fin 0) (Fin 1) (Fin 0).
Proof. repeat split. Qed.

Lemma maxPitch_Fin : Controls.maxPitch = Fin (85 * PI / 180).
Proof.
  unfold Controls.maxPitch, Math.PI. cbn [mul]. rewrite div_Fin by lra. reflexivity.
Qed.

Lemma unit_component_le_1 (x y z : R) :
  (0 < norm2 x y z)%R -> (-1 <= y / sqrt (norm2 x y z) <= 1)%R.
Proof.
  intros H. assert (Hs := sqrt_lt_R0 _ H).
  assert (Hq := sqrt_sqrt (norm2 x y z) (Rlt_le _ _ H)).
  set (n := sqrt (norm2 x y z)) in *.
  assert (Hi : (0 < / n)%R) by now apply Rinv_0_lt_compat.
  assert (Hy : (y * y <= n * n)%R) by (rewrite Hq; unfold norm2; nra).
  assert (Hb : (- n <= y <= n)%R) by (split; nra).
  assert (Hm : (n * / n = 1)%R) by (apply Rinv_r; lra).
  unfold Rdiv. split; nra.
Qed.

(** A direction that rises with a slope of more than [r], where [r] is at
    least the sine of the limit, has a pitch beyond the limit. *)
Lemma pitch_above (x y z r : R) :
  (0 < y)%R -> (0 <= r)%R -> (sin (85 * PI / 180) <= r)%R ->
  (r * r * norm2 x y z < y * y)%R ->
  (pitch (Vec3 (Fin x) (Fin y) (Fin z)) >? Controls.maxPitch) = true.
Proof.
  intros Hy Hr Hs Hlt.
  assert (Hn : (0 < norm2 x y z)%R) by (unfold norm2; nra).
  unfold pitch. rewrite (normalize_Fin _ _ _ Hn). cbn [c1].
  assert (Hb := unit_component_le_1 x y z Hn).
  rewrite asin_Fin by exact Hb. rewrite maxPitch_Fin. apply gtb_Fin.
  assert (Hpi := PI_bounds).
  apply asin_above; [exact Hb | lra |].
  assert (Hq := sqrt_sqrt (norm2 x y z) (Rlt_le _ _ Hn)).
  assert (Hp := sqrt_lt_R0 _ Hn).
  set (n := sqrt (norm2 x y z)) in *.
  assert (Hi : (0 < / n)%R) by now apply Rinv_0_lt_compat.
  assert (Hm : (n * / n = 1)%R) by (apply Rinv_r; lra).
  assert (Hrn : (r * n < y)%R) by nra.
  unfold Rdiv. nra.
Qed.

(** A direction that falls with a slope of less than the sine of the limit
    has a pitch within the limit. *)
Lemma pitch_within (x y z r : R) :
  (0 <= r)%R -> (r < sin (85 * PI / 180))%R ->
  (y * y <= r * r * norm2 x y z)%R -> (0 < norm2 x y z)%R ->
  (Math.abs (pitch (Vec3 (Fin x) (Fin y) (Fin z))) <? Controls.maxPitch) = true.
Proof.
  intros Hr Hs Hle Hn.
  unfold pitch. rewrite (normalize_Fin _ _ _ Hn). cbn [c1].
  assert (Hb := unit_component_le_1 x y z Hn).
  rewrite asin_Fin by exact Hb. rewrite maxPitch_Fin. cbn [Math.abs]. apply ltb_Fin.
  assert (Hpi := PI_bounds).
  assert (Hq := sqrt_sqrt (norm2 x y z) (Rlt_le _ _ Hn)).
  assert (Hp := sqrt_lt_R0 _ Hn).
  set (n := sqrt (norm2 x y z)) in *.
  assert (Hi : (0 < / n)%R) by now apply Rinv_0_lt_compat.
  assert (Hm : (n * / n = 1)%R) by (apply Rinv_r; lra).
  assert (Hrn : (0 <= r * n)%R) by nra.
  assert (Hsq : (y * y <= (r * n) * (r * n))%R) by (rewrite <- Hq in Hle; nra).
  assert (Hyn : (- (r * n) <= y <= r * n)%R).
  { split.
    - destruct (Rle_dec (- (r * n)) y) as [H|H]; [exact H | exfalso; nra].
    - destruct (Rle_dec y (r * n)) as [H|H]; [exact H | exfalso; nra]. }
  assert (Hq1 : (- r <= y / n <= r)%R).
  { assert (E1 : (r - y / n = (r * n - y) * / n)%R) by (field; lra).
    assert (E2 : (y / n - - r = (y + r * n) * / n)%R) by (field; lra).
    assert (P1 : (0 <= (r * n - y) * / n)%R) by (apply Rmult_le_pos; lra).
    assert (P2 : (0 <= (y + r * n) * / n)%R) by (apply Rmult_le_pos; lra).
    lra. }
  apply Rabs_def1.
  - apply asin_below; [exact Hb | lra | lra].
  - assert (H := asin_above (y / n) (- (85 * PI / 180)) Hb ltac:(lra)).
    rewrite sin_neg in H. apply H. lra.
Qed.

(** ** [rotateCamera] from a pose within the limit *)

Lemma looking_down_direction :
  CameraSystem.normalize (Controls.getCameraDirection camera_looking_down)
  = Vec3 (Fin 0) (Fin (- (24 / 25))) (Fin (7 / 25)).
Proof.
  unfold Controls.getCameraDirection.
  destruct camera_looking_down_pose as (-> & -> & _).
  cbn [c0 c1 c2 sub neg add].
  assert (Hn : (0 < norm2 (0 + - 0) (- (24 / 5) + - 0) (7 / 5 + - 0))%R)
    by (unfold norm2; lra).
  rewrite (normalize_Fin _ _ _ Hn).
  assert (E5 : sqrt (norm2 (0 + - 0) (- (24 / 5) + - 0) (7 / 5 + - 0)) = 5%R).
  { replace (norm2 (0 + - 0) (- (24 / 5) + - 0) (7 / 5 + - 0)) with (5 * 5)%R
      by (unfold norm2; lra).
    apply sqrt_square. lra. }
  rewrite E5. f_equal; f_equal; lra.
Qed.

Lemma looking_down_right :
  Controls.cross (Vec3 (Fin 0) (Fin (- (24 / 25))) (Fin (7 / 25)))
                 (CameraSystem.up camera_looking_down)
  = Vec3 (Fin (- (7 / 25))) (Fin 0) (Fin 0).
Proof.
  destruct camera_looking_down_pose as (_ & _ & ->).
  unfold Controls.cross. rewrite cross_Fin. f_equal; f_equal; lra.
Qed.

Lemma looking_down_yaw :
  Controls.applyYaw (Vec3 (Fin 0) (Fin (- (24 / 25))) (Fin (7 / 25)))
                    (Vec3 (Fin (- (7 / 25))) (Fin 0) (Fin 0)) (Fin 0)
  = Vec3 (Fin 0) (Fin (- (24 / 25))) (Fin (7 / 25)).
Proof.
  unfold Controls.applyYaw. cbn [Math.cos Math.sin c0 c1 c2 mul add].
  rewrite cos_0, sin_0. f_equal; f_equal; lra.
Qed.

Lemma looking_down_guard :
  (Math.abs (Math.asin (Fin (- (24 / 25))) + Fin (3 * (PI / 4))) <? Controls.maxPitch) = true.
Proof.
  rewrite asin_Fin by lra. rewrite maxPitch_Fin. cbn [add Math.abs]. apply ltb_Fin.
  rewrite asin_opp. assert (H := asin_24_25). assert (Hb := asin_bound (24 / 25)).
  assert (Hpi := PI_bounds). apply Rabs_def1; lra.
Qed.

Lemma looking_down_pitch :
  Controls.applyPitch (Vec3 (Fin (- (7 / 25))) (Fin 0) (Fin 0))
                      (Vec3 (Fin 0) (Fin (- (24 / 25))) (Fin (7 / 25)))
                      (Fin (3 * (PI / 4)))
  = Vec3 (Fin 0) (Fin (649 / 625 * / sqrt 2)) (Fin (- (7 / 625) * / sqrt 2)).
Proof.
  unfold Controls.applyPitch. cbn [c1]. rewrite looking_down_guard.
  unfold Controls.cross. rewrite cross_Fin.
  cbn [Math.cos Math.sin c0 c1 c2 mul add].
  rewrite cos_3PI4, sin_3PI4.
  assert (H2 := sqrt2_neq_0).
  f_equal; f_equal; field; exact H2.
Qed.

Lemma rotated_looking_down :
  exists m : R,
    (0 < m)%R /\
    Controls.rotatedDirection camera_looking_down (Fin 0) (Fin (3 * (PI / 4)))
    = Vec3 (Fin 0) (Fin (649 * m)) (Fin (- 7 * m)).
Proof.
  unfold Controls.rotatedDirection.
  rewrite looking_down_direction, looking_down_right, looking_down_yaw, looking_down_pitch.
  assert (H2 : (0 < / sqrt 2)%R).
  { apply Rinv_0_lt_compat, sqrt_lt_R0. lra. }
  set (i2 := (/ sqrt 2)%R) in *.
  assert (Hn : (0 < norm2 0 (649 / 625 * i2) (- (7 / 625) * i2))%R)
    by (unfold norm2; nra).
  rewrite (normalize_Fin _ _ _ Hn).
  assert (HF := sqrt_lt_R0 _ Hn).
  set (F := sqrt (norm2 0 (649 / 625 * i2) (- (7 / 625) * i2))) in *.
  assert (Hi : (0 < / F)%R) by now apply Rinv_0_lt_compat.
  exists (/ 625 * i2 * / F)%R. split.
  - apply Rmult_lt_0_compat; [|exact Hi]. apply Rmult_lt_0_compat; lra.
  - f_equal; f_equal; field; lra.
Qed.

Lemma rotateCamera_pose (cam : CameraSystem.t) (yaw pitch : num) :
  CameraSystem.position (Controls.rotateCamera cam yaw pitch) = CameraSystem.position cam /\
  CameraSystem.target (Controls.rotateCamera cam yaw pitch)
  = translate (CameraSystem.position cam) (Controls.rotatedDirection cam yaw pitch) (Fin 5).
Proof. split; reflexivity. Qed.

(** C8, at a failing input.  The camera is at the origin and looks at
    [(0, -4.8, 1.4)], a pitch of about -74 degrees, within the limit of 85
    degrees.  [rotateCamera] with no yaw and a pitch of [3 * PI / 4] passes
    the test of the limit ([asin(-0.96) + 3 PI / 4] is about 61 degrees) and
    leaves the camera with a view direction along [(0, 649, -7)], whose pitch
    is beyond the limit.  [CameraSystem.rotate] itself never changes the view
    direction. *)
Theorem rotateCamera_passes_the_pitch_limit :
  let cam := camera_looking_down in
  let cam' := Controls.rotateCamera cam (Fin 0) (Fin (3 * (PI / 4))) in
  pose_finite cam /\ ~ up_parallel_to_view cam /\
  (Math.abs (pitch (viewDirection cam)) <? Controls.maxPitch) = true /\
  (pitch (viewDirection cam') >? Controls.maxPitch) = true /\
  (forall (c : CameraSystem.t) (yaw pitch : num),
      viewDirection (CameraSystem.rotate c yaw pitch) = viewDirection c).
Proof.
  intros cam cam'. destruct camera_looking_down_pose as (Ep & Et & Eu).
  assert (Hs := sin_maxPitch_bounds).
  split; [|split; [|split; [|split]]].
  - unfold pose_finite, cam. rewrite Ep, Et, Eu. repeat split.
  - unfold up_parallel_to_view, viewDirection, cam. rewrite Ep, Et, Eu.
    unfold CameraSystem.subtractVectors. cbn [c0 c1 c2 sub neg add].
    rewrite cross_Fin. intros H. injection H as H _. lra.
  - unfold viewDirection, cam. rewrite Ep, Et.
    unfold CameraSystem.subtractVectors. cbn [c0 c1 c2 sub neg add].
    apply (pitch_within _ _ _ (24 / 25)); unfold norm2; lra.
  - unfold viewDirection, cam'.
    destruct (rotateCamera_pose cam (Fin 0) (Fin (3 * (PI / 4)))) as [-> ->].
    destruct rotated_looking_down as (m & Hm & E).
    unfold cam. rewrite E, Ep.
    unfold CameraSystem.subtractVectors, translate. cbn [c0 c1 c2 sub neg add mul].
    assert (Hmm : (0 < m * m)%R) by nra.
    apply (pitch_above _ _ _ (299 / 300)); unfold norm2; nra.
  - reflexivity.
Qed.

(** * Further properties of the code *)

(** ** The data processor from the first upload on *)

Lemma includes_app (p1 p2 : list string) (x : string) :
  includes (p1 ++ p2) x = includes p1 x || includes p2 x.
Proof. apply existsb_app. Qed.

Lemma filter_filter_includes (p1 p2 : list string) (d : list Article) :
  filter (fun article => negb (includes p2 (PMID article)))
         (filter (fun article => negb (includes p1 (PMID article))) d)
  = filter (fun article => negb (includes (p1 ++ p2) (PMID article))) d.
Proof.
  induction d as [|a d IH]; [reflexivity|]. simpl.
  rewrite includes_app.
  destruct (includes p1 (PMID a)); simpl.
  - exact IH.
  - destruct (includes p2 (PMID a)); simpl; now rewrite IH.
Qed.

Lemma positionsFrom_set_cubeData (rand : nat -> num) (dp : DataProcessor.t)
  (b : option (list num)) (articles : list Article) (i k : nat) :
  DataProcessor.positionsFrom rand (DataProcessor.set_cubeData dp b) articles i k
  = DataProcessor.positionsFrom rand dp articles i k.
Proof.
  revert i k. induction articles as [|a rest IH]; intros i k; [reflexivity|].
  cbn [DataProcessor.positionsFrom]. unfold bind.
  change (DataProcessor.calculatePosition rand (DataProcessor.set_cubeData dp b) a i k)
    with (DataProcessor.calculatePosition rand dp a i k).
  destruct (DataProcessor.calculatePosition rand dp a i k) as [p k1].
  now rewrite IH.
Qed.

(** X1.  [uploadData] never throws, whatever the state of the processor: it
    replaces the records, sets the instance count to their number, keeps
    the layout mode and leaves a buffer of exactly eight floats per record,
    the rows of the records.  Before the first upload there is no buffer,
    and [processData], [recomputeLayout] and [deleteArticles] throw. *)
Theorem uploadData_sizes_the_buffer :
  forall (rand : nat -> num) (fullYear : Z) (dp : DataProcessor.t)
         (records : list Article) (pmids : list string) (mode : string) (k : nat),
    (exists dp' buffer,
        fst (DataProcessor.uploadData rand fullYear dp records k) = Some dp' /\
        DataProcessor.data dp' = records /\
        DataProcessor.instanceCount dp' = List.length records /\
        DataProcessor.layoutMode dp' = DataProcessor.layoutMode dp /\
        DataProcessor.cubeData dp' = Some buffer /\
        List.length buffer = (8 * List.length records)%nat /\
        buffer = DataProcessor.rows fullYear
                   (fst (DataProcessor.positionsFrom rand dp' records 0 k)) records) /\
    fst (DataProcessor.processData rand fullYear DataProcessor.create k) = None /\
    fst (DataProcessor.recomputeLayout rand fullYear
           (DataProcessor.setLayoutMode DataProcessor.create mode) k) = None /\
    fst (DataProcessor.deleteArticles rand fullYear DataProcessor.create pmids k) = None.
Proof.
  intros rand fullYear dp records pmids mode k.
  split; [|split; [|split]]; [|reflexivity|reflexivity|reflexivity].
  unfold DataProcessor.uploadData.
  set (n := List.length records).
  set (dp0 := DataProcessor.Build records (Some (repeat (Fin 0) (n * 32 / 4))) n
                (DataProcessor.layoutMode dp)).
  assert (Hn : (n * 32 / 4 = n * 8)%nat).
  { replace (n * 32)%nat with ((n * 8) * 4)%nat by lia. now rewrite Nat.div_mul by lia. }
  rewrite (processData_eq rand fullYear dp0 (repeat (Fin 0) (n * 32 / 4)) k);
    [|reflexivity|reflexivity|cbn [DataProcessor.data dp0]; rewrite repeat_length; fold n; lia].
  cbn [fst DataProcessor.data dp0]. fold n.
  rewrite skipn_all2 by (rewrite repeat_length; lia). rewrite app_nil_r.
  eexists _, _. split; [reflexivity|].
  cbn [DataProcessor.data DataProcessor.instanceCount DataProcessor.layoutMode
       DataProcessor.cubeData DataProcessor.set_cubeData dp0].
  split; [reflexivity|]. split; [reflexivity|]. split; [reflexivity|].
  split; [reflexivity|]. split; [|now rewrite positionsFrom_set_cubeData].
  rewrite rows_length by apply positionsFrom_length. fold n. lia.
Qed.

Lemma deleteArticles_eq (rand : nat -> num) (fullYear : Z) (dp : DataProcessor.t)
  (pmids : list string) (buffer : list num) (k : nat) :
  DataProcessor.cubeData dp = Some buffer ->
  (List.length (DataProcessor.data dp) * 8 <= List.length buffer)%nat ->
  let d := filter (fun article => negb (includes pmids (PMID article)))
                  (DataProcessor.data dp) in
  let dp0 := DataProcessor.Build d (Some buffer) (List.length d)
               (DataProcessor.layoutMode dp) in
  DataProcessor.deleteArticles rand fullYear dp pmids k
  = (Some (DataProcessor.set_cubeData dp0
             (Some (DataProcessor.rows fullYear
                      (fst (DataProcessor.positionsFrom rand dp0 d 0 k)) d
                    ++ skipn (List.length d * 8) buffer))),
     snd (DataProcessor.positionsFrom rand dp0 d 0 k)).
Proof.
  intros Hb Hl d dp0. unfold DataProcessor.deleteArticles. fold d. rewrite Hb.
  apply (processData_eq rand fullYear dp0 buffer k); [reflexivity|reflexivity|].
  cbn [DataProcessor.data dp0].
  assert (H : (List.length d <= List.length (DataProcessor.data dp))%nat)
    by apply filter_length_le.
  lia.
Qed.

(** X2.  [deleteArticles] never shrinks the buffer of instances: it writes
    the rows of the records that are left at its start and leaves the
    floats behind them as they were, so that the instances of deleted
    records stay in the buffer beyond the instance count. *)
Theorem deleteArticles_keeps_the_stale_instances :
  forall (rand : nat -> num) (fullYear : Z) (dp : DataProcessor.t)
         (pmids : list string) (buffer : list num) (k : nat),
    DataProcessor.cubeData dp = Some buffer ->
    (List.length (DataProcessor.data dp) * 8 <= List.length buffer)%nat ->
    exists dp' buffer',
      fst (DataProcessor.deleteArticles rand fullYear dp pmids k) = Some dp' /\
      DataProcessor.cubeData dp' = Some buffer' /\
      List.length buffer' = List.length buffer /\
      DataProcessor.instanceCount dp' = List.length (DataProcessor.data dp') /\
      (DataProcessor.instanceCount dp' <= List.length (DataProcessor.data dp))%nat /\
      forall j : nat,
        (DataProcessor.instanceCount dp' * 8 <= j)%nat -> at_ buffer' j = at_ buffer j.
Proof.
  intros rand fullYear dp pmids buffer k Hb Hl.
  rewrite (deleteArticles_eq rand fullYear dp pmids buffer k Hb Hl). cbn [fst].
  set (d := filter (fun article => negb (includes pmids (PMID article)))
                   (DataProcessor.data dp)).
  assert (Hd : (List.length d <= List.length (DataProcessor.data dp))%nat)
    by apply filter_length_le.
  eexists _, _. split; [reflexivity|]. split; [reflexivity|].
  cbn [DataProcessor.instanceCount DataProcessor.data DataProcessor.set_cubeData].
  set (ps := fst (DataProcessor.positionsFrom rand _ d 0 k)).
  assert (Hr : List.length (DataProcessor.rows fullYear ps d) = (List.length d * 8)%nat)
    by (apply rows_length, positionsFrom_length).
  split; [|split; [reflexivity|split; [exact Hd|]]].
  - rewrite length_app, Hr, length_skipn. lia.
  - intros j Hj. unfold at_.
    rewrite app_nth2 by lia. rewrite Hr, nth_skipn. f_equal. lia.
Qed.

Lemma deleteArticles_keeps_the_stale_instances_witness :
  exists dp' buffer',
    fst (DataProcessor.deleteArticles rand_half 2025 loaded_ab ["a"%string] 0%nat) = Some dp' /\
    DataProcessor.cubeData dp' = Some buffer' /\
    List.length buffer' = 16%nat /\
    DataProcessor.instanceCount dp' = List.length (DataProcessor.data dp') /\
    (DataProcessor.instanceCount dp' <= 2)%nat /\
    forall j : nat,
      (DataProcessor.instanceCount dp' * 8 <= j)%nat ->
      at_ buffer' j = at_ (repeat (Fin 0) 16) j.
Proof.
  apply (deleteArticles_keeps_the_stale_instances rand_half 2025 loaded_ab ["a"%string]
           (repeat (Fin 0) 16) 0%nat).
  - reflexivity.
  - simpl. lia.
Defined.

Lemma filter_includes_nil (d : list Article) :
  filter (fun article => negb (includes [] (PMID article))) d = d.
Proof. induction d as [|a l IH]; [reflexivity|]. simpl. f_equal. exact IH. Qed.

(** X3.  Deleting two lists of identifiers one after the other leaves the
    records and the instance count that deleting both at once leaves: the
    records, in their order, whose identifier is in neither list.
    Deleting no identifier keeps every record. *)
Theorem deleteArticles_composes :
  forall (rand : nat -> num) (fullYear : Z) (dp : DataProcessor.t)
         (p1 p2 : list string) (buffer : list num) (k : nat),
    DataProcessor.cubeData dp = Some buffer ->
    (List.length (DataProcessor.data dp) * 8 <= List.length buffer)%nat ->
    exists dp1 k1 dp2 dp12 dp0,
      DataProcessor.deleteArticles rand fullYear dp p1 k = (Some dp1, k1) /\
      fst (DataProcessor.deleteArticles rand fullYear dp1 p2 k1) = Some dp2 /\
      fst (DataProcessor.deleteArticles rand fullYear dp (p1 ++ p2) k) = Some dp12 /\
      fst (DataProcessor.deleteArticles rand fullYear dp [] k) = Some dp0 /\
      DataProcessor.data dp2 = DataProcessor.data dp12 /\
      DataProcessor.instanceCount dp2 = DataProcessor.instanceCount dp12 /\
      DataProcessor.data dp2
      = filter (fun a => negb (includes p1 (PMID a)) && negb (includes p2 (PMID a)))
               (DataProcessor.data dp) /\
      DataProcessor.data dp0 = DataProcessor.data dp.
Proof.
  intros rand fullYear dp p1 p2 buffer k Hb Hl.
  rewrite (deleteArticles_eq rand fullYear dp p1 buffer k Hb Hl).
  rewrite (deleteArticles_eq rand fullYear dp (p1 ++ p2) buffer k Hb Hl).
  rewrite (deleteArticles_eq rand fullYear dp [] buffer k Hb Hl).
  set (d1 := filter (fun article => negb (includes p1 (PMID article)))
                    (DataProcessor.data dp)).
  assert (Hd : (List.length d1 <= List.length (DataProcessor.data dp))%nat)
    by apply filter_length_le.
  eexists _, _. 
  match goal with
  | |- exists dp2 dp12 dp0, (Some ?a, ?b) = _ /\ _ =>
      set (dp1 := a); set (k1 := b)
  end.
  assert (Hr : List.length (DataProcessor.rows fullYear
                 (fst (DataProcessor.positionsFrom rand
                         (DataProcessor.Build d1 (Some buffer) (List.length d1)
                            (DataProcessor.layoutMode dp)) d1 0 k)) d1)
               = (List.length d1 * 8)%nat)
    by (apply rows_length, positionsFrom_length).
  rewrite (deleteArticles_eq rand fullYear dp1 p2 _ k1 eq_refl).
  2:{ cbn [DataProcessor.data dp1 DataProcessor.set_cubeData].
      rewrite length_app, Hr, length_skipn. lia. }
  cbn [fst DataProcessor.data DataProcessor.instanceCount DataProcessor.set_cubeData dp1].
  eexists _, _, _. split; [reflexivity|]. split; [reflexivity|].
  split; [reflexivity|]. split; [reflexivity|].
  cbn [DataProcessor.data DataProcessor.instanceCount DataProcessor.set_cubeData].
  unfold d1. rewrite filter_filter_includes.
  split; [reflexivity|]. split; [reflexivity|]. split.
  - apply filter_ext. intros a. rewrite includes_app. now rewrite negb_orb.
  - apply filter_includes_nil.
Qed.

Lemma deleteArticles_composes_witness :
  exists dp1 k1 dp2 dp12 dp0,
    DataProcessor.deleteArticles rand_half 2025 loaded_4 ["r1"%string] 0%nat = (Some dp1, k1) /\
    fst (DataProcessor.deleteArticles rand_half 2025 dp1 ["r3"%string] k1) = Some dp2 /\
    fst (DataProcessor.deleteArticles rand_half 2025 loaded_4 (["r1"%string] ++ ["r3"%string])%list 0%nat)
    = Some dp12 /\
    fst (DataProcessor.deleteArticles rand_half 2025 loaded_4 [] 0%nat) = Some dp0 /\
    DataProcessor.data dp2 = DataProcessor.data dp12 /\
    DataProcessor.instanceCount dp2 = DataProcessor.instanceCount dp12 /\
    DataProcessor.data dp2
    = filter (fun a => negb (includes ["r1"%string] (PMID a))
                       && negb (includes ["r3"%string] (PMID a)))
             (DataProcessor.data loaded_4) /\
    DataProcessor.data dp0 = DataProcessor.data loaded_4.
Proof.
  apply (deleteArticles_composes rand_half 2025 loaded_4 ["r1"%string] ["r3"%string]
           (repeat (Fin 0) 32) 0%nat).
  - reflexivity.
  - simpl. lia.
Defined.

(** ** The four layouts *)

Lemma IZR_apart (a b : Z) : a <> b -> (1 <= Rabs (IZR a - IZR b))%R.
Proof.
  intros H. rewrite <- minus_IZR.
  destruct (Z.lt_total a b) as [Hlt|[E|Hgt]]; [|contradiction|].
  - assert (H1 : (a - b <= -1)%Z) by lia. apply IZR_le in H1.
    rewrite Rabs_left1 by lra. lra.
  - assert (H1 : (1 <= a - b)%Z) by lia. apply IZR_le in H1.
    rewrite Rabs_right by lra. lra.
Qed.

(** X4.  Under the grid layout two records at different indices never share
    a place: their positions lie on the plane [y = 0] and are at least
    one spacing of 2.5 apart along [x] or along [z], three times the size
    of a cube. *)
Theorem grid_positions_are_apart :
  forall (dp : DataProcessor.t) (a b : Article) (i j : nat),
    (0 < DataProcessor.instanceCount dp)%nat -> i <> j ->
    exists px pz qx qz : R,
      DataProcessor.positionByGrid dp a i = Vec3 (Fin px) (Fin 0) (Fin pz) /\
      DataProcessor.positionByGrid dp b j = Vec3 (Fin qx) (Fin 0) (Fin qz) /\
      (5 / 2 <= Rabs (px - qx) \/ 5 / 2 <= Rabs (pz - qz))%R.
Proof.
  intros dp a b i j Hn Hij.
  rewrite !positionByGrid_eq by exact Hn.
  set (s := gridSide (DataProcessor.instanceCount dp)).
  assert (Hs : (0 < s)%Z) by (apply gridSide_pos; exact Hn).
  unfold gridPoint. eexists _, _, _, _. split; [reflexivity|]. split; [reflexivity|].
  destruct (Z.eq_dec (Z.of_nat i mod s) (Z.of_nat j mod s)) as [E|N].
  - right.
    assert (N : (Z.of_nat i / s <> Z.of_nat j / s)%Z).
    { intros E'. apply Hij. apply Nat2Z.inj.
      rewrite (Z.div_mod (Z.of_nat i) s), (Z.div_mod (Z.of_nat j) s) by lia.
      now rewrite E, E'. }
    assert (H := IZR_apart _ _ N).
    replace ((IZR (Z.of_nat i / s) - IZR s / 2) * (5 / 2)
             - (IZR (Z.of_nat j / s) - IZR s / 2) * (5 / 2))%R
      with ((IZR (Z.of_nat i / s) - IZR (Z.of_nat j / s)) * (5 / 2))%R by lra.
    rewrite Rabs_mult, (Rabs_right (5 / 2)) by lra. lra.
  - left.
    assert (H := IZR_apart _ _ N).
    replace ((IZR (Z.of_nat i mod s) - IZR s / 2) * (5 / 2)
             - (IZR (Z.of_nat j mod s) - IZR s / 2) * (5 / 2))%R
      with ((IZR (Z.of_nat i mod s) - IZR (Z.of_nat j mod s)) * (5 / 2))%R by lra.
    rewrite Rabs_mult, (Rabs_right (5 / 2)) by lra. lra.
Qed.

Lemma grid_positions_are_apart_witness :
  exists px pz qx qz : R,
    DataProcessor.positionByGrid loaded_4 article_a 1 = Vec3 (Fin px) (Fin 0) (Fin pz) /\
    DataProcessor.positionByGrid loaded_4 article_b 2 = Vec3 (Fin qx) (Fin 0) (Fin qz) /\
    (5 / 2 <= Rabs (px - qx) \/ 5 / 2 <= Rabs (pz - qz))%R.
Proof.
  apply (grid_positions_are_apart loaded_4 article_a article_b 1 2).
  - simpl. lia.
  - lia.
Defined.

Lemma findIndex_from_in_filter (a : Article) (l : list Article) :
  forall (i : nat) (k : Z),
    nth_error l i = Some a ->
    (forall j b, (j < i)%nat -> nth_error l j = Some b -> PMID b <> PMID a) ->
    findIndex_from (fun x => String.eqb (PMID x) (PMID a))
                   (filter (fun x => String.eqb (PubYear x) (PubYear a)) l) k
    = (k + Z.of_nat (List.length
                       (filter (fun x => String.eqb (PubYear x) (PubYear a))
                               (firstn i l))))%Z.
Proof.
  induction l as [|b l IH]; intros i k Hi Hbefore.
  - destruct i; discriminate.
  - destruct i as [|i].
    + injection Hi as ->. cbn [filter firstn List.length].
      rewrite String.eqb_refl. cbn [findIndex_from]. rewrite String.eqb_refl. lia.
    + cbn [nth_error] in Hi. cbn [filter firstn].
      assert (Hb : PMID b <> PMID a) by (apply (Hbefore 0%nat b); [lia | reflexivity]).
      assert (IH' := fun k => IH i k Hi
                 (fun j c Hj Hc => Hbefore (S j) c ltac:(lia) Hc)).
      destruct (String.eqb (PubYear b) (PubYear a)).
      * cbn [findIndex_from List.length].
        apply String.eqb_neq in Hb. rewrite Hb. rewrite IH'. lia.
      * apply IH'.
Qed.

Lemma NoDup_map_nth_error (l : list Article) (i j : nat) (a b : Article) :
  NoDup (map PMID l) -> nth_error l i = Some a -> nth_error l j = Some b ->
  PMID b = PMID a -> j = i.
Proof.
  intros Hnd Hi Hj E.
  assert (Hi' : nth_error (map PMID l) i = Some (PMID a)) by (now apply map_nth_error).
  assert (Hj' : nth_error (map PMID l) j = Some (PMID b)) by (now apply map_nth_error).
  rewrite E in Hj'.
  apply (proj1 (NoDup_nth_error (map PMID l)) Hnd).
  - apply nth_error_Some. congruence.
  - congruence.
Qed.

(** X5.  Under the year layout, when the identifiers of the records are
    pairwise different, a record stands at [x = 3 * (year - 1990)], where
    the year is [parseInt(PubYear) || 2000], and at the height 1.5 times
    the number of records before it that have the same [PubYear]: the
    records of a year are stacked in their order, none on another. *)
Theorem year_layout_stacks_the_records :
  forall (dp : DataProcessor.t) (i : nat) (article : Article),
    NoDup (map PMID (DataProcessor.data dp)) ->
    nth_error (DataProcessor.data dp) i = Some article ->
    let earlier :=
      filter (fun a => String.eqb (PubYear a) (PubYear article))
             (firstn i (DataProcessor.data dp)) in
    DataProcessor.positionByYear dp article i
    = Vec3 (Fin ((IZR (yearOf (PubYear article)) - 1990) * 3))
           (Fin (IZR (Z.of_nat (List.length earlier)) * (3 / 2)))
           (Fin 0) /\
    forall (j : nat) (other : Article),
      nth_error (DataProcessor.data dp) j = Some other -> j <> i ->
      PubYear other = PubYear article ->
      DataProcessor.positionByYear dp other j <> DataProcessor.positionByYear dp article i.
Proof.
  intros dp i article Hnd Hi earlier.
  assert (Hpos : forall (j : nat) (a : Article),
             nth_error (DataProcessor.data dp) j = Some a ->
             DataProcessor.positionByYear dp a j
             = Vec3 (Fin ((IZR (yearOf (PubYear a)) - 1990) * 3))
                    (Fin (IZR (Z.of_nat (List.length
                            (filter (fun x => String.eqb (PubYear x) (PubYear a))
                                    (firstn j (DataProcessor.data dp))))) * (3 / 2)))
                    (Fin 0)).
  { intros j a Hj. unfold DataProcessor.positionByYear. rewrite year_or_2000.
    unfold findIndex.
    rewrite (findIndex_from_in_filter a (DataProcessor.data dp) j 0 Hj).
    - cbn [sub neg add mul of_Z]. rewrite Z.add_0_l. f_equal; f_equal; lra.
    - intros j' b Hlt Hb E.
      assert (j' = j) by (eapply NoDup_map_nth_error; eassumption). lia. }
  split; [apply Hpos, Hi|].
  intros j other Hj Hne Ey.
  rewrite (Hpos j other Hj), (Hpos i article Hi). rewrite Ey.
  intros E. injection E as E.
  set (f := fun x => String.eqb (PubYear x) (PubYear article)) in *.
  assert (Hcount : forall (n m : nat) (x : Article),
             (n < m)%nat -> nth_error (DataProcessor.data dp) n = Some x ->
             f x = true ->
             (List.length (filter f (firstn n (DataProcessor.data dp)))
              < List.length (filter f (firstn m (DataProcessor.data dp))))%nat).
  { clear. intros n m x Hnm Hn Hf.
    revert n m Hnm Hn. induction (DataProcessor.data dp) as [|b l IH]; intros n m Hnm Hn.
    - destruct n; discriminate.
    - destruct m as [|m]; [lia|]. destruct n as [|n].
      + injection Hn as ->. cbn [firstn filter]. rewrite Hf. cbn [List.length]. lia.
      + cbn [nth_error] in Hn. cbn [firstn filter].
        assert (H := IH n m ltac:(lia) Hn).
        destruct (f b); cbn [List.length]; lia. }
  assert (El : List.length (filter f (firstn j (DataProcessor.data dp)))
               = List.length (filter f (firstn i (DataProcessor.data dp)))).
  { apply Nat2Z.inj. apply eq_IZR. lra. }
  destruct (Nat.lt_total j i) as [Hlt|[Heq|Hgt]]; [|contradiction|].
  - assert (H := Hcount j i other Hlt Hj ltac:(unfold f; rewrite Ey; apply String.eqb_refl)).
    lia.
  - assert (H := Hcount i j article Hgt Hi ltac:(unfold f; apply String.eqb_refl)).
    lia.
Qed.

Lemma year_layout_stacks_the_records_witness :
  DataProcessor.positionByYear loaded_4 (mkArticle "r2" "1990" "Science") 1
  = Vec3 (Fin ((IZR (yearOf "1990") - 1990) * 3))
         (Fin (IZR (Z.of_nat (List.length
                 (filter (fun a => String.eqb (PubYear a) "1990")
                         (firstn 1 (DataProcessor.data loaded_4))))) * (3 / 2)))
         (Fin 0) /\
  forall (j : nat) (other : Article),
    nth_error (DataProcessor.data loaded_4) j = Some other -> j <> 1%nat ->
    PubYear other = "1990"%string ->
    DataProcessor.positionByYear loaded_4 other j
    <> DataProcessor.positionByYear loaded_4 (mkArticle "r2" "1990" "Science") 1.
Proof.
  apply (year_layout_stacks_the_records loaded_4 1 (mkArticle "r2" "1990" "Science")).
  - repeat constructor; simpl; intuition discriminate.
  - reflexivity.
Defined.

(** X6.  Under the journal layout a record of the data stands on the circle
    of radius 15 around the vertical axis, at a height drawn from
    [[0, 5)] with one call of [Math.random]; the records of one journal
    share their place on the circle. *)
Theorem journal_layout_is_a_ring :
  forall (rand : nat -> num) (dp : DataProcessor.t) (article : Article) (i k : nat),
    random_source rand -> In article (DataProcessor.data dp) ->
    exists x y z : R,
      DataProcessor.positionByJournal rand dp article i k
      = (Vec3 (Fin x) (Fin y) (Fin z), S k) /\
      (x * x + z * z = 15 * 15)%R /\ (0 <= y < 5)%R /\
      forall (other : Article) (j k' : nat),
        Source other = Source article ->
        c0 (fst (DataProcessor.positionByJournal rand dp other j k')) = Fin x /\
        c2 (fst (DataProcessor.positionByJournal rand dp other j k')) = Fin z.
Proof.
  intros rand dp article i k Hr Ha.
  unfold DataProcessor.positionByJournal, bind, DataProcessor.random, ret.
  set (journals := distinct (map Source (DataProcessor.data dp))).
  assert (Hj : journals <> []).
  { apply (distinct_from_nonempty _ [] (Source article)); [|easy]. now apply in_map. }
  assert (Hl : (IZR (Z.of_nat (List.length journals)) <> 0)%R).
  { intros E. apply eq_IZR in E. destruct journals; [easy | simpl in E; lia]. }
  destruct (Hr k) as (r & Er & Hr01). rewrite Er.
  unfold of_nat, of_Z. rewrite div_Fin by exact Hl.
  cbn [mul Math.PI Math.cos Math.sin].
  eexists _, _, _. split; [reflexivity|]. split; [|split].
  - set (angle := (IZR (findIndex (String.eqb (Source article)) journals)
                   / IZR (Z.of_nat (List.length journals)) * PI * 2)%R).
    assert (H := sin2_cos2 angle). unfold Rsqr in H. nra.
  - lra.
  - intros other j k' Es. rewrite Es.
    destruct (Hr k') as (r' & Er' & _). rewrite Er'.
    rewrite div_Fin by exact Hl. cbn [mul Math.PI Math.cos Math.sin fst c0 c2].
    split; reflexivity.
Qed.

Lemma journal_layout_is_a_ring_witness :
  exists x y z : R,
    DataProcessor.positionByJournal rand_half loaded_ab article_b 1 0%nat
    = (Vec3 (Fin x) (Fin y) (Fin z), 1%nat) /\
    (x * x + z * z = 15 * 15)%R /\ (0 <= y < 5)%R /\
    forall (other : Article) (j k' : nat),
      Source other = Source article_b ->
      c0 (fst (DataProcessor.positionByJournal rand_half loaded_ab other j k')) = Fin x /\
      c2 (fst (DataProcessor.positionByJournal rand_half loaded_ab other j k')) = Fin z.
Proof.
  apply (journal_layout_is_a_ring rand_half loaded_ab article_b 1 0%nat).
  - exact rand_half_source.
  - simpl. right. left. reflexivity.
Defined.

Lemma Rceil_bounds (r : R) : (IZR (Rceil r) - 1 < r <= IZR (Rceil r))%R.
Proof.
  unfold Rceil. rewrite opp_IZR.
  destruct (base_Int_part (- r)) as [H1 H2]. lra.
Qed.

(** X7.  Under the cluster layout with [n] records the side of a cluster
    cell is the least integer [side] with [n <= 4 side^2]; the record at
    index [i] is placed with three calls of [Math.random] within 1 of
    [6 (i div side)] along [x], within 1 of [6 (i mod side)] along [z]
    and within 1.5 of the plane [y = 0]. *)
Theorem cluster_layout_stays_near_its_cell :
  forall (rand : nat -> num) (dp : DataProcessor.t) (article : Article) (i k : nat),
    random_source rand -> (0 < DataProcessor.instanceCount dp)%nat ->
    exists (side : Z) (x y z : R),
      (0 < side)%Z /\
      (4 * (side - 1) * (side - 1) < Z.of_nat (DataProcessor.instanceCount dp)
       <= 4 * side * side)%Z /\
      DataProcessor.positionByCluster rand dp article i k
      = (Vec3 (Fin x) (Fin y) (Fin z), S (S (S k))) /\
      (Rabs (x - 6 * IZR (Z.of_nat i / side)) <= 1)%R /\
      (Rabs y <= 3 / 2)%R /\
      (Rabs (z - 6 * IZR (Z.of_nat i mod side)) <= 1)%R.
Proof.
  intros rand dp article i k Hr Hn.
  unfold DataProcessor.positionByCluster, bind, DataProcessor.random, ret.
  set (n := DataProcessor.instanceCount dp) in *.
  assert (H0 : (0 < IZR (Z.of_nat n) / 4)%R).
  { assert (H := IZR_lt 0 (Z.of_nat n) ltac:(lia)). lra. }
  assert (Ec : Math.ceil (Math.sqrt (of_nat n / Fin 4))
               = of_Z (Rceil (sqrt (IZR (Z.of_nat n) / 4)))).
  { unfold of_nat, of_Z. rewrite div_Fin by lra. rewrite sqrt_Fin by lra. reflexivity. }
  rewrite Ec. set (side := Rceil (sqrt (IZR (Z.of_nat n) / 4))).
  assert (Hs : (0 < side)%Z).
  { assert (H := Rceil_pos _ (sqrt_lt_R0 _ H0)). fold side in H. lia. }
  assert (Hb := Rceil_bounds (sqrt (IZR (Z.of_nat n) / 4))). fold side in Hb.
  assert (Hq := sqrt_sqrt (IZR (Z.of_nat n) / 4) ltac:(lra)).
  assert (Hp := sqrt_lt_R0 _ H0).
  assert (Hs1 := IZR_le 1 side ltac:(lia)).
  rewrite (rem_integers _ _ Hs), (floor_div_integers _ _ Hs).
  destruct (Hr k) as (r1 & E1 & H1). destruct (Hr (S k)) as (r2 & E2 & H2).
  destruct (Hr (S (S k))) as (r3 & E3 & H3). rewrite E1, E2, E3.
  unfold of_Z. cbn [mul add sub neg].
  exists side. eexists _, _, _. split; [exact Hs|]. split; [|split; [reflexivity|]].
  - split.
    + apply lt_IZR. rewrite !mult_IZR, minus_IZR. nra.
    + apply le_IZR. rewrite !mult_IZR. nra.
  - split; [|split]; apply Rabs_le; lra.
Qed.

Lemma cluster_layout_stays_near_its_cell_witness :
  exists (side : Z) (x y z : R),
    (0 < side)%Z /\
    (4 * (side - 1) * (side - 1) < Z.of_nat (DataProcessor.instanceCount loaded_4)
     <= 4 * side * side)%Z /\
    DataProcessor.positionByCluster rand_half loaded_4 article_a 3 0%nat
    = (Vec3 (Fin x) (Fin y) (Fin z), 3%nat) /\
    (Rabs (x - 6 * IZR (3 / side)) <= 1)%R /\
    (Rabs y <= 3 / 2)%R /\
    (Rabs (z - 6 * IZR (3 mod side)) <= 1)%R.
Proof.
  apply (cluster_layout_stays_near_its_cell rand_half loaded_4 article_a 3 0%nat).
  - exact rand_half_source.
  - simpl. lia.
Defined.

(** ** The selection buffer and the set of selected identifiers *)

Lemma storeZ_length (a : list Z) (i : nat) (v : Z) :
  List.length (storeZ a i v) = List.length a.
Proof.
  revert i. induction a as [|x a IH]; intros [|i]; simpl; try reflexivity.
  now rewrite IH.
Qed.

Lemma selectionBit_repeat (n i : nat) : selectionBit (repeat 0%Z n) i = false.
Proof.
  unfold selectionBit.
  replace (nth (i / 8) (repeat 0%Z n) 0%Z) with 0%Z; [apply Z.testbit_0_l|].
  symmetry. destruct (Nat.lt_ge_cases (i / 8) n) as [H|H].
  - apply nth_repeat_lt. exact H.
  - apply nth_overflow. now rewrite repeat_length.
Qed.

Lemma findIndex_from_found {A : Type} (p : A -> bool) (l : list A) :
  forall k : Z,
    findIndex_from p l k <> (-1)%Z -> (0 <= k)%Z ->
    exists (i : nat) (a : A),
      findIndex_from p l k = (k + Z.of_nat i)%Z /\ nth_error l i = Some a /\ p a = true.
Proof.
  induction l as [|b l IH]; intros k H Hk; simpl in *.
  - contradiction.
  - destruct (p b) eqn:E.
    + exists 0%nat, b. split; [lia|]. split; [reflexivity | exact E].
    + destruct (IH (k + 1)%Z H ltac:(lia)) as (i & a & E1 & E2 & E3).
      exists (S i), a. split; [lia|]. split; assumption.
Qed.

Lemma findIndex_found (dp : DataProcessor.t) (pmid : string) :
  findIndex (fun article => String.eqb (PMID article) pmid) (DataProcessor.data dp)
  <> (-1)%Z ->
  exists (i : nat) (a : Article),
    findIndex (fun article => String.eqb (PMID article) pmid) (DataProcessor.data dp)
    = Z.of_nat i /\
    nth_error (DataProcessor.data dp) i = Some a /\ PMID a = pmid.
Proof.
  intros H. destruct (findIndex_from_found _ _ 0%Z H ltac:(lia)) as (i & a & E1 & E2 & E3).
  exists i, a. split; [exact E1|]. split; [exact E2 | now apply String.eqb_eq].
Qed.

Lemma includes_set_add (l : list string) (p x : string) :
  includes (set_add l p) x = String.eqb x p || includes l x.
Proof.
  unfold set_add. destruct (includes l p) eqn:E.
  - destruct (String.eqb_spec x p) as [->|_]; [now rewrite E | reflexivity].
  - rewrite includes_app. simpl. rewrite orb_false_r. apply orb_comm.
Qed.

Lemma includes_set_delete (l : list string) (p x : string) :
  includes (set_delete l p) x = negb (String.eqb x p) && includes l x.
Proof.
  destruct (includes (set_delete l p) x) eqn:E.
  - apply includes_In, In_set_delete in E. destruct E as [E N].
    apply includes_In in E. apply String.eqb_neq in N. now rewrite E, N.
  - destruct (String.eqb_spec x p) as [->|N]; [reflexivity|].
    destruct (includes l x) eqn:E'; [|reflexivity].
    apply includes_In in E'.
    assert (H : In x (set_delete l p)) by (apply In_set_delete; split; assumption).
    apply includes_In in H. congruence.
Qed.

Lemma findIndex_from_present {A : Type} (p : A -> bool) (l : list A) (a : A) :
  forall k : Z, (0 <= k)%Z -> In a l -> p a = true -> (0 <= findIndex_from p l k)%Z.
Proof.
  induction l as [|b l IH]; intros k Hk Hin Hp; [easy|].
  cbn [findIndex_from]. destruct (p b) eqn:E; [exact Hk|].
  destruct Hin as [->|Hin]; [congruence|]. apply IH; [lia | exact Hin | exact Hp].
Qed.

Lemma In_set_add (l : list string) (p : string) : In p (set_add l p).
Proof. apply includes_In. rewrite includes_set_add. now rewrite String.eqb_refl. Qed.

(** *** One byte at a time: what the device refuses *)

Lemma readSelectionByte_rejected (s : SelectionSystem.t) (byteIndex : nat) :
  SelectionSystem.readSelectionByte s byteIndex = (Rejected, s).
Proof. destruct s. reflexivity. Qed.

Lemma updateGPUSelection_rejected (s : SelectionSystem.t) (cubeIndex : nat)
  (selected : bool) :
  SelectionSystem.updateGPUSelection s cubeIndex selected = (Rejected, s).
Proof.
  unfold SelectionSystem.updateGPUSelection. now rewrite readSelectionByte_rejected.
Qed.

Lemma findIndex_known (dp : DataProcessor.t) (pmid : string) :
  In pmid (map PMID (DataProcessor.data dp)) ->
  (findIndex (fun article => String.eqb (PMID article) pmid) (DataProcessor.data dp)
   =? -1)%Z = false.
Proof.
  intros H. apply in_map_iff in H. destruct H as (a & Ea & Ha).
  assert (Hp : String.eqb (PMID a) pmid = true) by (rewrite Ea; apply String.eqb_refl).
  assert (H := findIndex_from_present
                 (fun article => String.eqb (PMID article) pmid)
                 (DataProcessor.data dp) a 0%Z ltac:(lia) Ha Hp).
  unfold findIndex. apply Z.eqb_neq. lia.
Qed.

Lemma selectByPMID_known (s : SelectionSystem.t) (dp : DataProcessor.t) (pmid : string)
  (selected : bool) :
  In pmid (map PMID (DataProcessor.data dp)) ->
  SelectionSystem.selectByPMID s dp pmid selected
  = (Rejected,
     SelectionSystem.Build
       (if selected then set_add (SelectionSystem.selectedPMIDs s) pmid
        else set_delete (SelectionSystem.selectedPMIDs s) pmid)
       (if selected then Some pmid
        else match SelectionSystem.highlightedPMID s with
             | Some h => if String.eqb h pmid then None else Some h
             | None => None
             end)
       (SelectionSystem.selectionBuffer s) (SelectionSystem.selectionStagingBuffer s)).
Proof.
  intros H. unfold SelectionSystem.selectByPMID. rewrite (findIndex_known dp pmid H).
  rewrite updateGPUSelection_rejected. now destruct selected.
Qed.

Lemma selectByPMID_buffers (s : SelectionSystem.t) (dp : DataProcessor.t) (pmid : string)
  (selected : bool) :
  SelectionSystem.selectionBuffer (snd (SelectionSystem.selectByPMID s dp pmid selected))
  = SelectionSystem.selectionBuffer s /\
  SelectionSystem.selectionStagingBuffer
    (snd (SelectionSystem.selectByPMID s dp pmid selected))
  = SelectionSystem.selectionStagingBuffer s.
Proof.
  unfold SelectionSystem.selectByPMID.
  destruct (_ =? -1)%Z; [now split|].
  rewrite updateGPUSelection_rejected. now destruct selected.
Qed.

Lemma selectByPMID_selected (s : SelectionSystem.t) (dp : DataProcessor.t) (pmid : string)
  (selected : bool) (x : string) :
  In x (SelectionSystem.getSelected (snd (SelectionSystem.selectByPMID s dp pmid selected))) ->
  In x (SelectionSystem.getSelected s) \/ In x (map PMID (DataProcessor.data dp)).
Proof.
  unfold SelectionSystem.selectByPMID.
  destruct (_ =? -1)%Z eqn:E; [now left|].
  rewrite updateGPUSelection_rejected. unfold SelectionSystem.getSelected.
  destruct selected; cbn [snd SelectionSystem.selectedPMIDs]; intros H.
  - apply includes_In in H. rewrite includes_set_add in H.
    apply orb_true_iff in H. destruct H as [H|H].
    + apply String.eqb_eq in H. subst x. right.
      apply Z.eqb_neq in E. destruct (findIndex_found dp pmid E) as (i & a & _ & Ha & <-).
      apply in_map. eapply nth_error_In, Ha.
    + left. now apply includes_In.
  - left. apply In_set_delete in H. tauto.
Qed.

Lemma writeBuffer_zeros (n : nat) :
  match GPU.writeBuffer (repeat 0%Z n) 0 (repeat 0%Z (List.length (repeat 0%Z n))) with
  | Some buffer => buffer
  | None => repeat 0%Z n
  end = repeat 0%Z n.
Proof.
  unfold GPU.writeBuffer. rewrite !repeat_length.
  destruct (GPU.multiple 4 n); [|reflexivity].
  cbn [GPU.multiple Nat.modulo Nat.eqb andb Nat.add].
  rewrite Nat.leb_refl. cbn [firstn app].
  rewrite skipn_all2 by (rewrite repeat_length; lia). apply app_nil_r.
Qed.

(** X8.  For the identifier of a current record [selectByPMID] is not
    atomic: it updates the set of selected identifiers and the highlighted
    identifier, and then its promise is rejected, because
    [readSelectionByte] copies and maps a single byte, which the device
    refuses.  The two buffers are as they were. *)
Theorem selectByPMID_rejects_after_the_update :
  forall (s : SelectionSystem.t) (dp : DataProcessor.t) (pmid : string) (selected : bool),
    In pmid (map PMID (DataProcessor.data dp)) ->
    let result := SelectionSystem.selectByPMID s dp pmid selected in
    fst result = Rejected /\
    SelectionSystem.selectionBuffer (snd result) = SelectionSystem.selectionBuffer s /\
    SelectionSystem.selectionStagingBuffer (snd result)
    = SelectionSystem.selectionStagingBuffer s /\
    (forall x : string,
        In x (SelectionSystem.getSelected (snd result))
        <-> if selected then x = pmid \/ In x (SelectionSystem.getSelected s)
            else x <> pmid /\ In x (SelectionSystem.getSelected s)) /\
    SelectionSystem.highlightedPMID (snd result)
    = if selected then Some pmid
      else match SelectionSystem.highlightedPMID s with
           | Some h => if String.eqb h pmid then None else Some h
           | None => None
           end.
Proof.
  intros s dp pmid selected H result. unfold result.
  rewrite (selectByPMID_known s dp pmid selected H).
  cbn [fst snd SelectionSystem.selectionBuffer SelectionSystem.selectionStagingBuffer
       SelectionSystem.highlightedPMID SelectionSystem.getSelected
       SelectionSystem.selectedPMIDs].
  split; [reflexivity|]. split; [reflexivity|]. split; [reflexivity|].
  split; [|reflexivity].
  intros x. destruct selected.
  - rewrite <- !includes_In, includes_set_add, orb_true_iff, String.eqb_eq. tauto.
  - rewrite In_set_delete. tauto.
Qed.

Lemma selectByPMID_rejects_after_the_update_witness :
  let result :=
    SelectionSystem.selectByPMID (SelectionSystem.create loaded_4) loaded_4 "r3" true in
  fst result = Rejected /\
  SelectionSystem.selectionBuffer (snd result) = [0%Z] /\
  SelectionSystem.getSelected (snd result) = ["r3"%string] /\
  SelectionSystem.highlightedPMID (snd result) = Some "r3"%string.
Proof.
  assert (Hin : In "r3"%string (map PMID (DataProcessor.data loaded_4)))
    by (simpl; tauto).
  destruct (selectByPMID_rejects_after_the_update
              (SelectionSystem.create loaded_4) loaded_4 "r3" true Hin)
    as (H1 & H2 & _ & _ & H5).
  split; [exact H1|]. split; [exact H2|]. split; [reflexivity | exact H5].
Defined.

(** X9.  Whatever calls of [selectByPMID] and [clearSelection] are made on a
    selection system created for the records, no bit of the selection
    buffer is ever set: the two buffers hold the zero bytes
    [createSelectionBuffers] gave them, while [getSelected] reports the
    identifiers that were selected, which are identifiers of records. *)
Theorem selection_buffer_is_never_written :
  forall (dp : DataProcessor.t) (calls : list SelectionSystemEvents.Call),
    let s := SelectionSystemEvents.callAll dp (SelectionSystem.create dp) calls in
    SelectionSystem.selectionBuffer s
    = repeat 0%Z ((DataProcessor.instanceCount dp + 7) / 8) /\
    SelectionSystem.selectionStagingBuffer s
    = repeat 0%Z ((DataProcessor.instanceCount dp + 7) / 8) /\
    (forall i : nat, selectionBit (SelectionSystem.selectionBuffer s) i = false) /\
    (forall x : string,
        In x (SelectionSystem.getSelected s) -> In x (map PMID (DataProcessor.data dp))).
Proof.
  intros dp calls s.
  assert (H : SelectionSystem.selectionBuffer s
              = repeat 0%Z ((DataProcessor.instanceCount dp + 7) / 8) /\
              SelectionSystem.selectionStagingBuffer s
              = repeat 0%Z ((DataProcessor.instanceCount dp + 7) / 8) /\
              (forall x : string,
                  In x (SelectionSystem.getSelected s) ->
                  In x (map PMID (DataProcessor.data dp)))).
  { unfold s, SelectionSystemEvents.callAll.
    assert (H0 : SelectionSystem.selectionBuffer (SelectionSystem.create dp)
                 = repeat 0%Z ((DataProcessor.instanceCount dp + 7) / 8) /\
                 SelectionSystem.selectionStagingBuffer (SelectionSystem.create dp)
                 = repeat 0%Z ((DataProcessor.instanceCount dp + 7) / 8) /\
                 (forall x : string,
                     In x (SelectionSystem.getSelected (SelectionSystem.create dp)) ->
                     In x (map PMID (DataProcessor.data dp))))
      by (split; [reflexivity|]; split; [reflexivity | intros x []]).
    revert H0. generalize (SelectionSystem.create dp).
    induction calls as [|c calls IH]; intros s0 H0; [exact H0|].
    cbn [fold_left]. apply IH. destruct H0 as (Hb & Hs & Hsel).
    destruct c as [pmid selected|]; cbn [SelectionSystemEvents.call].
    - destruct (selectByPMID_buffers s0 dp pmid selected) as [E1 E2].
      rewrite E1, E2. split; [exact Hb|]. split; [exact Hs|].
      intros x Hx. destruct (selectByPMID_selected s0 dp pmid selected x Hx) as [Hx'|Hx'];
        [now apply Hsel | exact Hx'].
    - unfold SelectionSystem.clearSelection.
      cbn [SelectionSystem.selectionBuffer SelectionSystem.selectionStagingBuffer
           SelectionSystem.getSelected SelectionSystem.selectedPMIDs].
      rewrite Hb. split; [apply writeBuffer_zeros|]. split; [exact Hs | intros x []]. }
  destruct H as (Hb & Hs & Hsel).
  split; [exact Hb|]. split; [exact Hs|]. split; [|exact Hsel].
  intros i. rewrite Hb. apply selectionBit_repeat.
Qed.

(** The records [r3] and [r1] are selected, one after the other:
    [getSelected] reports both, and their bits in the buffer are clear. *)
Example selected_but_not_in_the_buffer :
  let s := SelectionSystemEvents.callAll loaded_4 (SelectionSystem.create loaded_4)
             [SelectionSystemEvents.SelectByPMID "r3" true;
              SelectionSystemEvents.SelectByPMID "r1" true] in
  SelectionSystem.getSelected s = ["r3"; "r1"]%string /\
  selectionBit (SelectionSystem.selectionBuffer s) 2 = false /\
  selectionBit (SelectionSystem.selectionBuffer s) 0 = false.
Proof. repeat split. Qed.

(** X10.  [deleteArticles] of the selection system removes the deleted
    identifiers from the selected set and keeps the others, but it
    creates the buffers again, all zero: the bit of every cube is clear
    afterwards, also of the records that are still selected. *)
Theorem selection_deleteArticles_clears_every_bit :
  forall (s : SelectionSystem.t) (dp : DataProcessor.t) (pmids : list string),
    let s' := SelectionSystem.deleteArticles s dp pmids in
    (forall x : string,
        In x (SelectionSystem.getSelected s')
        <-> In x (SelectionSystem.getSelected s) /\ ~ In x pmids) /\
    SelectionSystem.selectionBuffer s'
    = repeat 0%Z ((DataProcessor.instanceCount dp + 7) / 8) /\
    (forall i : nat, selectionBit (SelectionSystem.selectionBuffer s') i = false).
Proof.
  intros s dp pmids s'. split; [|split].
  - intros x. apply In_fold_set_delete.
  - reflexivity.
  - intros i. apply selectionBit_repeat.
Qed.

Lemma castFrom_hit (rand : nat -> num) (dp : DataProcessor.t) (origin direction : vec3)
  (cubes : list Article) :
  forall (i : nat) (closest : SelectionSystem.Closest) (k : nat) (hit : SelectionSystem.Hit),
    (forall h, fst closest = Some h ->
               SelectionSystem.hit_pmid h = PMID (SelectionSystem.hit_article h)) ->
    fst (fst (SelectionSystem.castFrom rand dp origin direction cubes i closest k)) = Some hit ->
    SelectionSystem.hit_pmid hit = PMID (SelectionSystem.hit_article hit) /\
    (fst closest = Some hit \/ In (SelectionSystem.hit_article hit) cubes).
Proof.
  induction cubes as [|cube rest IH]; intros i closest k hit Hc H.
  - cbn in H. split; [now apply Hc | now left].
  - cbn [SelectionSystem.castFrom] in H. unfold bind in H.
    destruct (DataProcessor.calculatePosition rand dp cube i k) as [p k1].
    apply IH in H.
    + destruct H as [H1 H2]. split; [exact H1|].
      destruct H2 as [H2|H2]; [|right; now right].
      rewrite testSphere_eq in H2.
      destruct (_ && _) in H2; [|now left].
      cbn [fst] in H2. injection H2 as <-. right. now left.
    + intros h Hh. rewrite testSphere_eq in Hh.
      destruct (_ && _) in Hh; [|now apply Hc].
      cbn [fst] in Hh. now injection Hh as <-.
Qed.

(** X11.  [handleProjectile] never dispatches ['cube-selected'].  When
    [rayCast] returns a cube, which is a record of the data, the
    identifier of the cube is selected and highlighted, and then the
    promise is rejected with that of [selectByPMID], before the event is
    made; when [rayCast] returns nothing, the selection is as it was. *)
Theorem handleProjectile_never_dispatches :
  forall (rand : nat -> num) (dp : DataProcessor.t) (s : SelectionSystem.t)
         (detail : ControlsState.Fired) (k : nat),
    let '(settled, s', dispatched) :=
      fst (SelectionSystemEvents.handleProjectile rand s dp detail k) in
    dispatched = None /\
    match fst (SelectionSystem.rayCast rand dp (ControlsState.origin detail)
                 (ControlsState.direction detail) k) with
    | Some hit =>
        In (SelectionSystem.hit_article hit) (DataProcessor.data dp) /\
        settled = Rejected /\
        In (PMID (SelectionSystem.hit_article hit)) (SelectionSystem.getSelected s') /\
        SelectionSystem.highlightedPMID s' = Some (PMID (SelectionSystem.hit_article hit)) /\
        SelectionSystem.selectionBuffer s' = SelectionSystem.selectionBuffer s
    | None => settled = Fulfilled tt /\ s' = s
    end.
Proof.
  intros rand dp s detail k.
  unfold SelectionSystemEvents.handleProjectile, bind.
  destruct (SelectionSystem.rayCast rand dp (ControlsState.origin detail)
              (ControlsState.direction detail) k) as [[hit|] k1] eqn:E;
    cbn [fst snd ret]; [|now repeat split].
  assert (H : SelectionSystem.hit_pmid hit = PMID (SelectionSystem.hit_article hit) /\
              In (SelectionSystem.hit_article hit) (DataProcessor.data dp)).
  { unfold SelectionSystem.rayCast, bind in E.
    destruct (SelectionSystem.castFrom rand dp (ControlsState.origin detail)
                (ControlsState.direction detail) (DataProcessor.data dp) 0 (None, PInf) k)
      as [closest k2] eqn:Ec.
    cbn [ret] in E. injection E as E _.
    destruct (castFrom_hit rand dp (ControlsState.origin detail)
                (ControlsState.direction detail) (DataProcessor.data dp) 0 (None, PInf) k hit)
      as [H1 [H2|H2]].
    - intros h Hh. discriminate.
    - now rewrite Ec.
    - discriminate.
    - split; assumption. }
  destruct H as [Ep Hin]. rewrite Ep.
  rewrite selectByPMID_known by (now apply in_map).
  cbn [fst snd ret SelectionSystem.getSelected SelectionSystem.selectedPMIDs
       SelectionSystem.highlightedPMID SelectionSystem.selectionBuffer].
  split; [reflexivity|]. split; [exact Hin|]. split; [reflexivity|].
  split; [apply In_set_add|]. split; reflexivity.
Qed.

Lemma nth_error_storeZ_eq (a : list Z) (i : nat) (v : Z) :
  (i < List.length a)%nat -> nth_error (storeZ a i v) i = Some v.
Proof.
  revert i. induction a as [|x a IH]; intros [|i] H; simpl in *; try lia.
  - reflexivity.
  - apply IH. lia.
Qed.

Lemma nth_error_storeZ_neq (a : list Z) (i j : nat) (v : Z) :
  i <> j -> nth_error (storeZ a i v) j = nth_error a j.
Proof.
  revert i j. induction a as [|x a IH]; intros [|i] [|j] H; simpl; try reflexivity.
  - lia.
  - apply IH. lia.
Qed.

Lemma nth_error_repeat_lt (n i : nat) (v : Z) :
  (i < n)%nat -> nth_error (repeat v n) i = Some v.
Proof.
  revert i. induction n as [|n IH]; intros [|i] H; simpl; try lia.
  - reflexivity.
  - apply IH. lia.
Qed.

Lemma initialize_mirrors (dp : DataProcessor.t) :
  DataProcessor.consistent dp -> DataProcessor.instanceCount dp <> 0%nat ->
  mirrorsSimplified dp
    (SelectionSystemSimplified.initializeSelectionBuffer SelectionSystemSimplified.create dp).
Proof.
  intros Hc Hn. unfold SelectionSystemSimplified.initializeSelectionBuffer.
  destruct (Nat.eqb_spec (DataProcessor.instanceCount dp) 0); [contradiction|].
  exists (repeat 0%Z (DataProcessor.instanceCount dp)).
  split; [reflexivity|]. split; [reflexivity|]. split; [apply repeat_length|].
  intros i a Ha. cbn. apply nth_error_repeat_lt.
  rewrite Hc. apply nth_error_Some. congruence.
Qed.

Lemma clearSelection_mirrorsSimplified (dp : DataProcessor.t)
  (s : SelectionSystemSimplified.t) :
  DataProcessor.consistent dp ->
  mirrorsSimplified dp s -> mirrorsSimplified dp (SelectionSystemSimplified.clearSelection s).
Proof.
  intros Hc (words & Hd & Hb & Hl & _).
  unfold SelectionSystemSimplified.clearSelection. rewrite Hd, Hb.
  exists (repeat 0%Z (List.length words)).
  cbn [SelectionSystemSimplified.selectionData SelectionSystemSimplified.selectionBuffer
       SelectionSystemSimplified.selectedPMIDs].
  split; [reflexivity|]. split.
  - rewrite repeat_length, Nat.leb_refl, skipn_all. now rewrite app_nil_r.
  - split; [now rewrite repeat_length|].
    intros i a Ha. cbn. apply nth_error_repeat_lt.
    rewrite Hl, Hc. apply nth_error_Some. congruence.
Qed.

Lemma selectByPMID_mirrorsSimplified (dp : DataProcessor.t)
  (s : SelectionSystemSimplified.t) (pmid : string) (selected : bool) :
  DataProcessor.consistent dp -> NoDup (map PMID (DataProcessor.data dp)) ->
  mirrorsSimplified dp s ->
  mirrorsSimplified dp (snd (SelectionSystemSimplified.selectByPMID s dp pmid selected)).
Proof.
  intros Hc Hnd H. unfold SelectionSystemSimplified.selectByPMID.
  destruct (DataProcessor.cubeData dp); [|exact H].
  destruct (Z.eqb_spec
              (findIndex (fun article => String.eqb (PMID article) pmid)
                         (DataProcessor.data dp)) (-1)) as [E|N]; [exact H|].
  destruct (findIndex_found dp pmid N) as (idx & a0 & -> & Hidx & Ea0).
  rewrite Nat2Z.id. destruct H as (words & Hd & Hb & Hl & Hw). rewrite Hd, Hb. cbn [snd].
  exists (storeZ words idx (if selected then 1%Z else 0%Z)).
  cbn [SelectionSystemSimplified.selectionData SelectionSystemSimplified.selectionBuffer
       SelectionSystemSimplified.selectedPMIDs].
  split; [reflexivity|]. split; [reflexivity|]. split; [now rewrite storeZ_length|].
  assert (Hlt : (idx < List.length words)%nat).
  { rewrite Hl, Hc. apply nth_error_Some. congruence. }
  intros i a Ha.
  assert (Einc : includes (if selected
                           then set_add (SelectionSystemSimplified.selectedPMIDs s) pmid
                           else set_delete (SelectionSystemSimplified.selectedPMIDs s) pmid)
                          (PMID a)
                 = if String.eqb (PMID a) pmid then selected
                   else includes (SelectionSystemSimplified.selectedPMIDs s) (PMID a)).
  { destruct selected.
    - rewrite includes_set_add. now destruct (String.eqb (PMID a) pmid).
    - rewrite includes_set_delete. now destruct (String.eqb (PMID a) pmid). }
  rewrite Einc.
  destruct (Nat.eq_dec i idx) as [->|Ni].
  - assert (a = a0) by congruence. subst a. rewrite Ea0, String.eqb_refl.
    now apply nth_error_storeZ_eq.
  - rewrite nth_error_storeZ_neq by congruence.
    destruct (String.eqb_spec (PMID a) pmid) as [Ep|_]; [|apply Hw, Ha].
    exfalso. apply Ni.
    apply (NoDup_map_nth_error (DataProcessor.data dp) idx i a0 a Hnd Hidx Ha).
    congruence.
Qed.

(** X12.  In the simplified selection system, once the buffers are
    initialized for a non-empty set of records with pairwise different
    identifiers, after every sequence of calls of [selectByPMID] and
    [clearSelection] the array [selectionData] and the GPU buffer hold the
    same words, one per record: 1 when [getSelected] reports the
    identifier of the record and 0 when it does not. *)
Theorem simplified_buffer_mirrors_the_selected_set :
  forall (dp : DataProcessor.t) (calls : list SelectionSystemEvents.Call),
    DataProcessor.consistent dp -> DataProcessor.instanceCount dp <> 0%nat ->
    NoDup (map PMID (DataProcessor.data dp)) ->
    let s := SelectionSystemEvents.callAllSimplified dp
               (SelectionSystemSimplified.initializeSelectionBuffer
                  SelectionSystemSimplified.create dp) calls in
    SelectionSystemSimplified.selectionBuffer s = SelectionSystemSimplified.selectionData s /\
    forall (i : nat) (a : Article),
      nth_error (DataProcessor.data dp) i = Some a ->
      (In (PMID a) (SelectionSystemSimplified.getSelected s) ->
       selectionWord (SelectionSystemSimplified.selectionBuffer s) i = Some 1%Z) /\
      (~ In (PMID a) (SelectionSystemSimplified.getSelected s) ->
       selectionWord (SelectionSystemSimplified.selectionBuffer s) i = Some 0%Z).
Proof.
  intros dp calls Hc Hn Hnd s.
  assert (H : mirrorsSimplified dp s).
  { unfold s, SelectionSystemEvents.callAllSimplified.
    generalize (initialize_mirrors dp Hc Hn).
    generalize (SelectionSystemSimplified.initializeSelectionBuffer
                  SelectionSystemSimplified.create dp).
    induction calls as [|c calls IH]; intros s0 H0; [exact H0|].
    cbn [fold_left]. apply IH.
    destruct c as [pmid selected|]; cbn [SelectionSystemEvents.callSimplified].
    - now apply selectByPMID_mirrorsSimplified.
    - now apply clearSelection_mirrorsSimplified. }
  destruct H as (words & Hd & Hb & Hl & Hw). rewrite Hd, Hb.
  split; [reflexivity|]. intros i a Ha. cbn [selectionWord]. rewrite (Hw i a Ha).
  unfold SelectionSystemSimplified.getSelected. split; intros Hin.
  - apply includes_In in Hin. now rewrite Hin.
  - destruct (includes (SelectionSystemSimplified.selectedPMIDs s) (PMID a)) eqn:E;
      [|reflexivity].
    exfalso. apply Hin. now apply includes_In.
Qed.

Lemma simplified_buffer_mirrors_the_selected_set_witness :
  let s := SelectionSystemEvents.callAllSimplified loaded_4
             (SelectionSystemSimplified.initializeSelectionBuffer
                SelectionSystemSimplified.create loaded_4)
             [SelectionSystemEvents.SelectByPMID "r2" true;
              SelectionSystemEvents.ClearSelection;
              SelectionSystemEvents.SelectByPMID "r4" true] in
  SelectionSystemSimplified.selectionBuffer s = SelectionSystemSimplified.selectionData s /\
  forall (i : nat) (a : Article),
    nth_error (DataProcessor.data loaded_4) i = Some a ->
    (In (PMID a) (SelectionSystemSimplified.getSelected s) ->
     selectionWord (SelectionSystemSimplified.selectionBuffer s) i = Some 1%Z) /\
    (~ In (PMID a) (SelectionSystemSimplified.getSelected s) ->
     selectionWord (SelectionSystemSimplified.selectionBuffer s) i = Some 0%Z).
Proof.
  apply (simplified_buffer_mirrors_the_selected_set loaded_4).
  - reflexivity.
  - discriminate.
  - repeat constructor; simpl; intuition discriminate.
Defined.

(** ** The application *)

Lemma processData_ready_pair (rand : nat -> num) (fullYear : Z) (dp : DataProcessor.t)
  (k : nat) :
  DataProcessor.ready dp ->
  exists dp' k',
    DataProcessor.processData rand fullYear dp k = (Some dp', k') /\
    DataProcessor.ready dp' /\
    DataProcessor.data dp' = DataProcessor.data dp /\
    DataProcessor.layoutMode dp' = DataProcessor.layoutMode dp.
Proof.
  intros H. destruct (processData_ready rand fullYear dp k H) as (dp' & E & H').
  destruct (DataProcessor.processData rand fullYear dp k) as [r k'].
  cbn [fst] in E. subst r. now exists dp', k'.
Qed.

Lemma setViewMode_invariant (rand : nat -> num) (fullYear : Z)
  (app : WebGPUHyperCube.t) (mode : string) (k : nat) :
  app_invariant app ->
  app_invariant (fst (WebGPUHyperCube.setViewMode rand fullYear app mode k)) /\
  WebGPUHyperCube.viewMode (fst (WebGPUHyperCube.setViewMode rand fullYear app mode k)) = mode /\
  DataProcessor.layoutMode
    (WebGPUHyperCube.dataProcessor
       (fst (WebGPUHyperCube.setViewMode rand fullYear app mode k))) = mode.
Proof.
  intros (Hd & Hn & Hr & Hs & Hh & Hb1 & Hb2).
  unfold WebGPUHyperCube.setViewMode, bind, DataProcessor.recomputeLayout.
  destruct (processData_ready_pair rand fullYear
              (DataProcessor.setLayoutMode (WebGPUHyperCube.dataProcessor app) mode) k)
    as (dp' & k' & E & Hr' & Ed & El).
  { now apply setLayoutMode_ready. }
  cbn [WebGPUHyperCube.dataProcessor WebGPUHyperCube.set_viewMode].
  rewrite E. cbn [fst ret].
  split; [|split; [reflexivity | exact El]].
  unfold app_invariant.
  cbn [WebGPUHyperCube.dataProcessor WebGPUHyperCube.set_viewMode
       WebGPUHyperCube.set_dataProcessor WebGPUHyperCube.data WebGPUHyperCube.cubeCount
       WebGPUHyperCube.selection].
  rewrite Ed. cbn [DataProcessor.data DataProcessor.setLayoutMode].
  split; [exact Hd|]. split; [exact Hn|]. split; [exact Hr'|].
  split; [exact Hs|]. split; [exact Hh|]. split; assumption.
Qed.

Lemma selectArticle_invariant (validSelector : string -> bool)
  (app : WebGPUHyperCube.t) (pmid : string) (selected : bool) :
  app_invariant app ->
  app_invariant (snd (WebGPUHyperCube.selectArticle validSelector app pmid selected)).
Proof.
  intros (Hd & Hn & Hr & Hs & Hh & Hb1 & Hb2).
  unfold WebGPUHyperCube.selectArticle.
  match goal with
  | |- app_invariant (snd (if ?b then (_, ?a) else (_, ?a))) =>
      replace (snd (if b then (Fulfilled tt, a) else (Rejected, a))) with a
        by (now destruct b)
  end.
  unfold app_invariant.
  cbn [WebGPUHyperCube.dataProcessor WebGPUHyperCube.set_selection WebGPUHyperCube.data
       WebGPUHyperCube.cubeCount WebGPUHyperCube.selection].
  split; [exact Hd|]. split; [exact Hn|]. split; [exact Hr|].
  unfold SelectionSystemSimplified.selectByPMID.
  destruct (DataProcessor.cubeData (WebGPUHyperCube.dataProcessor app));
    [|cbn [snd]; repeat split; assumption].
  destruct (Z.eqb_spec
              (findIndex (fun article => String.eqb (PMID article) pmid)
                         (DataProcessor.data (WebGPUHyperCube.dataProcessor app))) (-1))
    as [E|N]; [cbn [snd]; repeat split; assumption|].
  destruct (findIndex_found _ pmid N) as (idx & a0 & _ & Hidx & Ea0).
  assert (Hin : In pmid (map PMID (WebGPUHyperCube.data app))).
  { rewrite Hd, <- Ea0. apply in_map. eapply nth_error_In, Hidx. }
  rewrite Hb2. cbn [snd].
  cbn [SelectionSystemSimplified.getSelected SelectionSystemSimplified.selectedPMIDs
       SelectionSystemSimplified.highlightedPMID SelectionSystemSimplified.selectionBuffer
       SelectionSystemSimplified.selectionData].
  unfold SelectionSystemSimplified.getSelected in Hs.
  split; [|split; [|split; [exact Hb1 | reflexivity]]].
  - intros x Hx. destruct selected.
    + apply includes_In in Hx. rewrite includes_set_add in Hx.
      destruct (String.eqb x pmid) eqn:Ex.
      * apply String.eqb_eq in Ex. now rewrite Ex.
      * apply Hs. now apply includes_In.
    + apply In_set_delete in Hx. now apply Hs.
  - intros h Eh. destruct selected.
    + now injection Eh as <-.
    + destruct (SelectionSystemSimplified.highlightedPMID (WebGPUHyperCube.selection app))
        as [h0|] eqn:E0; [|discriminate].
      destruct (String.eqb h0 pmid); [discriminate|]. apply Hh. exact Eh.
Qed.

Lemma deleteSelected_invariant (rand : nat -> num) (fullYear : Z)
  (app : WebGPUHyperCube.t) (confirmed : bool) (k : nat) :
  app_invariant app ->
  exists app' k',
    WebGPUHyperCube.deleteSelected rand fullYear app confirmed k
    = ((Fulfilled tt, app'), k') /\
    app_invariant app' /\
    WebGPUHyperCube.viewMode app' = WebGPUHyperCube.viewMode app /\
    DataProcessor.layoutMode (WebGPUHyperCube.dataProcessor app')
    = DataProcessor.layoutMode (WebGPUHyperCube.dataProcessor app) /\
    (SelectionSystemSimplified.getSelected (WebGPUHyperCube.selection app) <> [] ->
     confirmed = true ->
     SelectionSystemSimplified.getSelected (WebGPUHyperCube.selection app') = [] /\
     WebGPUHyperCube.data app'
     = filter (fun article =>
                 negb (includes (SelectionSystemSimplified.getSelected
                                   (WebGPUHyperCube.selection app)) (PMID article)))
              (WebGPUHyperCube.data app)).
Proof.
  intros Hinv. assert (Hinv' := Hinv).
  destruct Hinv' as (Hd & Hn & Hr & Hs & Hh & Hb1 & Hb2).
  unfold WebGPUHyperCube.deleteSelected.
  set (selected := SelectionSystemSimplified.getSelected (WebGPUHyperCube.selection app)).
  destruct (Nat.eqb_spec (List.length selected) 0) as [E0|N0].
  { exists app, k. split; [reflexivity|]. split; [exact Hinv|]. split; [reflexivity|].
    split; [reflexivity|]. intros Hne. destruct selected; [contradiction | discriminate]. }
  destruct confirmed.
  2:{ exists app, k. split; [reflexivity|]. split; [exact Hinv|]. split; [reflexivity|].
      split; [reflexivity|]. discriminate. }
  destruct Hr as (Hc & buffer & Hbuf & Hlen).
  unfold bind.
  rewrite (deleteArticles_eq rand fullYear _ selected buffer k Hbuf Hlen).
  cbn [ret]. eexists _, _. split; [reflexivity|].
  set (d := filter (fun article => negb (includes selected (PMID article)))
                   (DataProcessor.data (WebGPUHyperCube.dataProcessor app))).
  assert (Hdl : (List.length d
                 <= List.length (DataProcessor.data (WebGPUHyperCube.dataProcessor app)))%nat)
    by apply filter_length_le.
  unfold app_invariant.
  cbn [WebGPUHyperCube.dataProcessor WebGPUHyperCube.set_selection WebGPUHyperCube.data
       WebGPUHyperCube.cubeCount WebGPUHyperCube.selection WebGPUHyperCube.set_data
       WebGPUHyperCube.set_dataProcessor WebGPUHyperCube.viewMode
       DataProcessor.data DataProcessor.set_cubeData DataProcessor.layoutMode].
  rewrite Hd. fold d.
  unfold SelectionSystemSimplified.clearSelection. rewrite Hb1.
  cbn [SelectionSystemSimplified.getSelected SelectionSystemSimplified.selectedPMIDs
       SelectionSystemSimplified.highlightedPMID SelectionSystemSimplified.selectionBuffer
       SelectionSystemSimplified.selectionData].
  split; [|split; [reflexivity|split; [reflexivity|intros _ _; split; reflexivity]]].
  split; [reflexivity|]. split; [reflexivity|].
  split.
  { split; [reflexivity|]. eexists. split; [reflexivity|].
    cbn [DataProcessor.data].
    rewrite length_app, rows_length by apply positionsFrom_length.
    rewrite length_skipn. cbn [DataProcessor.data DataProcessor.set_cubeData]. lia. }
  split; [intros x []|]. split; [discriminate|]. split; [reflexivity | exact Hb2].
Qed.

Lemma callAll_invariant (rand : nat -> num) (fullYear : Z)
  (validSelector : string -> bool) (calls : list WebGPUHyperCube.Call) :
  forall (app : WebGPUHyperCube.t) (k : nat),
    app_invariant app ->
    exists app' k',
      WebGPUHyperCube.callAll rand fullYear validSelector app calls k
      = ((map (outcome validSelector) calls, app'), k') /\
      app_invariant app'.
Proof.
  induction calls as [|c calls IH]; intros app k Hinv.
  - exists app, k. split; [reflexivity | exact Hinv].
  - cbn [WebGPUHyperCube.callAll map]. unfold bind.
    destruct c as [mode|pmid selected|confirmed]; cbn [WebGPUHyperCube.call outcome].
    + unfold bind.
      destruct (setViewMode_invariant rand fullYear app mode k Hinv) as (H & _).
      destruct (WebGPUHyperCube.setViewMode rand fullYear app mode k) as [app1 k1].
      cbn [ret fst snd] in *.
      destruct (IH app1 k1 H) as (app' & k' & -> & H').
      exists app', k'. split; [reflexivity | exact H'].
    + cbn [ret].
      destruct (IH _ k (selectArticle_invariant validSelector app pmid selected Hinv))
        as (app' & k' & -> & H').
      exists app', k'. split; [|exact H'].
      unfold WebGPUHyperCube.selectArticle.
      now destruct (validSelector (WebGPUHyperCube.rowSelector pmid)).
    + destruct (deleteSelected_invariant rand fullYear app confirmed k Hinv)
        as (app1 & k1 & -> & H & _).
      cbn [fst snd].
      destruct (IH app1 k1 H) as (app' & k' & -> & H').
      exists app', k'. split; [reflexivity | exact H'].
Qed.

(** X13.  Loading the records never fails.  After it, whatever calls of
    [setViewMode], [selectArticle] and [deleteSelected] the page makes, the
    records of the application are the records of the processor,
    [cubeCount] and the instance count are their number, every identifier
    [getSelected] reports and the highlighted identifier are identifiers
    of current records, and the buffers of the selection system stay
    [null], since nothing calls [initializeSelectionBuffer].  On a page
    that has the elements the application looks up by their identifier,
    every call runs to its end, but for a [selectArticle] whose
    identifier makes the selector of its row one that the browser cannot
    parse: that one updates the selection and then throws. *)
Theorem application_stays_consistent :
  forall (rand : nat -> num) (fullYear : Z) (validSelector : string -> bool)
         (width height : num) (records : list Article)
         (calls : list WebGPUHyperCube.Call) (k : nat),
    exists (loaded : WebGPUHyperCube.t) (k0 : nat) (app : WebGPUHyperCube.t) (k' : nat),
      WebGPUHyperCube.loadData rand fullYear (WebGPUHyperCube.create width height) records k
      = (Some loaded, k0) /\
      WebGPUHyperCube.data loaded = records /\
      WebGPUHyperCube.viewMode loaded = "grid"%string /\
      WebGPUHyperCube.callAll rand fullYear validSelector loaded calls k0
      = ((map (outcome validSelector) calls, app), k') /\
      app_invariant app /\
      DataProcessor.instanceCount (WebGPUHyperCube.dataProcessor app)
      = WebGPUHyperCube.cubeCount app.
Proof.
  intros rand fullYear validSelector width height records calls k.
  unfold WebGPUHyperCube.loadData, bind.
  destruct (uploadData_ready rand fullYear DataProcessor.create records k)
    as (dp' & E & Hr & Ed & _).
  cbn [WebGPUHyperCube.dataProcessor WebGPUHyperCube.set_data WebGPUHyperCube.create].
  destruct (DataProcessor.uploadData rand fullYear DataProcessor.create records k)
    as [r k1].
  cbn [fst] in E. subst r.
  set (app1 := WebGPUHyperCube.set_dataProcessor _ dp').
  assert (H1 : app_invariant app1).
  { unfold app_invariant, app1.
    cbn [WebGPUHyperCube.dataProcessor WebGPUHyperCube.set_selection WebGPUHyperCube.data
         WebGPUHyperCube.cubeCount WebGPUHyperCube.selection WebGPUHyperCube.set_data
         WebGPUHyperCube.set_dataProcessor].
    split; [now rewrite Ed|]. split; [reflexivity|]. split; [exact Hr|].
    split; [intros x []|]. split; [discriminate|]. split; reflexivity. }
  destruct (setViewMode_invariant rand fullYear app1 "grid" k1 H1) as (H2 & Hm & _).
  assert (Hdata : WebGPUHyperCube.data
                    (fst (WebGPUHyperCube.setViewMode rand fullYear app1 "grid" k1))
                  = records).
  { unfold WebGPUHyperCube.setViewMode, bind.
    destruct (DataProcessor.recomputeLayout rand fullYear _ k1) as [[dp2|] k2]; reflexivity. }
  destruct (WebGPUHyperCube.setViewMode rand fullYear app1 "grid" k1) as [app2 k2].
  cbn [fst] in H2, Hm, Hdata. cbn [ret].
  destruct (callAll_invariant rand fullYear validSelector calls app2 k2 H2)
    as (app & k' & Ec & Hinv).
  exists app2, k2, app, k'. split; [reflexivity|]. split; [exact Hdata|].
  split; [exact Hm|]. split; [exact Ec|]. split; [exact Hinv|].
  destruct Hinv as (Hd & Hn & (Hc & _) & _). rewrite Hn, Hd. exact Hc.
Qed.

(** An identifier with a double quote between its two letters, on a page
    whose browser refuses the selector of its row: the record is
    selected, and the promise of [selectArticle] is rejected. *)
Example selectArticle_with_a_quote :
  let pmid := ("a" ++ WebGPUHyperCube.quote ++ "b")%string in
  let refuses := fun selector : string =>
    negb (String.eqb selector (WebGPUHyperCube.rowSelector pmid)) in
  let app :=
    WebGPUHyperCube.Build [mkArticle pmid "1990" "Nature"] 1 (Fin 0) (Fin 0) (Fin 0) "grid"
      (DataProcessor.Build [mkArticle pmid "1990" "Nature"] (Some (repeat (Fin 0) 8)) 1 "grid")
      None SelectionSystemSimplified.create in
  let result := WebGPUHyperCube.selectArticle refuses app pmid true in
  fst result = Rejected /\
  SelectionSystemSimplified.getSelected (WebGPUHyperCube.selection (snd result)) = [pmid].
Proof. split; reflexivity. Qed.

(** ** The handlers of [Controls] *)

Lemma generateProjectile_frame (c : ControlsState.t) :
  ControlsState.keys (ControlsState.generateProjectile c) = ControlsState.keys c /\
  ControlsState.isPointerLocked (ControlsState.generateProjectile c)
  = ControlsState.isPointerLocked c /\
  ControlsState.isEnabled (ControlsState.generateProjectile c) = ControlsState.isEnabled c /\
  ControlsState.maxProjectiles (ControlsState.generateProjectile c)
  = ControlsState.maxProjectiles c /\
  ControlsState.camera (ControlsState.generateProjectile c) = ControlsState.camera c.
Proof.
  unfold ControlsState.generateProjectile.
  destruct (ControlsState.maxProjectiles c <=? _)%nat; repeat split.
Qed.

Lemma handleRotation_frame (c : ControlsState.t) :
  ControlsState.keys (ControlsState.handleRotation c) = ControlsState.keys c /\
  ControlsState.isPointerLocked (ControlsState.handleRotation c)
  = ControlsState.isPointerLocked c /\
  ControlsState.isEnabled (ControlsState.handleRotation c) = ControlsState.isEnabled c /\
  ControlsState.maxProjectiles (ControlsState.handleRotation c)
  = ControlsState.maxProjectiles c /\
  ControlsState.projectiles (ControlsState.handleRotation c) = ControlsState.projectiles c.
Proof.
  unfold ControlsState.handleRotation.
  destruct (ControlsState.isEnabled c) eqn:E; cbn [negb]; repeat split; exact E.
Qed.

Lemma handleMovement_frame (c : ControlsState.t) (deltaTime : num) :
  ControlsState.keys (ControlsState.handleMovement c deltaTime) = ControlsState.keys c /\
  ControlsState.isPointerLocked (ControlsState.handleMovement c deltaTime)
  = ControlsState.isPointerLocked c /\
  ControlsState.isEnabled (ControlsState.handleMovement c deltaTime)
  = ControlsState.isEnabled c /\
  ControlsState.maxProjectiles (ControlsState.handleMovement c deltaTime)
  = ControlsState.maxProjectiles c /\
  ControlsState.projectiles (ControlsState.handleMovement c deltaTime)
  = ControlsState.projectiles c.
Proof.
  unfold ControlsState.handleMovement.
  destruct (ControlsState.moveInput c) as [[mf mr] mu].
  destruct (_ || _ || _); repeat split.
Qed.

(** The loop of [updateProjectiles] keeps the projectiles that were
    active, in their order, each one moved by a step. *)
Lemma firstn_splice1 {A : Type} (a : list A) (i : nat) :
  firstn i (splice1 a i) = firstn i a.
Proof.
  revert i. induction a as [|x a IH]; intros [|i]; simpl; try reflexivity.
  now rewrite IH.
Qed.

Lemma skipn_splice1 {A : Type} (a : list A) (i : nat) :
  skipn i (splice1 a i) = skipn (S i) a.
Proof.
  revert i. induction a as [|x a IH]; intros [|i]; simpl; try reflexivity.
  apply IH.
Qed.

Lemma firstn_assign {A : Type} (a : list A) (i : nat) (v : A) :
  firstn i (assign a i v) = firstn i a.
Proof.
  revert i. induction a as [|x a IH]; intros [|i]; simpl; try reflexivity.
  now rewrite IH.
Qed.

Lemma skipn_assign {A : Type} (a : list A) (i : nat) (v : A) :
  (i < List.length a)%nat -> skipn i (assign a i v) = v :: skipn (S i) a.
Proof.
  revert i. induction a as [|x a IH]; intros [|i] H; simpl in *; try lia.
  - reflexivity.
  - apply IH. lia.
Qed.

Lemma length_splice1 {A : Type} (a : list A) (i : nat) :
  (i < List.length a)%nat -> List.length (splice1 a i) = pred (List.length a).
Proof.
  revert i. induction a as [|x a IH]; intros [|i] H; simpl in *; try lia.
  rewrite IH by lia. destruct a; simpl in *; lia.
Qed.

Lemma length_assign {A : Type} (a : list A) (i : nat) (v : A) :
  List.length (assign a i v) = List.length a.
Proof.
  revert i. induction a as [|x a IH]; intros [|i]; simpl; try reflexivity.
  now rewrite IH.
Qed.

Lemma firstn_S_nth_error {A : Type} (a : list A) (i : nat) (x : A) :
  nth_error a i = Some x -> firstn (S i) a = firstn i a ++ [x].
Proof.
  revert i. induction a as [|y a IH]; intros [|i] H; try discriminate.
  - injection H as ->. reflexivity.
  - cbn [nth_error] in H.
    change (y :: firstn (S i) a = (y :: firstn i a) ++ [x]).
    rewrite (IH i H). reflexivity.
Qed.

Lemma updateProjectiles_from_eq (cam : CameraSystem.t) (deltaTime : num) :
  forall (n : nat) (ps : list ControlsState.Projectile),
    (n <= List.length ps)%nat ->
    ControlsState.updateProjectiles_from cam deltaTime n ps
    = map (ControlsState.stepProjectile cam deltaTime)
          (filter ControlsState.active (firstn n ps))
      ++ skipn n ps.
Proof.
  induction n as [|i IH]; intros ps Hn.
  - reflexivity.
  - cbn [ControlsState.updateProjectiles_from].
    destruct (nth_error ps i) as [p|] eqn:Ep.
    2:{ apply nth_error_None in Ep. lia. }
    rewrite (firstn_S_nth_error ps i p Ep), filter_app. cbn [filter].
    destruct (ControlsState.active p) eqn:Ea; cbn [negb].
    + rewrite IH by (rewrite length_assign; lia).
      rewrite firstn_assign, skipn_assign by lia.
      rewrite map_app. cbn [map]. now rewrite <- app_assoc.
    + rewrite IH by (rewrite length_splice1; lia).
      rewrite firstn_splice1, skipn_splice1. now rewrite app_nil_r.
Qed.

Lemma updateProjectiles_eq (c : ControlsState.t) (deltaTime : num) :
  ControlsState.projectiles (ControlsState.updateProjectiles c deltaTime)
  = map (ControlsState.stepProjectile (ControlsState.camera c) deltaTime)
        (filter ControlsState.active (ControlsState.projectiles c)).
Proof.
  unfold ControlsState.updateProjectiles. cbn [ControlsState.projectiles].
  rewrite updateProjectiles_from_eq by lia.
  rewrite firstn_all, skipn_all. apply app_nil_r.
Qed.

(** X14.  [updateProjectiles] walks the array backwards and splices while
    it walks; all the same, it keeps exactly the projectiles that were
    active before the call, in their order, each one advanced by one step
    of [deltaTime], and removes the inactive ones.  A projectile that the
    step makes inactive is removed by the next call. *)
Theorem updateProjectiles_keeps_the_active_ones :
  forall (c : ControlsState.t) (deltaTime : num),
    ControlsState.projectiles (ControlsState.updateProjectiles c deltaTime)
    = map (ControlsState.stepProjectile (ControlsState.camera c) deltaTime)
          (filter ControlsState.active (ControlsState.projectiles c)) /\
    (List.length (ControlsState.projectiles (ControlsState.updateProjectiles c deltaTime))
     <= List.length (ControlsState.projectiles c))%nat.
Proof.
  intros c deltaTime. rewrite updateProjectiles_eq. split; [reflexivity|].
  rewrite length_map. apply filter_length_le.
Qed.

Lemma generateProjectile_cap (c : ControlsState.t) :
  (0 < ControlsState.maxProjectiles c)%nat ->
  (List.length (ControlsState.projectiles c) <= ControlsState.maxProjectiles c)%nat ->
  (List.length (ControlsState.projectiles (ControlsState.generateProjectile c))
   <= ControlsState.maxProjectiles c)%nat.
Proof.
  intros H0 H. unfold ControlsState.generateProjectile.
  destruct (Nat.leb_spec (ControlsState.maxProjectiles c)
                         (List.length (ControlsState.projectiles c))) as [Hf|Hf];
    cbn [ControlsState.projectiles ControlsState.dispatchEvent ControlsState.set_projectiles];
    rewrite length_app; cbn [List.length].
  - destruct (ControlsState.projectiles c); cbn [tl List.length] in *; lia.
  - lia.
Qed.

Lemma generateProjectile_invariant (c : ControlsState.t) :
  controls_invariant c -> controls_invariant (ControlsState.generateProjectile c).
Proof.
  intros (Hk & Hp & Hm). unfold controls_invariant.
  destruct (generateProjectile_frame c) as (E1 & E2 & E3 & E4 & _).
  rewrite E1, E2, E3, E4. split; [exact Hk|]. split; [|exact Hm].
  apply generateProjectile_cap; lia.
Qed.

Lemma handleRotation_invariant (c : ControlsState.t) :
  controls_invariant c -> controls_invariant (ControlsState.handleRotation c).
Proof.
  intros H. unfold controls_invariant.
  destruct (handleRotation_frame c) as (E1 & E2 & E3 & E4 & E5).
  rewrite E1, E2, E3, E4, E5. exact H.
Qed.

Lemma update_invariant (c : ControlsState.t) (deltaTime : num) :
  controls_invariant c -> controls_invariant (ControlsState.update c deltaTime).
Proof.
  intros (Hk & Hp & Hm). unfold ControlsState.update.
  destruct (negb (ControlsState.isEnabled c) || negb (ControlsState.isPointerLocked c));
    [repeat split; assumption|].
  unfold controls_invariant.
  cbn [ControlsState.isPointerLocked ControlsState.isEnabled ControlsState.keys
       ControlsState.projectiles ControlsState.maxProjectiles ControlsState.set_camera
       ControlsState.updateProjectiles ControlsState.set_projectiles].
  destruct (handleMovement_frame c deltaTime) as (E1 & E2 & E3 & E4 & E5).
  rewrite E1, E2, E3, E4.
  split; [exact Hk|]. split; [|exact Hm].
  rewrite updateProjectiles_from_eq by lia.
  rewrite firstn_all, skipn_all, app_nil_r, length_map, E5.
  assert (H := filter_length_le ControlsState.active (ControlsState.projectiles c)). lia.
Qed.

Lemma handle_invariant (c : ControlsState.t) (e : ControlsState.Event) :
  controls_invariant c -> controls_invariant (ControlsState.handle c e).
Proof.
  intros H. assert (H' := H). destruct H' as (Hk & Hp & Hm).
  destruct e; cbn [ControlsState.handle].
  - (* pointerlockchange *)
    unfold ControlsState.onPointerLockChange.
    cbn [ControlsState.isPointerLocked ControlsState.set_isPointerLocked].
    destruct pointerLockElementIsCanvas.
    + split; [|split; assumption].
      cbn [ControlsState.isPointerLocked ControlsState.isEnabled ControlsState.keys
           ControlsState.set_mouse ControlsState.set_isPointerLocked].
      destruct Hk as [Hk|Hk]; [left|right; exact Hk].
      apply andb_true_iff in Hk. now rewrite (proj2 Hk).
    + split; [now right | split; assumption].
  - (* mousedown *)
    unfold ControlsState.onMouseDown.
    destruct ((button =? 0)%Z && ControlsState.isPointerLocked c); [|exact H].
    destruct (negb _); [|exact H].
    apply generateProjectile_invariant. exact H.
  - (* mousemove *)
    unfold ControlsState.onMouseMove.
    destruct (negb (ControlsState.isPointerLocked c) || negb (ControlsState.isEnabled c));
      [exact H|].
    cbn [ControlsState.mouse ControlsState.set_mouse ControlsState.isDragging
         ControlsState.set_delta].
    destruct (ControlsState.isDragging (ControlsState.mouse c)); [|exact H].
    apply handleRotation_invariant. exact H.
  - (* mouseup *)
    unfold ControlsState.onMouseUp. destruct (button =? 0)%Z; exact H.
  - (* keydown *)
    unfold ControlsState.onKeyDown.
    destruct (ControlsState.isPointerLocked c) eqn:El; [|exact H].
    destruct (ControlsState.isEnabled c) eqn:Ee; [|exact H].
    cbn [negb orb].
    assert (H1 : controls_invariant
                   (ControlsState.set_keys c
                      (set_add (ControlsState.keys c) (toLowerCase key))
                      (obj_set (ControlsState.keyState c) (toLowerCase key) true))).
    { split; [|split; assumption]. left.
      cbn [ControlsState.isPointerLocked ControlsState.isEnabled ControlsState.set_keys].
      now rewrite El, Ee. }
    destruct (String.eqb (toLowerCase key) "g"); [|exact H1].
    apply generateProjectile_invariant. exact H1.
  - (* keyup *)
    unfold ControlsState.onKeyUp. split; [|split; assumption].
    cbn [ControlsState.isPointerLocked ControlsState.isEnabled ControlsState.keys
         ControlsState.set_keys].
    destruct Hk as [Hk|Hk]; [now left|right]. now rewrite Hk.
  - (* wheel *)
    unfold ControlsState.onWheel.
    destruct (negb (ControlsState.isEnabled c)); exact H.
  - (* touchstart *)
    unfold ControlsState.onTouchStart.
    destruct (negb (ControlsState.isEnabled c)); [exact H|].
    destruct touches as [|t0 [|t1 [|t2 ts]]]; exact H.
  - (* touchmove *)
    unfold ControlsState.onTouchMove.
    destruct (negb (ControlsState.isEnabled c)); [exact H|].
    destruct touches as [|t0 [|t1 [|t2 ts]]]; try exact H.
    + destruct (ControlsState.isDragging (ControlsState.mouse c)); [|exact H].
      apply handleRotation_invariant. exact H.
    + destruct (ControlsState.isPinching c); exact H.
  - (* touchend *)
    exact H.
  - (* update *)
    now apply update_invariant.
  - (* enable *)
    split; [|split; assumption].
    cbn [ControlsState.isPointerLocked ControlsState.isEnabled ControlsState.keys
         ControlsState.enable ControlsState.set_isEnabled].
    destruct Hk as [Hk|Hk]; [left|right; exact Hk].
    apply andb_true_iff in Hk. now rewrite (proj1 Hk).
  - (* disable *)
    split; [now right | split; assumption].
Qed.

Lemma handleAll_invariant (events : list ControlsState.Event) :
  forall c : ControlsState.t,
    controls_invariant c -> controls_invariant (ControlsState.handleAll c events).
Proof.
  induction events as [|e events IH]; intros c H; [exact H|].
  apply IH. now apply handle_invariant.
Qed.

Lemma create_invariant (cam : CameraSystem.t) : controls_invariant (ControlsState.create cam).
Proof. split; [now right|]. split; [cbn; lia | reflexivity]. Qed.

(** X15.  Whatever events the page delivers to the handlers of [Controls],
    in any order, a key is held in [keys] only while the pointer is
    locked and the controls are enabled: when the lock is lost or the
    controls are disabled, no key stays pressed. *)
Theorem keys_are_held_only_while_locked :
  forall (cam : CameraSystem.t) (events : list ControlsState.Event),
    let c := ControlsState.handleAll (ControlsState.create cam) events in
    (ControlsState.isPointerLocked c = true /\ ControlsState.isEnabled c = true)
    \/ ControlsState.keys c = [].
Proof.
  intros cam events c.
  destruct (handleAll_invariant events _ (create_invariant cam)) as ([H|H] & _).
  - left. now apply andb_true_iff.
  - now right.
Qed.

(** X16.  Whatever events the page delivers, there are never more than 100
    projectiles: [generateProjectile] drops the oldest one before it adds
    the hundred and first, and no handler changes the bound. *)
Theorem projectiles_never_exceed_the_bound :
  forall (cam : CameraSystem.t) (events : list ControlsState.Event),
    let c := ControlsState.handleAll (ControlsState.create cam) events in
    (List.length (ControlsState.projectiles c) <= 100)%nat /\
    ControlsState.maxProjectiles c = 100%nat.
Proof.
  intros cam events c.
  destruct (handleAll_invariant events _ (create_invariant cam)) as (_ & H1 & H2).
  fold c in H1, H2. split; [lia | exact H2].
Qed.

Lemma mul_NaN_r (x : num) : x * NaN = NaN.
Proof. now destruct x. Qed.

Lemma add_NaN_r (x : num) : x + NaN = NaN.
Proof. now destruct x. Qed.

Lemma sub_NaN_r (x : num) : x - NaN = NaN.
Proof. now destruct x. Qed.

Lemma guarded_normalize_finite (v : vec3) :
  vec3_finite v -> vec3_finite (Controls.normalize v).
Proof.
  intros H. destruct (vec3_finite_inv _ H) as (a & b & c & ->).
  unfold Controls.normalize. cbn [c0 c1 c2 mul add]. fold (norm2 a b c).
  rewrite sqrt_Fin by apply norm2_nonneg.
  destruct (Fin (sqrt (norm2 a b c)) >? Fin 0) eqn:E; [|apply vec3_finite_Fin].
  apply gtb_Fin in E. rewrite !div_Fin by lra. apply vec3_finite_Fin.
Qed.

Lemma getCameraDirection_eq (cam : CameraSystem.t) :
  Controls.getCameraDirection cam = viewDirection cam.
Proof. reflexivity. Qed.

Lemma viewDirection_finite (cam : CameraSystem.t) :
  pose_finite cam -> vec3_finite (viewDirection cam).
Proof.
  intros (Hp & Ht & _).
  destruct (vec3_finite_inv _ Hp) as (px & py & pz & Ep).
  destruct (vec3_finite_inv _ Ht) as (tx & ty & tz & Et).
  unfold viewDirection. rewrite Ep, Et. apply vec3_finite_Fin.
Qed.

Lemma moveCamera_keeps_direction (cam : CameraSystem.t) (m : vec3) :
  pose_finite cam -> vec3_finite m ->
  viewDirection (ControlsState.moveCamera cam m) = viewDirection cam /\
  CameraSystem.up (ControlsState.moveCamera cam m) = CameraSystem.up cam /\
  pose_finite (ControlsState.moveCamera cam m).
Proof.
  intros (Hp & Ht & Hu) Hm.
  destruct (vec3_finite_inv _ Hp) as (px & py & pz & Ep).
  destruct (vec3_finite_inv _ Ht) as (tx & ty & tz & Et).
  destruct (vec3_finite_inv _ Hm) as (mx & my & mz & ->).
  unfold viewDirection, ControlsState.moveCamera, pose_finite.
  cbn [CameraSystem.position CameraSystem.target CameraSystem.up
       CameraSystem.set_position CameraSystem.set_target].
  rewrite Ep, Et. unfold CameraSystem.subtractVectors. cbn [c0 c1 c2 add sub neg].
  split; [f_equal; f_equal; ring|]. split; [reflexivity|].
  split; [apply vec3_finite_Fin|]. split; [apply vec3_finite_Fin | exact Hu].
Qed.

Lemma axis_is_zero (a b : bool) :
  ((if b then Fin (-1) else if a then Fin 1 else Fin 0) === Fin 0) = negb (a || b).
Proof.
  destruct b, a; cbn [eqb orb negb].
  - apply Reqb_false. lra.
  - apply Reqb_false. lra.
  - apply Reqb_false. lra.
  - apply Reqb_true. reflexivity.
Qed.

Lemma moveInput_eq (c : ControlsState.t) :
  ControlsState.moveInput c
  = (if ControlsState.has c "s" || ControlsState.has c "arrowdown" then Fin (-1)
     else if ControlsState.has c "w" || ControlsState.has c "arrowup" then Fin 1 else Fin 0,
     if ControlsState.has c "a" || ControlsState.has c "arrowleft" then Fin (-1)
     else if ControlsState.has c "d" || ControlsState.has c "arrowright" then Fin 1 else Fin 0,
     if ControlsState.has c "control" || ControlsState.has c "arrowdown" then Fin (-1)
     else if ControlsState.has c " " || ControlsState.has c "arrowup" then Fin 1 else Fin 0).
Proof. reflexivity. Qed.

Lemma moveInput_finite (c : ControlsState.t) :
  exists f r u : R, ControlsState.moveInput c = (Fin f, Fin r, Fin u).
Proof.
  rewrite moveInput_eq.
  repeat match goal with
         | |- context [if ?b then _ else _] => destruct b
         end; eexists _, _, _; reflexivity.
Qed.

Lemma moves_iff_a_key_is_held (c : ControlsState.t) :
  let '(moveForward, moveRight, moveUp) := ControlsState.moveInput c in
  negb (moveForward === Fin 0) || negb (moveRight === Fin 0) || negb (moveUp === Fin 0)
  = existsb (ControlsState.has c) movementKeys.
Proof.
  rewrite moveInput_eq, !axis_is_zero, !negb_involutive.
  cbn [existsb movementKeys].
  destruct (ControlsState.has c "w"), (ControlsState.has c "arrowup"),
    (ControlsState.has c "s"), (ControlsState.has c "arrowdown"),
    (ControlsState.has c "d"), (ControlsState.has c "arrowright"),
    (ControlsState.has c "a"), (ControlsState.has c "arrowleft"),
    (ControlsState.has c " "), (ControlsState.has c "control"); reflexivity.
Qed.

Lemma totalMovement_finite (c : ControlsState.t) (f r u dt ms al : R) :
  pose_finite (ControlsState.camera c) ->
  ControlsState.movementSpeed c = Fin ms -> ControlsState.altitudeSpeed c = Fin al ->
  vec3_finite (ControlsState.totalMovement c (Fin f) (Fin r) (Fin u) (Fin dt)).
Proof.
  intros Hpose Hms Hal. unfold ControlsState.totalMovement. rewrite Hms, Hal.
  assert (Hn := guarded_normalize_finite _ (viewDirection_finite _ Hpose)).
  rewrite getCameraDirection_eq.
  destruct (vec3_finite_inv _ Hn) as (nx & ny & nz & ->).
  destruct Hpose as (_ & _ & Hu).
  destruct (vec3_finite_inv _ Hu) as (ux & uy & uz & ->).
  apply vec3_finite_Fin.
Qed.

(** X17.  [handleMovement] moves the position and the target of the camera
    by the same vector: for a pose of finite numbers and a finite time
    step the view direction and [up] are as before, whatever keys are
    held.  When none of the ten movement keys is held it changes
    nothing at all. *)
Theorem handleMovement_keeps_the_view_direction :
  forall (c : ControlsState.t) (deltaTime movementSpeed altitudeSpeed : R),
    pose_finite (ControlsState.camera c) ->
    ControlsState.movementSpeed c = Fin movementSpeed ->
    ControlsState.altitudeSpeed c = Fin altitudeSpeed ->
    let c' := ControlsState.handleMovement c (Fin deltaTime) in
    viewDirection (ControlsState.camera c') = viewDirection (ControlsState.camera c) /\
    CameraSystem.up (ControlsState.camera c') = CameraSystem.up (ControlsState.camera c) /\
    pose_finite (ControlsState.camera c') /\
    (existsb (ControlsState.has c) movementKeys = false -> c' = c).
Proof.
  intros c dt ms al Hpose Hms Hal c'. unfold c', ControlsState.handleMovement.
  assert (Hk := moves_iff_a_key_is_held c).
  destruct (moveInput_finite c) as (f & r & u & E). rewrite E in *. rewrite Hk.
  destruct (existsb (ControlsState.has c) movementKeys).
  - cbn [ControlsState.camera ControlsState.set_camera].
    destruct (moveCamera_keeps_direction (ControlsState.camera c)
                (ControlsState.totalMovement c (Fin f) (Fin r) (Fin u) (Fin dt)) Hpose)
      as (H1 & H2 & H3).
    { now apply (totalMovement_finite c f r u dt ms al). }
    split; [exact H1|]. split; [exact H2|]. split; [exact H3|].
    intros D. discriminate D.
  - split; [reflexivity|]. split; [reflexivity|]. split; [exact Hpose | reflexivity].
Qed.

Lemma handleMovement_keeps_the_view_direction_witness :
  let c := ControlsState.set_keys (ControlsState.create initial_camera) ["w"%string] [] in
  let c' := ControlsState.handleMovement c (Fin (1 / 60)) in
  viewDirection (ControlsState.camera c') = viewDirection (ControlsState.camera c) /\
  CameraSystem.up (ControlsState.camera c') = CameraSystem.up (ControlsState.camera c) /\
  pose_finite (ControlsState.camera c') /\
  (existsb (ControlsState.has c) movementKeys = false -> c' = c).
Proof.
  intros c.
  apply (handleMovement_keeps_the_view_direction c (1 / 60) 5 3).
  - exact (proj1 initial_camera_valid).
  - reflexivity.
  - reflexivity.
Defined.

Lemma animate_controls (app : WebGPUHyperCube.t) (c : ControlsState.t) (currentTime : num) :
  WebGPUHyperCube.controls app = Some c ->
  WebGPUHyperCube.controls (WebGPUHyperCube.animate app currentTime)
  = Some (ControlsState.update c NaN).
Proof.
  intros E. unfold WebGPUHyperCube.animate.
  cbn [WebGPUHyperCube.lastTime WebGPUHyperCube.set_frames WebGPUHyperCube.frameCount].
  destruct (currentTime - WebGPUHyperCube.lastTime app >=? Fin 1000);
    cbn [WebGPUHyperCube.controls WebGPUHyperCube.set_frames]; rewrite E; reflexivity.
Qed.

Lemma totalMovement_NaN (c : ControlsState.t) (f r u : num) :
  ControlsState.totalMovement c f r u NaN = Vec3 NaN NaN NaN.
Proof. unfold ControlsState.totalMovement. now rewrite !mul_NaN_r. Qed.

(** X18.  [animate] calls [this.controls.update()] with no argument, so
    that [deltaTime] is [undefined].  In a frame in which the pointer is
    locked, the controls are enabled and one of the movement keys is held,
    the movement is [NaN] along every axis, and the position and the
    target of the camera are [NaN] afterwards. *)
Theorem animate_with_a_key_held_loses_the_pose :
  forall (app : WebGPUHyperCube.t) (c : ControlsState.t) (currentTime : num),
    WebGPUHyperCube.controls app = Some c ->
    ControlsState.isEnabled c = true -> ControlsState.isPointerLocked c = true ->
    existsb (ControlsState.has c) movementKeys = true ->
    exists c' : ControlsState.t,
      WebGPUHyperCube.controls (WebGPUHyperCube.animate app currentTime) = Some c' /\
      CameraSystem.position (ControlsState.camera c') = Vec3 NaN NaN NaN /\
      CameraSystem.target (ControlsState.camera c') = Vec3 NaN NaN NaN.
Proof.
  intros app c currentTime Ec He Hl Hk.
  exists (ControlsState.update c NaN). split; [now apply animate_controls|].
  unfold ControlsState.update. rewrite He, Hl. cbn [negb orb].
  cbn [ControlsState.camera ControlsState.set_camera ControlsState.updateProjectiles
       ControlsState.set_projectiles].
  destruct (updateMatrices_pose
              (ControlsState.camera (ControlsState.handleMovement c NaN))) as (-> & -> & _).
  unfold ControlsState.handleMovement.
  assert (Hm := moves_iff_a_key_is_held c).
  destruct (ControlsState.moveInput c) as [[f r] u]. rewrite Hm, Hk.
  rewrite totalMovement_NaN.
  cbn [ControlsState.camera ControlsState.set_camera ControlsState.moveCamera
       CameraSystem.position CameraSystem.target CameraSystem.set_position
       CameraSystem.set_target c0 c1 c2].
  now rewrite !add_NaN_r.
Qed.

Lemma animate_with_a_key_held_loses_the_pose_witness :
  let c := ControlsState.handleAll (ControlsState.create initial_camera)
             [ControlsState.PointerLockChange true; ControlsState.KeyDown "W"] in
  let app := WebGPUHyperCube.set_controls (WebGPUHyperCube.create (Fin 800) (Fin 600))
               (Some c) in
  exists c' : ControlsState.t,
    WebGPUHyperCube.controls (WebGPUHyperCube.animate app (Fin 16)) = Some c' /\
    CameraSystem.position (ControlsState.camera c') = Vec3 NaN NaN NaN /\
    CameraSystem.target (ControlsState.camera c') = Vec3 NaN NaN NaN.
Proof.
  intros c app.
  apply (animate_with_a_key_held_loses_the_pose app c (Fin 16)); reflexivity.
Defined.

Lemma stepProjectile_NaN (cam : CameraSystem.t) (p : ControlsState.Projectile) :
  ControlsState.stepProjectile cam NaN p
  = ControlsState.mkProjectile (Vec3 NaN NaN NaN) (ControlsState.velocity p) NaN
                               (ControlsState.active p).
Proof.
  unfold ControlsState.stepProjectile, ControlsState.checkProjectileCollision.
  rewrite !mul_NaN_r, !add_NaN_r, sub_NaN_r.
  cbn [ControlsState.position ControlsState.lifetime ControlsState.velocity
       ControlsState.active c0 c1 c2 leb ltb eqb orb].
  reflexivity.
Qed.

(** X19.  For the same reason no projectile ever runs out in the
    application: in a frame with the pointer locked and the controls
    enabled, every projectile that was active is still in the list and
    still active afterwards, with its position and its lifetime [NaN], so
    that neither the lifetime of two seconds nor the distance of 50 ends
    it. *)
Theorem animate_never_ends_a_projectile :
  forall (app : WebGPUHyperCube.t) (c : ControlsState.t) (currentTime : num),
    WebGPUHyperCube.controls app = Some c ->
    ControlsState.isEnabled c = true -> ControlsState.isPointerLocked c = true ->
    exists c' : ControlsState.t,
      WebGPUHyperCube.controls (WebGPUHyperCube.animate app currentTime) = Some c' /\
      ControlsState.projectiles c'
      = map (fun p => ControlsState.mkProjectile (Vec3 NaN NaN NaN)
                        (ControlsState.velocity p) NaN true)
            (filter ControlsState.active (ControlsState.projectiles c)).
Proof.
  intros app c currentTime Ec He Hl.
  exists (ControlsState.update c NaN). split; [now apply animate_controls|].
  unfold ControlsState.update. rewrite He, Hl. cbn [negb orb].
  cbn [ControlsState.projectiles ControlsState.set_camera].
  rewrite updateProjectiles_eq.
  destruct (handleMovement_frame c NaN) as (_ & _ & _ & _ & ->).
  induction (ControlsState.projectiles c) as [|p ps IH]; [reflexivity|].
  cbn [filter]. destruct (ControlsState.active p) eqn:Ea; [|exact IH].
  cbn [map]. rewrite IH, stepProjectile_NaN, Ea. reflexivity.
Qed.

Lemma animate_never_ends_a_projectile_witness :
  let c := ControlsState.handleAll (ControlsState.create initial_camera)
             [ControlsState.PointerLockChange true; ControlsState.KeyDown "g"] in
  let app := WebGPUHyperCube.set_controls (WebGPUHyperCube.create (Fin 800) (Fin 600))
               (Some c) in
  exists c' : ControlsState.t,
    WebGPUHyperCube.controls (WebGPUHyperCube.animate app (Fin 16)) = Some c' /\
    ControlsState.projectiles c'
    = map (fun p => ControlsState.mkProjectile (Vec3 NaN NaN NaN)
                      (ControlsState.velocity p) NaN true)
          (filter ControlsState.active (ControlsState.projectiles c)).
Proof.
  intros c app.
  apply (animate_never_ends_a_projectile app c (Fin 16)); reflexivity.
Defined.

Lemma zoomCamera_pose (cam : CameraSystem.t) (zoom : R) :
  pose_finite cam ->
  CameraSystem.position (ControlsState.zoomCamera cam (Fin zoom))
  = translate (CameraSystem.position cam) (viewDirection cam) (Fin ((zoom - 1) * 2)) /\
  CameraSystem.target (ControlsState.zoomCamera cam (Fin zoom))
  = translate (CameraSystem.target cam) (viewDirection cam) (Fin ((zoom - 1) * 2)) /\
  CameraSystem.up (ControlsState.zoomCamera cam (Fin zoom)) = CameraSystem.up cam.
Proof.
  intros Hpose. assert (Hd := viewDirection_finite _ Hpose).
  destruct Hpose as (Hp & Ht & _).
  unfold ControlsState.zoomCamera. rewrite getCameraDirection_eq.
  destruct (updateMatrices_pose
              (CameraSystem.set_target
                 (CameraSystem.set_position cam
                    (Vec3 (c0 (CameraSystem.position cam)
                           + c0 (viewDirection cam) * (Fin zoom - Fin 1) * Fin 2)
                          (c1 (CameraSystem.position cam)
                           + c1 (viewDirection cam) * (Fin zoom - Fin 1) * Fin 2)
                          (c2 (CameraSystem.position cam)
                           + c2 (viewDirection cam) * (Fin zoom - Fin 1) * Fin 2)))
                 (Vec3 (c0 (CameraSystem.target cam)
                        + c0 (viewDirection cam) * (Fin zoom - Fin 1) * Fin 2)
                       (c1 (CameraSystem.target cam)
                        + c1 (viewDirection cam) * (Fin zoom - Fin 1) * Fin 2)
                       (c2 (CameraSystem.target cam)
                        + c2 (viewDirection cam) * (Fin zoom - Fin 1) * Fin 2))))
    as (E1 & E2 & E3).
  cbv zeta. cbn [CameraSystem.target CameraSystem.set_position] in *.
  rewrite E1, E2, E3.
  cbn [CameraSystem.position CameraSystem.target CameraSystem.up
       CameraSystem.set_position CameraSystem.set_target].
  destruct (vec3_finite_inv _ Hp) as (px & py & pz & ->).
  destruct (vec3_finite_inv _ Ht) as (tx & ty & tz & ->).
  destruct (vec3_finite_inv _ Hd) as (dx & dy & dz & ->).
  unfold translate. cbn [c0 c1 c2 add sub neg mul].
  split; [|split; [|reflexivity]]; f_equal; f_equal; ring.
Qed.

(** X20.  The wheel does not zoom, it moves the camera: for a pose of
    finite numbers [onWheel] shifts the position and the target by the
    same fifth of the view direction, forward when [deltaY] is positive
    and backward otherwise, so that the view direction and the distance
    to the target are as before.  While the controls are disabled it
    does nothing. *)
Theorem onWheel_moves_position_and_target_together :
  forall (c : ControlsState.t) (deltaY : num),
    pose_finite (ControlsState.camera c) ->
    let c' := ControlsState.onWheel c deltaY in
    let step := if deltaY >? Fin 0 then (1 / 5)%R else (- (1 / 5))%R in
    if ControlsState.isEnabled c then
      CameraSystem.position (ControlsState.camera c')
      = translate (CameraSystem.position (ControlsState.camera c))
                  (viewDirection (ControlsState.camera c)) (Fin step) /\
      CameraSystem.target (ControlsState.camera c')
      = translate (CameraSystem.target (ControlsState.camera c))
                  (viewDirection (ControlsState.camera c)) (Fin step) /\
      viewDirection (ControlsState.camera c') = viewDirection (ControlsState.camera c)
    else c' = c.
Proof.
  intros c deltaY Hpose c' step. unfold c', ControlsState.onWheel.
  destruct (ControlsState.isEnabled c); cbn [negb]; [|reflexivity].
  cbn [ControlsState.camera ControlsState.set_camera].
  assert (H : forall zoom : R,
             CameraSystem.position (ControlsState.zoomCamera (ControlsState.camera c) (Fin zoom))
             = translate (CameraSystem.position (ControlsState.camera c))
                         (viewDirection (ControlsState.camera c)) (Fin ((zoom - 1) * 2)) /\
             CameraSystem.target (ControlsState.zoomCamera (ControlsState.camera c) (Fin zoom))
             = translate (CameraSystem.target (ControlsState.camera c))
                         (viewDirection (ControlsState.camera c)) (Fin ((zoom - 1) * 2)) /\
             viewDirection (ControlsState.zoomCamera (ControlsState.camera c) (Fin zoom))
             = viewDirection (ControlsState.camera c)).
  { intros zoom. destruct (zoomCamera_pose _ zoom Hpose) as (E1 & E2 & _).
    split; [exact E1|]. split; [exact E2|].
    unfold viewDirection at 1. rewrite E1, E2.
    apply translate_keeps_difference; try apply Hpose.
    now apply viewDirection_finite. }
  unfold step. destruct (deltaY >? Fin 0).
  - replace (1 / 5)%R with ((11 / 10 - 1) * 2)%R by lra. apply H.
  - replace (- (1 / 5))%R with ((9 / 10 - 1) * 2)%R by lra. apply H.
Qed.

Lemma onWheel_moves_position_and_target_together_witness :
  let c := ControlsState.create initial_camera in
  let c' := ControlsState.onWheel c (Fin 120) in
  let step := if Fin 120 >? Fin 0 then (1 / 5)%R else (- (1 / 5))%R in
  if ControlsState.isEnabled c then
    CameraSystem.position (ControlsState.camera c')
    = translate (CameraSystem.position (ControlsState.camera c))
                (viewDirection (ControlsState.camera c)) (Fin step) /\
    CameraSystem.target (ControlsState.camera c')
    = translate (CameraSystem.target (ControlsState.camera c))
                (viewDirection (ControlsState.camera c)) (Fin step) /\
    viewDirection (ControlsState.camera c') = viewDirection (ControlsState.camera c)
  else c' = c.
Proof.
  intros c.
  apply (onWheel_moves_position_and_target_together c (Fin 120)).
  exact (proj1 initial_camera_valid).
Defined.

(** ** [rotateCamera] *)

Lemma yaw_norm (d0 d1 d2 u0 u1 u2 cy sy : R) :
  let r0 := (d1 * u2 + - (d2 * u1))%R in
  let r1 := (d2 * u0 + - (d0 * u2))%R in
  let r2 := (d0 * u1 + - (d1 * u0))%R in
  norm2 (d0 * cy + r0 * sy) (d1 * cy + r1 * sy) (d2 * cy + r2 * sy)
  = (cy * cy * norm2 d0 d1 d2 + sy * sy * norm2 r0 r1 r2)%R.
Proof. intros r0 r1 r2. unfold norm2, r0, r1, r2. ring. Qed.

Lemma pitch_norm (r0 r1 r2 n0 n1 n2 cp sp : R) :
  let q0 := (r1 * n2 + - (r2 * n1))%R in
  let q1 := (r2 * n0 + - (r0 * n2))%R in
  let q2 := (r0 * n1 + - (r1 * n0))%R in
  norm2 (n0 * cp + q0 * sp) (n1 * cp + q1 * sp) (n2 * cp + q2 * sp)
  = (cp * cp * norm2 n0 n1 n2 + sp * sp * norm2 q0 q1 q2)%R.
Proof. intros q0 q1 q2. unfold norm2, q0, q1, q2. ring. Qed.

Lemma square_pos (a : R) : a <> 0%R -> (0 < a * a)%R.
Proof. intros H. nra. Qed.

(** The direction [rotateCamera] reaches, before the last normalization,
    for a pose of finite numbers that looks somewhere. *)
Lemma rotated_before_normalize (cam : CameraSystem.t) (yaw pitch : R) :
  pose_finite cam -> looks_somewhere cam ->
  cos yaw <> 0%R -> cos pitch <> 0%R ->
  exists a b c : R,
    Controls.applyPitch
      (Controls.cross (CameraSystem.normalize (Controls.getCameraDirection cam))
                      (CameraSystem.up cam))
      (Controls.applyYaw
         (CameraSystem.normalize (Controls.getCameraDirection cam))
         (Controls.cross (CameraSystem.normalize (Controls.getCameraDirection cam))
                         (CameraSystem.up cam))
         (Fin yaw))
      (Fin pitch)
    = Vec3 (Fin a) (Fin b) (Fin c) /\
    (0 < norm2 a b c)%R.
Proof.
  intros (Hp & Ht & Hu) Hl Hcy Hcp.
  destruct (vec3_finite_inv _ Hp) as (px & py & pz & Ep).
  destruct (vec3_finite_inv _ Ht) as (tx & ty & tz & Et).
  destruct (vec3_finite_inv _ Hu) as (ux & uy & uz & Eu).
  assert (Hd := direction_nonzero cam _ _ _ _ _ _ Ep Et Hl).
  unfold Controls.getCameraDirection. rewrite Ep, Et, Eu. cbn [c0 c1 c2 sub neg add].
  rewrite (normalize_Fin _ _ _ Hd).
  assert (Hunit := norm2_normalized _ _ _ Hd).
  set (L := sqrt (norm2 (tx + - px) (ty + - py) (tz + - pz))) in *.
  set (d0 := ((tx + - px) / L)%R) in *. set (d1 := ((ty + - py) / L)%R) in *.
  set (d2 := ((tz + - pz) / L)%R) in *.
  unfold Controls.cross. rewrite cross_Fin.
  set (r0 := (d1 * uz + - (d2 * uy))%R). set (r1 := (d2 * ux + - (d0 * uz))%R).
  set (r2 := (d0 * uy + - (d1 * ux))%R).
  unfold Controls.applyYaw. cbn [c0 c1 c2 Math.cos Math.sin mul add].
  set (n0 := (d0 * cos yaw + r0 * sin yaw)%R). set (n1 := (d1 * cos yaw + r1 * sin yaw)%R).
  set (n2 := (d2 * cos yaw + r2 * sin yaw)%R).
  assert (Hn : (0 < norm2 n0 n1 n2)%R).
  { unfold n0, n1, n2, r0, r1, r2. rewrite yaw_norm. fold r0 r1 r2. rewrite Hunit.
    assert (H1 := square_pos _ Hcy). assert (H2 := norm2_nonneg r0 r1 r2).
    assert (H3 : (0 <= sin yaw * sin yaw)%R) by nra.
    assert (H4 := Rmult_le_pos _ _ H3 H2). lra. }
  unfold Controls.applyPitch. cbn [c0 c1 c2].
  destruct (Math.abs _ <? Controls.maxPitch); [|eexists _, _, _; split; [reflexivity|exact Hn]].
  rewrite cross_Fin. cbn [c0 c1 c2 Math.cos Math.sin mul add].
  eexists _, _, _. split; [reflexivity|].
  rewrite pitch_norm.
  assert (H1 := square_pos _ Hcp).
  assert (H2 := norm2_nonneg (r1 * n2 + - (r2 * n1)) (r2 * n0 + - (r0 * n2))
                  (r0 * n1 + - (r1 * n0))).
  assert (H3 : (0 <= sin pitch * sin pitch)%R) by nra.
  assert (H4 := Rmult_le_pos _ _ H3 H2).
  assert (H5 := Rmult_lt_0_compat _ _ H1 Hn). lra.
Qed.

Lemma rotateCamera_distance (cam : CameraSystem.t) (yaw pitch : R) :
  pose_finite cam -> looks_somewhere cam ->
  cos yaw <> 0%R -> cos pitch <> 0%R ->
  let cam' := Controls.rotateCamera cam (Fin yaw) (Fin pitch) in
  CameraSystem.position cam' = CameraSystem.position cam /\
  CameraSystem.up cam' = CameraSystem.up cam /\
  exists x y z : R,
    viewDirection cam' = Vec3 (Fin x) (Fin y) (Fin z) /\ norm2 x y z = (5 * 5)%R.
Proof.
  intros Hpose Hl Hcy Hcp cam'.
  destruct (rotated_before_normalize cam yaw pitch Hpose Hl Hcy Hcp) as (a & b & c & E & Hn).
  destruct (rotateCamera_pose cam (Fin yaw) (Fin pitch)) as (E1 & E2).
  split; [exact E1|]. split; [reflexivity|].
  unfold viewDirection, cam'. rewrite E1, E2.
  unfold Controls.rotatedDirection. rewrite E, (normalize_Fin _ _ _ Hn).
  destruct Hpose as (Hp & _).
  destruct (vec3_finite_inv _ Hp) as (px & py & pz & ->).
  unfold translate, CameraSystem.subtractVectors. cbn [c0 c1 c2 add sub neg mul].
  eexists _, _, _. split; [reflexivity|].
  assert (Hunit := norm2_normalized _ _ _ Hn).
  unfold norm2 in *. nra.
Qed.

(** X21.  For a pose of finite numbers whose target is not the position
    and for a yaw and a pitch between -90 and 90 degrees, as the mouse
    gives them, [rotateCamera] keeps the position and [up] of the camera
    and puts the target at the distance 5 from the position, whatever
    the distance was. *)
Theorem rotateCamera_puts_the_target_at_distance_5 :
  forall (cam : CameraSystem.t) (yaw pitch : R),
    pose_finite cam -> looks_somewhere cam ->
    (- (PI / 2) < yaw < PI / 2)%R -> (- (PI / 2) < pitch < PI / 2)%R ->
    let cam' := Controls.rotateCamera cam (Fin yaw) (Fin pitch) in
    CameraSystem.position cam' = CameraSystem.position cam /\
    CameraSystem.up cam' = CameraSystem.up cam /\
    exists x y z : R,
      viewDirection cam' = Vec3 (Fin x) (Fin y) (Fin z) /\ norm2 x y z = (5 * 5)%R.
Proof.
  intros cam yaw pitch Hpose Hl Hy Hp.
  apply rotateCamera_distance; try assumption.
  - assert (H := cos_gt_0 yaw (proj1 Hy) (proj2 Hy)). lra.
  - assert (H := cos_gt_0 pitch (proj1 Hp) (proj2 Hp)). lra.
Qed.

Lemma rotateCamera_puts_the_target_at_distance_5_witness :
  let cam' := Controls.rotateCamera initial_camera (Fin (1 / 10)) (Fin (- (1 / 20))) in
  CameraSystem.position cam' = CameraSystem.position initial_camera /\
  CameraSystem.up cam' = CameraSystem.up initial_camera /\
  exists x y z : R,
    viewDirection cam' = Vec3 (Fin x) (Fin y) (Fin z) /\ norm2 x y z = (5 * 5)%R.
Proof.
  assert (H := PI_bounds).
  apply (rotateCamera_puts_the_target_at_distance_5 initial_camera (1 / 10) (- (1 / 20))).
  - exact (proj1 initial_camera_valid).
  - exact (proj2 initial_camera_valid).
  - lra.
  - lra.
Defined.

Lemma yawedDirection_finite (cam : CameraSystem.t) (yaw : R) :
  pose_finite cam -> looks_somewhere cam ->
  vec3_finite (yawedDirection cam (Fin yaw)) /\
  vec3_finite (Controls.cross (CameraSystem.normalize (Controls.getCameraDirection cam))
                              (CameraSystem.up cam)).
Proof.
  intros Hpose Hl. assert (Hd := normalized_direction_finite cam Hpose Hl).
  destruct Hpose as (_ & _ & Hu). unfold yawedDirection. rewrite getCameraDirection_eq.
  destruct (vec3_finite_inv _ Hd) as (d0 & d1 & d2 & ->).
  destruct (vec3_finite_inv _ Hu) as (u0 & u1 & u2 & ->).
  split; apply vec3_finite_Fin.
Qed.

(** X22.  The limit of the pitch does not clamp: when the pitch after the
    yaw step plus the pitch asked for is not within 85 degrees,
    [rotateCamera] drops the pitch as a whole and turns the camera as it
    does for the same yaw and no pitch. *)
Theorem rotateCamera_drops_a_refused_pitch :
  forall (cam : CameraSystem.t) (yaw pitch : R),
    pose_finite cam -> looks_somewhere cam ->
    (Math.abs (Math.asin (c1 (yawedDirection cam (Fin yaw))) + Fin pitch)
     <? Controls.maxPitch) = false ->
    Controls.rotateCamera cam (Fin yaw) (Fin pitch)
    = Controls.rotateCamera cam (Fin yaw) (Fin 0).
Proof.
  intros cam yaw pitch Hpose Hl Hg.
  unfold Controls.rotateCamera.
  assert (E : Controls.rotatedDirection cam (Fin yaw) (Fin pitch)
              = Controls.rotatedDirection cam (Fin yaw) (Fin 0)); [|now rewrite E].
  unfold Controls.rotatedDirection. fold (yawedDirection cam (Fin yaw)).
  destruct (yawedDirection_finite cam yaw Hpose Hl) as (Hn & Hr).
  f_equal. unfold Controls.applyPitch. rewrite Hg.
  destruct (Math.abs (Math.asin (c1 (yawedDirection cam (Fin yaw))) + Fin 0)
            <? Controls.maxPitch); [|reflexivity].
  destruct (vec3_finite_inv _ Hn) as (n0 & n1 & n2 & ->).
  destruct (vec3_finite_inv _ Hr) as (r0 & r1 & r2 & ->).
  unfold Controls.cross. rewrite cross_Fin.
  cbn [c0 c1 c2 Math.cos Math.sin mul add]. rewrite cos_0, sin_0.
  f_equal; f_equal; ring.
Qed.

Lemma large_pitch_is_refused (x : num) (pitch : R) :
  (4 <= pitch)%R -> (Math.abs (Math.asin x + Fin pitch) <? Controls.maxPitch) = false.
Proof.
  intros Hp. rewrite maxPitch_Fin. assert (Hpi := PI_bounds).
  destruct x as [a| | |]; try reflexivity.
  unfold Math.asin. destruct (Rle_dec (-1) a); [|reflexivity].
  destruct (Rle_dec a 1); [|reflexivity].
  cbn [add Math.abs ltb]. apply Rltb_false.
  assert (H := asin_bound a).
  rewrite Rabs_right by lra. lra.
Qed.

Lemma rotateCamera_drops_a_refused_pitch_witness :
  Controls.rotateCamera initial_camera (Fin (1 / 10)) (Fin 4)
  = Controls.rotateCamera initial_camera (Fin (1 / 10)) (Fin 0).
Proof.
  apply (rotateCamera_drops_a_refused_pitch initial_camera (1 / 10) 4).
  - exact (proj1 initial_camera_valid).
  - exact (proj2 initial_camera_valid).
  - apply large_pitch_is_refused. lra.
Defined.

Lemma guarded_normalize_Fin (a b c : R) :
  ((0 < norm2 a b c)%R ->
   Controls.normalize (Vec3 (Fin a) (Fin b) (Fin c))
   = Vec3 (Fin (a / sqrt (norm2 a b c))) (Fin (b / sqrt (norm2 a b c)))
          (Fin (c / sqrt (norm2 a b c)))) /\
  (norm2 a b c = 0%R ->
   Controls.normalize (Vec3 (Fin a) (Fin b) (Fin c)) = Vec3 (Fin 0) (Fin 0) (Fin 0)).
Proof.
  unfold Controls.normalize. cbn [c0 c1 c2 mul add]. fold (norm2 a b c).
  rewrite sqrt_Fin by apply norm2_nonneg. split; intros H.
  - assert (Hs := sqrt_lt_R0 _ H).
    replace (Fin (sqrt (norm2 a b c)) >? Fin 0) with true
      by (symmetry; apply gtb_Fin; lra).
    rewrite !div_Fin by lra. reflexivity.
  - rewrite H, sqrt_0.
    replace (Fin 0 >? Fin 0) with false; [reflexivity|].
    symmetry. apply Rltb_false. lra.
Qed.

(** X23.  [generateProjectile] adds one projectile at the end of the list,
    at the position of the camera, active and with two seconds to live,
    and dispatches one ['projectile-fired'] event from the same
    position.  For a pose of finite numbers the direction of the event is
    the view direction made a unit vector and the projectile flies along
    it at [projectileSpeed]; when the target is the position of the
    camera, the direction and the velocity are the zero vector and not
    [NaN]. *)
Theorem generateProjectile_fires_along_the_view :
  forall (c : ControlsState.t) (speed : R),
    pose_finite (ControlsState.camera c) ->
    ControlsState.projectileSpeed c = Fin speed ->
    let c' := ControlsState.generateProjectile c in
    let p := CameraSystem.position (ControlsState.camera c) in
    exists (rest : list ControlsState.Projectile) (dx dy dz : R),
      ControlsState.projectiles c'
      = rest ++ [ControlsState.mkProjectile p
                   (Vec3 (Fin (dx * speed)) (Fin (dy * speed)) (Fin (dz * speed)))
                   (Fin 2) true] /\
      ControlsState.dispatched c'
      = ControlsState.dispatched c
        ++ [ControlsState.mkFired p (Vec3 (Fin dx) (Fin dy) (Fin dz))] /\
      ControlsState.camera c' = ControlsState.camera c /\
      (looks_somewhere (ControlsState.camera c) ->
       norm2 dx dy dz = 1%R /\
       norm2 (dx * speed) (dy * speed) (dz * speed) = (speed * speed)%R /\
       CameraSystem.normalize (viewDirection (ControlsState.camera c))
       = Vec3 (Fin dx) (Fin dy) (Fin dz)) /\
      (CameraSystem.target (ControlsState.camera c) = p ->
       (dx, dy, dz) = (0, 0, 0)%R).
Proof.
  intros c speed Hpose Hs c' p.
  destruct Hpose as (Hp & Ht & _).
  destruct (vec3_finite_inv _ Hp) as (px & py & pz & Ep).
  destruct (vec3_finite_inv _ Ht) as (tx & ty & tz & Et).
  unfold c', ControlsState.generateProjectile.
  set (cs := if (ControlsState.maxProjectiles c <=? _)%nat then _ else c).
  assert (Hc1 : ControlsState.camera cs = ControlsState.camera c
                /\ ControlsState.projectileSpeed cs = ControlsState.projectileSpeed c
                /\ ControlsState.dispatched cs = ControlsState.dispatched c).
  { unfold cs. destruct (_ <=? _)%nat; repeat split. }
  destruct Hc1 as (Ec & Esp & Edi).
  cbn [ControlsState.projectiles ControlsState.dispatched ControlsState.camera
       ControlsState.dispatchEvent ControlsState.set_projectiles
       ControlsState.projectileSpeed].
  rewrite Ec, Esp, Edi, Hs. fold p.
  unfold Controls.getCameraDirection. unfold p. rewrite Ep, Et. cbn [c0 c1 c2 sub neg add].
  destruct (guarded_normalize_Fin (tx + - px) (ty + - py) (tz + - pz)) as [Hpos Hzero].
  destruct (Rle_lt_or_eq_dec _ _ (norm2_nonneg (tx + - px) (ty + - py) (tz + - pz)))
    as [Hlt|Heq].
  - rewrite (Hpos Hlt). cbn [c0 c1 c2 mul].
    eexists _, _, _, _. split; [reflexivity|]. split; [reflexivity|]. split; [reflexivity|].
    split.
    + intros _. assert (Hu := norm2_normalized _ _ _ Hlt).
      split; [exact Hu|]. split.
      * unfold norm2 in *. nra.
      * unfold viewDirection. rewrite Ep, Et.
        unfold CameraSystem.subtractVectors. cbn [c0 c1 c2 sub neg add].
        now rewrite (normalize_Fin _ _ _ Hlt).
    + intros E. injection E as -> -> ->. exfalso. unfold norm2 in Hlt. nra.
  - rewrite (Hzero (eq_sym Heq)). cbn [c0 c1 c2 mul].
    eexists _, _, _, _. split; [reflexivity|]. split; [reflexivity|]. split; [reflexivity|].
    split; [|reflexivity].
    intros Hl. exfalso.
    assert (H := direction_nonzero (ControlsState.camera c) _ _ _ _ _ _ Ep Et Hl). lra.
Qed.

Lemma generateProjectile_fires_along_the_view_witness :
  let c := ControlsState.create initial_camera in
  let c' := ControlsState.generateProjectile c in
  let p := CameraSystem.position (ControlsState.camera c) in
  exists (rest : list ControlsState.Projectile) (dx dy dz : R),
    ControlsState.projectiles c'
    = rest ++ [ControlsState.mkProjectile p
                 (Vec3 (Fin (dx * 15)) (Fin (dy * 15)) (Fin (dz * 15)))
                 (Fin 2) true] /\
    ControlsState.dispatched c'
    = ControlsState.dispatched c
      ++ [ControlsState.mkFired p (Vec3 (Fin dx) (Fin dy) (Fin dz))] /\
    ControlsState.camera c' = ControlsState.camera c /\
    (looks_somewhere (ControlsState.camera c) ->
     norm2 dx dy dz = 1%R /\
     norm2 (dx * 15) (dy * 15) (dz * 15) = (15 * 15)%R /\
     CameraSystem.normalize (viewDirection (ControlsState.camera c))
     = Vec3 (Fin dx) (Fin dy) (Fin dz)) /\
    (CameraSystem.target (ControlsState.camera c) = p ->
     (dx, dy, dz) = (0, 0, 0)%R).
Proof.
  intros c.
  apply (generateProjectile_fires_along_the_view c 15).
  - exact (proj1 initial_camera_valid).
  - reflexivity.
Defined.

(** ** The matrices and the shader *)

Lemma multiplyMatrices_length (a b : list num) :
  List.length (CameraSystem.multiplyMatrices a b) = 16%nat.
Proof. reflexivity. Qed.

Lemma list16 {A : Type} (l : list A) :
  List.length l = 16%nat ->
  exists a0 a1 a2 a3 a4 a5 a6 a7 a8 a9 a10 a11 a12 a13 a14 a15,
    l = [a0; a1; a2; a3; a4; a5; a6; a7; a8; a9; a10; a11; a12; a13; a14; a15].
Proof.
  intros H.
  do 16 (destruct l as [|? l]; [discriminate|]).
  destruct l; [|discriminate].
  do 16 eexists. reflexivity.
Qed.

(** X24.  What [updateUniformBuffer] writes is what the shader reads: after
    [updateMatrices] the uniforms of the shader are the product of the
    projection matrix and the view matrix, the position of the camera,
    and the time, which every call advances by 0.01. *)
Theorem uniforms_round_trip :
  forall cam : CameraSystem.t,
    let cam' := CameraSystem.updateMatrices cam in
    Shader.readUniforms (CameraSystem.uniformBuffer cam')
    = Shader.mkCameraUniforms
        (CameraSystem.multiplyMatrices (CameraSystem.projectionMatrix cam')
                                       (CameraSystem.viewMatrix cam'))
        (CameraSystem.position cam)
        (CameraSystem.time cam + Fin (1 / 100)) /\
    CameraSystem.viewProjectionMatrix cam'
    = CameraSystem.multiplyMatrices (CameraSystem.projectionMatrix cam')
                                    (CameraSystem.viewMatrix cam') /\
    CameraSystem.time cam' = CameraSystem.time cam + Fin (1 / 100) /\
    List.length (CameraSystem.uniformBuffer cam') = 20%nat.
Proof.
  intros cam cam'.
  assert (H : forall c : CameraSystem.t,
             List.length (CameraSystem.viewProjectionMatrix c) = 16%nat ->
             Shader.readUniforms (CameraSystem.uniformBuffer (CameraSystem.updateUniformBuffer c))
             = Shader.mkCameraUniforms (CameraSystem.viewProjectionMatrix c)
                 (CameraSystem.position c) (CameraSystem.time c + Fin (1 / 100))
             /\ List.length (CameraSystem.uniformBuffer (CameraSystem.updateUniformBuffer c))
                = 20%nat).
  { intros c Hc. unfold CameraSystem.updateUniformBuffer.
    cbn [CameraSystem.uniformBuffer CameraSystem.set_uniform].
    destruct (list16 _ Hc)
      as (a0 & a1 & a2 & a3 & a4 & a5 & a6 & a7 & a8 & a9 & a10 & a11 & a12 & a13 & a14 & a15
          & ->).
    unfold Shader.readUniforms. destruct (CameraSystem.position c) as [x y z].
    split; reflexivity. }
  unfold cam', CameraSystem.updateMatrices.
  match goal with
  | |- context [CameraSystem.updateUniformBuffer ?c] =>
      destruct (H c (multiplyMatrices_length _ _)) as (E1 & E2)
  end.
  split; [exact E1|]. split; [reflexivity|]. split; [reflexivity | exact E2].
Qed.



(** X25.  [multiplyMatrices(out, a, b)] is the product [a b] of matrices
    stored column after column, which is how the shader reads them: for
    matrices of finite numbers, the vertex stage with the matrix
    [multiplyMatrices(projection, view)] gives the position that the
    view matrix and then the projection matrix give. *)
Theorem vertex_main_applies_view_then_projection :
  forall (projection view : list R) (vertex : vec3) (cube : Shader.CubeData)
         (cameraPosition : vec3) (time : num),
    List.length projection = 16%nat -> List.length view = 16%nat ->
    vec3_finite (Shader.worldPosition vertex cube) ->
    let w := Shader.worldPosition vertex cube in
    Shader.out_position
      (Shader.vertex_main
         (Shader.mkCameraUniforms
            (CameraSystem.multiplyMatrices (map Fin projection) (map Fin view))
            cameraPosition time)
         vertex cube)
    = Shader.mul_mat4_vec4 (map Fin projection)
        (Shader.mul_mat4_vec4 (map Fin view) (Shader.Vec4 (c0 w) (c1 w) (c2 w) (Fin 1))).
Proof.
  intros projection view vertex cube cameraPosition time Hp Hv Hw w.
  destruct (list16 projection Hp)
    as (p0 & p1 & p2 & p3 & p4 & p5 & p6 & p7 & p8 & p9 & p10 & p11 & p12 & p13 & p14 & p15
        & ->).
  destruct (list16 view Hv)
    as (v0 & v1 & v2 & v3 & v4 & v5 & v6 & v7 & v8 & v9 & v10 & v11 & v12 & v13 & v14 & v15
        & ->).
  unfold w. clear w.
  unfold Shader.vertex_main. cbn [Shader.out_position Shader.viewProjectionMatrix].
  destruct (vec3_finite_inv _ Hw) as (x & y & z & ->).
  unfold Shader.mul_mat4_vec4, CameraSystem.multiplyMatrices, at_.
  cbn [map nth c0 c1 c2 Shader.v0 Shader.v1 Shader.v2 Shader.v3 mul add].
  f_equal; f_equal; ring.
Qed.

Lemma vertex_main_applies_view_then_projection_witness :
  let projection := [1; 0; 0; 0; 0; 2; 0; 0; 0; 0; -1; -1; 0; 0; -1 / 5; 0]%R in
  let view := [1; 0; 0; 0; 0; 1; 0; 0; 0; 0; 1; 0; 0; -2; -5; 1]%R in
  let vertex := Vec3 (Fin (1 / 2)) (Fin (1 / 2)) (Fin (1 / 2)) in
  let cube := Shader.mkCubeData (Vec3 (Fin 0) (Fin 0) (Fin 0))
                                (Vec3 (Fin 0) (Fin (1 / 5)) (Fin 1)) (Fin (4 / 5)) (Fin 0) in
  let w := Shader.worldPosition vertex cube in
  Shader.out_position
    (Shader.vertex_main
       (Shader.mkCameraUniforms
          (CameraSystem.multiplyMatrices (map Fin projection) (map Fin view))
          (Vec3 (Fin 0) (Fin 2) (Fin 5)) (Fin 0))
       vertex cube)
  = Shader.mul_mat4_vec4 (map Fin projection)
      (Shader.mul_mat4_vec4 (map Fin view) (Shader.Vec4 (c0 w) (c1 w) (c2 w) (Fin 1))).
Proof.
  intros projection view vertex cube.
  apply (vertex_main_applies_view_then_projection projection view vertex cube).
  - reflexivity.
  - reflexivity.
  - repeat split.
Defined.

(** X26.  For a pose of finite numbers whose [up] is not parallel to the
    view direction, the view matrix, read as the shader reads it, takes
    the position of the camera to the origin and the target to the point
    of the third axis at the distance of the target from the camera. *)
Theorem view_matrix_centres_the_camera :
  forall c : CameraSystem.t,
    pose_finite c -> ~ up_parallel_to_view c ->
    let view := CameraSystem.viewMatrix (CameraSystem.updateMatrices c) in
    let p := CameraSystem.position c in
    let t := CameraSystem.target c in
    Shader.mul_mat4_vec4 view (Shader.Vec4 (c0 p) (c1 p) (c2 p) (Fin 1))
    = Shader.Vec4 (Fin 0) (Fin 0) (Fin 0) (Fin 1) /\
    exists dx dy dz : R,
      viewDirection c = Vec3 (Fin dx) (Fin dy) (Fin dz) /\
      Shader.mul_mat4_vec4 view (Shader.Vec4 (c0 t) (c1 t) (c2 t) (Fin 1))
      = Shader.Vec4 (Fin 0) (Fin 0) (Fin (sqrt (norm2 dx dy dz))) (Fin 1).
Proof.
  intros c (Hp & Ht & Hu) Hn view p t. unfold view, p, t.
  rewrite updateMatrices_viewMatrix.
  destruct (vec3_finite_inv _ Hp) as (px & py & pz & Ep).
  destruct (vec3_finite_inv _ Ht) as (tx & ty & tz & Et).
  destruct (vec3_finite_inv _ Hu) as (ux & uy & uz & Eu).
  destruct (not_parallel_norms c _ _ _ _ _ _ _ _ _ Ep Et Eu Hn) as [Hd Hc].
  unfold CameraSystem.updateViewMatrix, viewDirection.
  cbn [CameraSystem.viewMatrix CameraSystem.set_viewMatrix].
  rewrite Ep, Et, Eu.
  unfold CameraSystem.subtractVectors. cbn [c0 c1 c2 sub neg add].
  rewrite (normalize_Fin _ _ _ Hd).
  assert (Hq := sqrt_sqrt _ (Rlt_le _ _ Hd)).
  set (dx := (tx + - px)%R) in *. set (dy := (ty + - py)%R) in *.
  set (dz := (tz + - pz)%R) in *.
  set (L := sqrt (norm2 dx dy dz)) in *.
  assert (HL : (0 < L)%R) by (apply sqrt_lt_R0, Hd).
  rewrite !cross_Fin.
  assert (Hc' := cross_scaled_nonzero ux uy uz _ _ _ L HL Hc).
  rewrite (normalize_Fin _ _ _ Hc').
  set (M := sqrt (norm2 (uy * (dz / L) + - (uz * (dy / L))) (uz * (dx / L) + - (ux * (dz / L)))
                        (ux * (dy / L) + - (uy * (dx / L))))) in *.
  assert (HM : (0 < M)%R) by (apply sqrt_lt_R0, Hc').
  rewrite !cross_Fin.
  unfold Shader.mul_mat4_vec4, CameraSystem.dot, at_.
  cbn [nth c0 c1 c2 Shader.v0 Shader.v1 Shader.v2 Shader.v3 mul add neg].
  split.
  - f_equal; f_equal; ring.
  - exists dx, dy, dz. split; [reflexivity|].
    unfold norm2 in Hq. fold L.
    assert (Edx : tx = (dx + px)%R) by (unfold dx; ring).
    assert (Edy : ty = (dy + py)%R) by (unfold dy; ring).
    assert (Edz : tz = (dz + pz)%R) by (unfold dz; ring).
    rewrite Edx, Edy, Edz.
    clearbody M L dx dy dz.
    f_equal; f_equal.
    + field. lra.
    + field. lra.
    + transitivity ((dx * dx + dy * dy + dz * dz) / L)%R.
      * field. lra.
      * rewrite <- Hq. field. lra.
    + ring.
Qed.

Lemma view_matrix_centres_the_camera_witness :
  let view := CameraSystem.viewMatrix (CameraSystem.updateMatrices initial_camera) in
  let p := CameraSystem.position initial_camera in
  let t := CameraSystem.target initial_camera in
  Shader.mul_mat4_vec4 view (Shader.Vec4 (c0 p) (c1 p) (c2 p) (Fin 1))
  = Shader.Vec4 (Fin 0) (Fin 0) (Fin 0) (Fin 1) /\
  exists dx dy dz : R,
    viewDirection initial_camera = Vec3 (Fin dx) (Fin dy) (Fin dz) /\
    Shader.mul_mat4_vec4 view (Shader.Vec4 (c0 t) (c1 t) (c2 t) (Fin 1))
    = Shader.Vec4 (Fin 0) (Fin 0) (Fin (sqrt (norm2 dx dy dz))) (Fin 1).
Proof.
  apply (view_matrix_centres_the_camera initial_camera).
  - exact (proj1 initial_camera_valid).
  - exact initial_camera_regular.
Defined.

(** X27.  Moving forward twice is moving forward once by the sum: for a
    pose of finite numbers whose target is not the position,
    [moveForward(a)] and then [moveForward(b)] leave the position and
    the target that [moveForward(a + b)] leaves; in particular
    [moveForward(a)] and then [moveForward(-a)] bring the camera back. *)
Theorem moveForward_adds_up :
  forall (c : CameraSystem.t) (a b : R),
    pose_finite c -> looks_somewhere c ->
    let twice := CameraSystem.moveForward (CameraSystem.moveForward c (Fin a)) (Fin b) in
    let once := CameraSystem.moveForward c (Fin (a + b)) in
    CameraSystem.position twice = CameraSystem.position once /\
    CameraSystem.target twice = CameraSystem.target once /\
    (b = (- a)%R ->
     CameraSystem.position twice = CameraSystem.position c /\
     CameraSystem.target twice = CameraSystem.target c).
Proof.
  intros c a b Hpose Hl twice once.
  assert (Hd := normalized_direction_finite c Hpose Hl).
  destruct (moveForward_pose c (Fin a)) as (Ea1 & Ea2).
  assert (Hdir : viewDirection (CameraSystem.moveForward c (Fin a)) = viewDirection c).
  { unfold viewDirection at 1. rewrite Ea1, Ea2.
    apply translate_keeps_difference; try apply Hpose. exact Hd. }
  destruct (moveForward_pose (CameraSystem.moveForward c (Fin a)) (Fin b)) as (Eb1 & Eb2).
  destruct (moveForward_pose c (Fin (a + b))) as (Es1 & Es2).
  unfold twice, once. rewrite Eb1, Eb2, Es1, Es2, Hdir, Ea1, Ea2.
  destruct Hpose as (Hp & Ht & _).
  destruct (vec3_finite_inv _ Hp) as (px & py & pz & ->).
  destruct (vec3_finite_inv _ Ht) as (tx & ty & tz & ->).
  destruct (vec3_finite_inv _ Hd) as (dx & dy & dz & ->).
  unfold translate. cbn [c0 c1 c2 add mul].
  split; [f_equal; f_equal; ring|]. split; [f_equal; f_equal; ring|].
  intros ->. split; f_equal; f_equal; ring.
Qed.

Lemma moveForward_adds_up_witness :
  let twice := CameraSystem.moveForward (CameraSystem.moveForward initial_camera (Fin 2))
                                     (Fin (- 2)) in
  let once := CameraSystem.moveForward initial_camera (Fin (2 + - 2)) in
  CameraSystem.position twice = CameraSystem.position once /\
  CameraSystem.target twice = CameraSystem.target once /\
  ((- 2)%R = (- 2)%R ->
   CameraSystem.position twice = CameraSystem.position initial_camera /\
   CameraSystem.target twice = CameraSystem.target initial_camera).
Proof.
  apply (moveForward_adds_up initial_camera 2 (- 2)).
  - exact (proj1 initial_camera_valid).
  - exact (proj2 initial_camera_valid).
Defined.

Lemma signed_inf_nonfinite (r : R) : is_finite (signed_inf r) = false.
Proof.
  unfold signed_inf. destruct (Req_dec_T r 0); [reflexivity|].
  destruct (Rlt_dec 0 r); reflexivity.
Qed.

Lemma nonfinite_mul (x : num) (r : R) :
  is_finite x = false -> is_finite (x * Fin r) = false.
Proof.
  destruct x; intros H; try discriminate; cbn [mul];
    try apply signed_inf_nonfinite; reflexivity.
Qed.

Lemma nonfinite_add (p : R) (x : num) :
  is_finite x = false -> is_finite (Fin p + x) = false.
Proof. destruct x; intros H; try discriminate; reflexivity. Qed.

Lemma nonfinite_shift (p d : R) :
  is_finite (Fin p + Fin d * (PInf - Fin 1) * Fin 2) = false.
Proof.
  apply nonfinite_add, nonfinite_mul. cbn [sub neg add mul]. apply signed_inf_nonfinite.
Qed.

(** X28.  A pinch that ends with both fingers on one point divides by the
    distance zero: for a pose of finite numbers, with a pinch started at
    a positive distance, [onTouchMove] with two equal touches leaves no
    finite coordinate in the position and the target of the camera. *)
Theorem pinch_to_a_point_loses_the_pose :
  forall (c : ControlsState.t) (touch : num * num) (start x y : R),
    pose_finite (ControlsState.camera c) ->
    ControlsState.isEnabled c = true -> ControlsState.isPinching c = true ->
    ControlsState.touchStartDistance c = Fin start -> (0 < start)%R ->
    touch = (Fin x, Fin y) ->
    let c' := ControlsState.onTouchMove c [touch; touch] in
    let p := CameraSystem.position (ControlsState.camera c') in
    let t := CameraSystem.target (ControlsState.camera c') in
    is_finite (c0 p) = false /\ is_finite (c1 p) = false /\ is_finite (c2 p) = false /\
    is_finite (c0 t) = false /\ is_finite (c1 t) = false /\ is_finite (c2 t) = false.
Proof.
  intros c touch start x y Hpose He Hpi Hs Hpos -> c' p t.
  unfold p, t, c', ControlsState.onTouchMove. rewrite He, Hpi. cbn [negb].
  cbn [ControlsState.camera ControlsState.set_camera ControlsState.set_pinch].
  assert (Ez : ControlsState.touchStartDistance c
               / ControlsState.getTouchDistance (Fin x, Fin y) (Fin x, Fin y) = PInf).
  { rewrite Hs. unfold ControlsState.getTouchDistance. cbn [fst snd sub neg add mul].
    replace ((x + - x) * (x + - x) + (y + - y) * (y + - y))%R with 0%R by ring.
    rewrite sqrt_Fin by lra. rewrite sqrt_0. cbn [div].
    destruct (Req_dec_T 0 0); [|contradiction]. unfold signed_inf.
    destruct (Req_dec_T start 0); [lra|]. destruct (Rlt_dec 0 start); [reflexivity | lra]. }
  rewrite Ez.
  assert (Hd := viewDirection_finite _ Hpose). destruct Hpose as (Hp & Ht & _).
  unfold ControlsState.zoomCamera. rewrite getCameraDirection_eq.
  match goal with
  | |- context [CameraSystem.updateMatrices ?cam] =>
      destruct (updateMatrices_pose cam) as (-> & -> & _)
  end.
  cbn [CameraSystem.position CameraSystem.target CameraSystem.set_position
       CameraSystem.set_target].
  destruct (vec3_finite_inv _ Hp) as (px & py & pz & ->).
  destruct (vec3_finite_inv _ Ht) as (tx & ty & tz & ->).
  destruct (vec3_finite_inv _ Hd) as (dx & dy & dz & ->).
  cbn [c0 c1 c2]. repeat split; apply nonfinite_shift.
Qed.

Lemma pinch_to_a_point_loses_the_pose_witness :
  let c := ControlsState.onTouchStart (ControlsState.create initial_camera)
             [(Fin 0, Fin 0); (Fin 3, Fin 4)] in
  let c' := ControlsState.onTouchMove c [(Fin 7, Fin 7); (Fin 7, Fin 7)] in
  let p := CameraSystem.position (ControlsState.camera c') in
  let t := CameraSystem.target (ControlsState.camera c') in
  is_finite (c0 p) = false /\ is_finite (c1 p) = false /\ is_finite (c2 p) = false /\
  is_finite (c0 t) = false /\ is_finite (c1 t) = false /\ is_finite (c2 t) = false.
Proof.
  intros c.
  apply (pinch_to_a_point_loses_the_pose c (Fin 7, Fin 7) 5 7 7).
  - exact (proj1 initial_camera_valid).
  - reflexivity.
  - reflexivity.
  - unfold c, ControlsState.onTouchStart, ControlsState.getTouchDistance.
    cbn [ControlsState.isEnabled ControlsState.create negb ControlsState.touchStartDistance
         ControlsState.set_pinch fst snd sub neg add mul].
    rewrite sqrt_Fin by lra. f_equal.
    transitivity (sqrt (5 * 5)); [f_equal; ring | apply sqrt_square; lra].
  - lra.
  - reflexivity.
Defined.

(** ** Reading the records *)

Lemma split_nonempty (sep : ascii) (s : string) : split sep s <> [].
Proof.
  induction s as [|c s IH]; simpl; [discriminate|].
  destruct (Ascii.eqb c sep); [discriminate|].
  destruct (split sep s); [contradiction | discriminate].
Qed.

Lemma split_plain (sep : ascii) (s : string) :
  occurs sep s = false -> split sep s = [s].
Proof.
  induction s as [|c s IH]; simpl; intros H; [reflexivity|].
  apply orb_false_iff in H. destruct H as [H1 H2]. rewrite H1, (IH H2). reflexivity.
Qed.

Lemma split_app_sep (sep : ascii) (s t : string) :
  occurs sep s = false -> split sep (s ++ String sep t) = s :: split sep t.
Proof.
  induction s as [|c s IH]; simpl; intros H.
  - now rewrite Ascii.eqb_refl.
  - apply orb_false_iff in H. destruct H as [H1 H2]. rewrite H1, (IH H2). reflexivity.
Qed.

Lemma split_join (sep : ascii) (l : list string) :
  l <> [] -> (forall s, In s l -> occurs sep s = false) -> split sep (join sep l) = l.
Proof.
  induction l as [|s l IH]; intros Hne H; [contradiction|].
  destruct l as [|s' l].
  - simpl. apply split_plain, H. now left.
  - change (join sep (s :: s' :: l)) with (s ++ String sep (join sep (s' :: l)))%string.
    rewrite split_app_sep by (apply H; now left).
    rewrite IH; [reflexivity | discriminate|]. intros x Hx. apply H. now right.
Qed.

Lemma occurs_app (c : ascii) (s t : string) :
  occurs c (s ++ t) = occurs c s || occurs c t.
Proof.
  induction s as [|c' s IH]; simpl; [reflexivity|]. rewrite IH. apply orb_assoc.
Qed.

Lemma occurs_join (c sep : ascii) (l : list string) :
  Ascii.eqb sep c = false -> (forall s, In s l -> occurs c s = false) ->
  occurs c (join sep l) = false.
Proof.
  intros Hs. induction l as [|s l IH]; intros H; [reflexivity|].
  destruct l as [|s' l].
  - apply H. now left.
  - change (join sep (s :: s' :: l)) with (s ++ String sep (join sep (s' :: l)))%string.
    rewrite occurs_app. simpl. rewrite Hs, (H s (or_introl eq_refl)). simpl.
    apply IH. intros x Hx. apply H. now right.
Qed.

Lemma obj_get_set_eq {A : Type} (o : list (string * A)) (k : string) (v : A) :
  obj_get (obj_set o k v) k = Some v.
Proof.
  induction o as [|[k' v'] o IH]; simpl.
  - now rewrite String.eqb_refl.
  - destruct (String.eqb k' k) eqn:E; simpl; rewrite E; [reflexivity | exact IH].
Qed.

Lemma obj_get_set_neq {A : Type} (o : list (string * A)) (k k' : string) (v : A) :
  k <> k' -> obj_get (obj_set o k v) k' = obj_get o k'.
Proof.
  intros N. induction o as [|[k0 v0] o IH]; simpl.
  - apply String.eqb_neq in N. now rewrite N.
  - destruct (String.eqb k0 k) eqn:E; simpl.
    + apply String.eqb_eq in E. subst k0.
      apply String.eqb_neq in N. now rewrite N.
    + destruct (String.eqb k0 k'); [reflexivity | exact IH].
Qed.

Lemma trim_empty : trim EmptyString = EmptyString.
Proof. reflexivity. Qed.

Lemma fillItem_get (values : list string) (headers : list string) :
  forall (item : WebGPUHyperCube.Item) (index : nat),
    NoDup (map trim headers) ->
    (forall h, In h headers -> trim h <> "__proto__"%string) ->
    (forall (i : nat) (h : string),
        nth_error headers i = Some h ->
        obj_get (WebGPUHyperCube.fillItem item values headers index) (trim h)
        = Some (match nth_error values (index + i) with
                | Some v => trim v
                | None => EmptyString
                end)) /\
    (forall k : string,
        ~ In k (map trim headers) ->
        obj_get (WebGPUHyperCube.fillItem item values headers index) k = obj_get item k).
Proof.
  induction headers as [|header rest IH]; intros item index Hnd Hp.
  - split; [intros [|i] h H; discriminate | reflexivity].
  - cbn [map] in Hnd. apply NoDup_cons_iff in Hnd. destruct Hnd as [Hnotin Hnd].
    cbn [WebGPUHyperCube.fillItem].
    set (value := match nth_error values index with
                  | Some v => if String.eqb v EmptyString then EmptyString else trim v
                  | None => EmptyString
                  end).
    assert (Hv : value = match nth_error values index with
                         | Some v => trim v
                         | None => EmptyString
                         end).
    { unfold value. destruct (nth_error values index) as [v|]; [|reflexivity].
      destruct (String.eqb v EmptyString) eqn:E; [|reflexivity].
      apply String.eqb_eq in E. now rewrite E. }
    destruct (IH (WebGPUHyperCube.setProperty item (trim header) value) (S index) Hnd
                 (fun h Hh => Hp h (or_intror Hh))) as [IH1 IH2].
    assert (Hset : WebGPUHyperCube.setProperty item (trim header) value
                   = obj_set item (trim header) value).
    { unfold WebGPUHyperCube.setProperty.
      destruct (String.eqb_spec (trim header) "__proto__") as [E|_]; [|reflexivity].
      exfalso. apply (Hp header); [now left | exact E]. }
    split.
    + intros [|i] h H.
      * injection H as <-. rewrite IH2 by exact Hnotin.
        rewrite Hset, obj_get_set_eq, Hv. now rewrite Nat.add_0_r.
      * cbn [nth_error] in H. rewrite (IH1 i h H).
        now replace (S index + i)%nat with (index + S i)%nat by lia.
    + intros k Hk. rewrite IH2.
      * rewrite Hset. apply obj_get_set_neq. intros E. apply Hk. left. exact E.
      * intros Hin. apply Hk. right. exact Hin.
Qed.

(** X29.  [parseCSV] reads back a table that is written one record a
    line, the first line for the headers, the fields separated by
    commas: when no header and no field holds a comma or a line feed,
    the trimmed headers are pairwise different and none is [__proto__],
    and no line of a record is blank, it returns one record for each
    line, in their order, in which every header, trimmed, names the
    trimmed field of its column, and the empty string when the line has
    no such column. *)
Theorem parseCSV_reads_a_table :
  forall (headers : list string) (rows : list (list string)),
    headers <> [] ->
    (forall h, In h headers -> occurs comma h = false /\ occurs newline h = false) ->
    NoDup (map trim headers) ->
    (forall h, In h headers -> trim h <> "__proto__"%string) ->
    (forall row, In row rows ->
                 row <> [] /\ trim (join comma row) <> EmptyString /\
                 forall v, In v row -> occurs comma v = false /\ occurs newline v = false) ->
    let csvText := join newline (join comma headers :: map (join comma) rows) in
    let items := WebGPUHyperCube.parseCSV csvText in
    List.length items = List.length rows /\
    forall (r i : nat) (row : list string) (item : WebGPUHyperCube.Item) (h : string),
      nth_error rows r = Some row -> nth_error items r = Some item ->
      nth_error headers i = Some h ->
      obj_get item (trim h)
      = Some (match nth_error row i with
              | Some v => trim v
              | None => EmptyString
              end).
Proof.
  intros headers rows Hne Hh Hnd Hp Hrows csvText items.
  assert (Hlines : split newline csvText = join comma headers :: map (join comma) rows).
  { unfold csvText. apply split_join; [discriminate|].
    intros s [<-|Hs].
    - apply occurs_join; [reflexivity|]. intros h Hin. apply Hh, Hin.
    - apply in_map_iff in Hs. destruct Hs as (row & <- & Hrow).
      apply occurs_join; [reflexivity|]. intros v Hv. apply (Hrows row Hrow), Hv. }
  assert (Hhead : split comma (join comma headers) = headers).
  { apply split_join; [exact Hne|]. intros h Hin. apply Hh, Hin. }
  assert (Hitems : items
                   = map (fun row => WebGPUHyperCube.fillItem [] row headers 0) rows).
  { unfold items, WebGPUHyperCube.parseCSV. rewrite Hlines. cbn [hd tl]. rewrite Hhead.
    clear Hlines csvText items. induction rows as [|row rows IH]; [reflexivity|].
    cbn [map flat_map]. rewrite IH by (intros x Hx; apply Hrows; now right).
    destruct (Hrows row (or_introl eq_refl)) as (Hr1 & Hr2 & Hr3).
    unfold WebGPUHyperCube.parseLine at 1.
    apply String.eqb_neq in Hr2. rewrite Hr2.
    rewrite split_join; [reflexivity | exact Hr1|]. intros v Hv. apply Hr3, Hv. }
  rewrite Hitems. split; [apply length_map|].
  intros r i row item h Hr Hitem Hi.
  rewrite (map_nth_error _ _ _ Hr) in Hitem. injection Hitem as <-.
  destruct (fillItem_get row headers [] 0 Hnd Hp) as [H _].
  apply (H i h Hi).
Qed.

Lemma parseCSV_reads_a_table_witness :
  let headers := ["PMID"; " PubYear"; "Source"]%string in
  let rows := [["31"; "1990 "; "Nature"]; ["32"; "2010"]]%string in
  let csvText := join newline (join comma headers :: map (join comma) rows) in
  let items := WebGPUHyperCube.parseCSV csvText in
  List.length items = List.length rows /\
  forall (r i : nat) (row : list string) (item : WebGPUHyperCube.Item) (h : string),
    nth_error rows r = Some row -> nth_error items r = Some item ->
    nth_error headers i = Some h ->
    obj_get item (trim h)
    = Some (match nth_error row i with
            | Some v => trim v
            | None => EmptyString
            end).
Proof.
  intros headers rows.
  apply (parseCSV_reads_a_table headers rows).
  - discriminate.
  - intros h [<-|[<-|[<-|[]]]]; split; reflexivity.
  - repeat constructor; simpl; intuition discriminate.
  - intros h [<-|[<-|[<-|[]]]]; discriminate.
  - intros row [<-|[<-|[]]]; (split; [discriminate|]); (split; [discriminate|]).
    + intros v [<-|[<-|[<-|[]]]]; split; reflexivity.
    + intros v [<-|[<-|[]]]; split; reflexivity.
Defined.
